(** * G6 drag-node behaviour and polyline edge drawing

    A shallow embedding of [DragNode] (the drag-node behaviour of the
    graph runtime) and of [PolylineEdge.getPath] / [drawKeyShape].

    Numbers are rationals ([Q]); the only non-finite values the code can
    produce ([Math.min()] of nothing, arithmetic on [undefined]) occur in
    [moveDelegate] and are carried by [num].  Identifiers are strings.
    The behaviour's private fields form the record [DragNode]; the graph
    runtime is the record [Graph]: its data store, the answers of its
    read-only queries, and the log of every write the behaviour issues. *)

From Stdlib Require Import QArith Qminmax Qabs.
From stdpp Require Import base strings list gmap.

Local Open Scope Z_scope.

Abbreviation ID := string.

(** JavaScript truthiness of an optional id: [undefined] and the empty
    string are falsy. *)
Definition truthy (o : option ID) : bool :=
  match o with
  | Some s => negb (String.eqb s EmptyString)
  | None => false
  end.

Definition includes (l : list ID) (i : ID) : bool := bool_decide (i ∈ l).

(** [uniq] of @antv/util: first occurrences, in order.  The models the
    runtime hands out are identified by their id. *)
Fixpoint uniq {A : Type} (key : A -> ID) (l : list A) : list A :=
  match l with
  | [] => []
  | a :: r =>
      a :: List.filter (fun b => negb (String.eqb (key a) (key b))) (uniq key r)
  end.

(** ** Numbers

    Coordinates and deltas are exact rationals: the sums of the source
    are computed without the rounding of IEEE doubles. *)

Definition Qltb (a b : Q) : bool := negb (Qle_bool b a).

Definition hundredth : Q := 1 # 100.

(** A JavaScript number as far as [moveDelegate] needs it. *)
Inductive num : Type :=
| Fin (q : Q)
| PosInf
| NegInf
| NaN.

(** [Math.min(...l)]: [Infinity] for no argument, [NaN] as soon as one
    argument is [undefined]. *)
Definition Math_min (l : list (option Q)) : num :=
  foldr (fun o acc =>
           match o, acc with
           | None, _ => NaN
           | Some _, NaN => NaN
           | Some _, NegInf => NegInf
           | Some q, PosInf => Fin q
           | Some q, Fin r => Fin (Qmin q r)
           end) PosInf l.

Definition Math_max (l : list (option Q)) : num :=
  foldr (fun o acc =>
           match o, acc with
           | None, _ => NaN
           | Some _, NaN => NaN
           | Some _, PosInf => PosInf
           | Some q, NegInf => Fin q
           | Some q, Fin r => Fin (Qmax q r)
           end) NegInf l.

Definition num_add (a b : num) : num :=
  match a, b with
  | NaN, _ | _, NaN => NaN
  | Fin p, Fin q => Fin (p + q)
  | PosInf, NegInf | NegInf, PosInf => NaN
  | PosInf, _ | _, PosInf => PosInf
  | NegInf, _ | _, NegInf => NegInf
  end.

Definition num_sub (a b : num) : num :=
  match a, b with
  | NaN, _ | _, NaN => NaN
  | Fin p, Fin q => Fin (p - q)
  | PosInf, PosInf | NegInf, NegInf => NaN
  | PosInf, _ | _, NegInf => PosInf
  | NegInf, _ | _, PosInf => NegInf
  end.

(** ** Data model *)

Record Point : Type := mkPoint { px : Q; py : Q }.

(** The [data] object of a node or combo model. *)
Record ModelData : Type := mkData {
  d_x : Q;
  d_y : Q;
  d_parentId : option ID;
  d_isCombo : bool;                       (* data._isCombo *)
  d_preventPolylineEdgeOverlap : bool
}.

(** [NodeModel | ComboModel]. *)
Record NodeModel : Type := mkNode { n_id : ID; n_data : ModelData }.

Record EdgeModel : Type := mkEdge {
  e_id : ID;
  e_source : ID;
  e_target : ID;
  e_obstacleAvoidance : bool
}.

(** Modelled from the spec: [isPointPreventPolylineOverlap] of
    utils/polyline is not part of the sources; the spec speaks of a dragged
    node "flagged prevent polyline overlap". *)
Definition isPointPreventPolylineOverlap (m : option NodeModel) : bool :=
  match m with
  | Some n => d_preventPolylineEdgeOverlap (n_data n)
  | None => false
  end.

(** Modelled from the spec: [isPolylineWithObstacleAvoidance] of
    utils/polyline is not part of the sources; the spec speaks of edges
    "eligible for obstacle avoidance". *)
Definition isPolylineWithObstacleAvoidance (e : EdgeModel) : bool :=
  e_obstacleAvoidance e.

(** The [Position] type of the source. *)
Record Position : Type := mkPosition {
  p_id : ID;
  p_x : Q;
  p_y : Q;
  p_minX : option Q;
  p_maxX : option Q;
  p_minY : option Q;
  p_maxY : option Q
}.

Record BBox : Type := mkBBox { bb_min : Q * Q; bb_max : Q * Q }.

(** Style objects: an ordered list of properties; a later assignment of
    a key replaces the earlier value (object spread). *)
Inductive StyleValue : Type :=
| SNum (n : num)
| SStr (s : string)
| SDash (a b : Q).

Definition Style : Type := list (string * StyleValue).

Fixpoint style_get (k : string) (s : Style) : option StyleValue :=
  match s with
  | [] => None
  | (k', v) :: r => if String.eqb k k' then Some v else style_get k r
  end.

Fixpoint style_set (k : string) (v : StyleValue) (s : Style) : Style :=
  match s with
  | [] => [(k, v)]
  | (k', v') :: r =>
      if String.eqb k k' then (k', v) :: r else (k', v') :: style_set k v r
  end.

(** [{...a, ...b}] *)
Definition spread (a b : Style) : Style :=
  fold_left (fun acc kv => style_set (fst kv) (snd kv) acc) b a.

(** ** Events *)

(** An [IG6GraphEvent] (or the keyboard event [onKeydown] receives).
    [ev_hit] is what the hit test of the drop handlers resolves to for
    this event: the [data-item-id] attribute of each element under the
    pointer, topmost first.  [ev_now] is [Date.now()] when the event is
    handled. *)
Record IG6GraphEvent : Type := mkEvent {
  ev_canvas : Point;
  ev_itemId : option ID;
  ev_key : string;
  ev_hit : list (option ID);
  ev_now : Z
}.

(** ** Options *)

(** [Partial<DragNodeOptions>]: an absent property is [None]. *)
Record DragNodeOptions : Type := mkPartial {
  o_enableTransient : option bool;
  o_enableDelegate : option bool;
  o_delegateStyle : option Style;
  o_throttle : option Z;
  o_hideRelatedEdges : option bool;
  o_selectedState : option string;
  o_eventName : option string;
  o_updateComboStructure : option bool;
  o_shouldBegin : option (IG6GraphEvent -> bool)
}.

(** [Required<DragNodeOptions>] *)
Record Options : Type := mkOptions {
  enableTransient : bool;
  enableDelegate : bool;
  delegateStyle : Style;
  throttle : Z;
  hideRelatedEdges : bool;
  selectedState : string;
  eventName : string;
  updateComboStructure : bool;
  shouldBegin : IG6GraphEvent -> bool
}.

Definition DEFAULT_OPTIONS : Options :=
  {| enableTransient := true;
     enableDelegate := false;
     delegateStyle :=
       [("fill", SStr "#F3F9FF"); ("fillOpacity", SNum (Fin (1 # 2)));
        ("stroke", SStr "#1890FF"); ("strokeOpacity", SNum (Fin (9 # 10)));
        ("lineDash", SDash 5 5)];
     throttle := 16;
     hideRelatedEdges := false;
     selectedState := "selected";
     eventName := EmptyString;
     updateComboStructure := true;
     shouldBegin := fun _ => true |}.

(** [Object.assign({}, DEFAULT_OPTIONS, options)] *)
Definition assign (d : Options) (o : DragNodeOptions) : Options :=
  {| enableTransient := default (enableTransient d) (o_enableTransient o);
     enableDelegate := default (enableDelegate d) (o_enableDelegate o);
     delegateStyle := default (delegateStyle d) (o_delegateStyle o);
     throttle := default (throttle d) (o_throttle o);
     hideRelatedEdges := default (hideRelatedEdges d) (o_hideRelatedEdges o);
     selectedState := default (selectedState d) (o_selectedState o);
     eventName := default (eventName d) (o_eventName o);
     updateComboStructure :=
       default (updateComboStructure d) (o_updateComboStructure o);
     shouldBegin := default (shouldBegin d) (o_shouldBegin o) |}.

Definition set_enableTransient (b : bool) (o : Options) : Options :=
  {| enableTransient := b;
     enableDelegate := enableDelegate o;
     delegateStyle := delegateStyle o;
     throttle := throttle o;
     hideRelatedEdges := hideRelatedEdges o;
     selectedState := selectedState o;
     eventName := eventName o;
     updateComboStructure := updateComboStructure o;
     shouldBegin := shouldBegin o |}.

Definition set_hideRelatedEdges (b : bool) (o : Options) : Options :=
  {| enableTransient := enableTransient o;
     enableDelegate := enableDelegate o;
     delegateStyle := delegateStyle o;
     throttle := throttle o;
     hideRelatedEdges := b;
     selectedState := selectedState o;
     eventName := eventName o;
     updateComboStructure := updateComboStructure o;
     shouldBegin := shouldBegin o |}.

(** The option resolution of the [DragNode] constructor. *)
Definition constructor_options (options : DragNodeOptions) : Options :=
  let finalOptions := assign DEFAULT_OPTIONS options in
  let finalOptions :=
    if enableDelegate finalOptions
    then set_enableTransient false finalOptions
    else finalOptions in
  if enableDelegate finalOptions || enableTransient finalOptions
  then set_hideRelatedEdges false finalOptions
  else finalOptions.

(** ** The graph runtime *)

Inductive ItemKind : Type := KNode | KEdge | KCombo | KRect.

Global Instance ItemKind_eq_dec : EqDecision ItemKind.
Proof. solve_decision. Defined.

(** The configuration object of a [drawTransient] call. *)
Inductive TransientCfg : Type :=
| TDraw (upsertAncestors : option bool)     (* {} or { upsertAncestors } *)
| TMove (x y : Q) (upsertAncestors : bool)  (* { data: { x, y }, upsertAncestors } *)
| TVisible                                  (* { visible: true } *)
| TRemove                                   (* { action: 'remove' } *)
| TStyle (style : Style).                   (* { style } *)

(** Every write the behaviour issues, in order. *)
Inductive Effect : Type :=
| Warn (msg : string)
| AddMouseupListener
| StopPropagation
| HideItem (ids : list ID) (keepRelated : bool)
| ShowItem (id : ID) (shapeIds : option (list string))
| FrontItem (ids : list ID)
| DrawTransient (kind : ItemKind) (id : ID) (cfg : TransientCfg)
| UpdateNodePosition (changes : list (ID * Point))
    (upsertAncestors : option bool)
| UpdateData (changes : list (ID * option ID))
| Emit (name : string) (itemIds : list ID).

(** Modelled from the spec: the graph runtime is an external collaborator
    (section 6 of the spec lists its read and write operations); none of
    its code is part of the sources.  The first group of fields are the
    answers of its read-only queries, the second its data store. *)
Record Graph : Type := mkGraph {
  rendererType : string;
  findIdByState : string -> list ID;        (* findIdByState('node', state, true) *)
  getRelatedEdgesData : ID -> list EdgeModel;
  getNeighborNodesData : ID -> list NodeModel;
  nearEdgesOracle : list Effect -> ID -> list EdgeModel;
  getRenderBBox : ID -> option BBox;
  graphComboTreeDfs : list NodeModel -> list ID;
  shapeMap : ID -> list string;             (* all sub-shape ids of an item *)
  nodes : gmap string ModelData;
  combos : gmap string ModelData;
  visibleShapeIds : gmap string (list string);
  hiddenItems : list ID;
  transients : list (ItemKind * ID);
  log : list Effect
}.

Definition with_store (g : Graph) (ns : gmap string ModelData)
    (vis : gmap string (list string)) (hid : list ID)
    (tr : list (ItemKind * ID)) (l : list Effect) : Graph :=
  {| rendererType := rendererType g;
     findIdByState := findIdByState g;
     getRelatedEdgesData := getRelatedEdgesData g;
     getNeighborNodesData := getNeighborNodesData g;
     nearEdgesOracle := nearEdgesOracle g;
     getRenderBBox := getRenderBBox g;
     graphComboTreeDfs := graphComboTreeDfs g;
     shapeMap := shapeMap g;
     nodes := ns;
     combos := combos g;
     visibleShapeIds := vis;
     hiddenItems := hid;
     transients := tr;
     log := l |}.

Definition record (e : Effect) (g : Graph) : Graph :=
  with_store g (nodes g) (visibleShapeIds g) (hiddenItems g) (transients g)
    (log g ++ [e]).

Definition getNodeData (g : Graph) (i : ID) : option NodeModel :=
  mkNode i <$> nodes g !! i.

Definition getComboData (g : Graph) (i : ID) : option NodeModel :=
  mkNode i <$> combos g !! i.

Definition getItemVisible (g : Graph) (i : ID) : bool :=
  negb (includes (hiddenItems g) i).

Definition getItemVisibleShapeIds (g : Graph) (i : ID) : list string :=
  default [] (visibleShapeIds g !! i).

(** [getNearEdgesData(nodeId, shouldBegin)]: a spatial query, whose answer
    may depend on everything drawn so far. *)
Definition getNearEdgesData (g : Graph) (i : ID)
    (shouldBegin : EdgeModel -> bool) : list EdgeModel :=
  List.filter shouldBegin (nearEdgesOracle g (log g) i).

Definition warn (msg : string) (g : Graph) : Graph := record (Warn msg) g.

(** [hideItem(ids, { disableAnimate: true, keepRelated })] *)
Definition hideItem (ids : list ID) (keepRelated : bool) (g : Graph) : Graph :=
  record (HideItem ids keepRelated)
    (with_store g (nodes g)
       (foldr (fun i m => <[i := []]> m) (visibleShapeIds g) ids)
       (ids ++ hiddenItems g) (transients g) (log g)).

(** [showItem(id, { shapeIds })]: with [shapeIds] the listed sub-shapes
    are shown, without it every sub-shape of the item is. *)
Definition showItem (i : ID) (shapeIds : option (list string)) (g : Graph)
    : Graph :=
  record (ShowItem i shapeIds)
    (with_store g (nodes g)
       (<[i := default (shapeMap g i) shapeIds]> (visibleShapeIds g))
       (List.filter (fun j => negb (String.eqb i j)) (hiddenItems g))
       (transients g) (log g)).

Definition frontItem (ids : list ID) (g : Graph) : Graph :=
  record (FrontItem ids) g.

Definition is_remove (cfg : TransientCfg) : bool :=
  match cfg with TRemove => true | _ => false end.

Definition drawTransient (k : ItemKind) (i : ID) (cfg : TransientCfg)
    (g : Graph) : Graph :=
  let others :=
    List.filter (fun t => negb (bool_decide (t = (k, i)))) (transients g) in
  record (DrawTransient k i cfg)
    (with_store g (nodes g) (visibleShapeIds g) (hiddenItems g)
       (if is_remove cfg then others else (k, i) :: others) (log g)).

Definition move_to (p : Point) (d : ModelData) : ModelData :=
  {| d_x := px p; d_y := py p; d_parentId := d_parentId d;
     d_isCombo := d_isCombo d;
     d_preventPolylineEdgeOverlap := d_preventPolylineEdgeOverlap d |}.

Definition set_parent (parent : option ID) (d : ModelData) : ModelData :=
  {| d_x := d_x d; d_y := d_y d; d_parentId := parent;
     d_isCombo := d_isCombo d;
     d_preventPolylineEdgeOverlap := d_preventPolylineEdgeOverlap d |}.

(** The store after the listed nodes took the given coordinates. *)
Definition place (changes : list (ID * Point)) (m : gmap string ModelData)
    : gmap string ModelData :=
  fold_left (fun m c => alter (move_to (snd c)) (fst c) m) changes m.

(** The store after the listed nodes took the given parents. *)
Definition reparent (changes : list (ID * option ID))
    (m : gmap string ModelData) : gmap string ModelData :=
  fold_left (fun m c => alter (set_parent (snd c)) (fst c) m) changes m.

(** [updateNodePosition(changes, upsertAncestors, true, callback)]: the
    listed nodes take the given coordinates, in order; an id the store
    does not hold is left alone.  [upsertAncestors] is [None] when the
    call does not pass it.  The completion callback is kept by the
    behaviour's [pendingCommits] until the runtime invokes it. *)
Definition updateNodePosition (changes : list (ID * Point))
    (upsertAncestors : option bool) (g : Graph) : Graph :=
  record (UpdateNodePosition changes upsertAncestors)
    (with_store g
       (place changes (nodes g))
       (visibleShapeIds g) (hiddenItems g) (transients g) (log g)).

(** [updateData('node', changes)] with changes of the form
    [{ id, data: { parentId } }]. *)
Definition updateData (changes : list (ID * option ID)) (g : Graph) : Graph :=
  record (UpdateData changes)
    (with_store g
       (reparent changes (nodes g))
       (visibleShapeIds g) (hiddenItems g) (transients g) (log g)).

Definition emit (name : string) (itemIds : list ID) (g : Graph) : Graph :=
  record (Emit name itemIds) g.

(** ** The behaviour's state *)

Record MoveArgs : Type := mkArgs {
  a_deltaX : Q;
  a_deltaY : Q;
  a_transient : bool;
  a_upsertAncestors : bool
}.

(** The value of the field [throttledMoveNodes].

    Modelled from the spec: [throttle] of @antv/util is not part of the
    sources; the spec asks for "leading+trailing semantics so the first
    and last frames in a burst are never dropped".  [Throttled] carries
    the wait, the time of the last invocation, whether the trailing timer
    is armed, and the arguments of the latest call the timer will use.
    The field holds the throttled function of the current drag: a timer
    that the throttled function of an earlier drag left armed is not
    followed. *)
Inductive ThrottledFn : Type :=
| Stub                                   (* the initial empty function *)
| Direct                                 (* this.moveNodes *)
| Throttled (wait previous : Z) (timeout : bool) (args : option MoveArgs).

(** The private fields of [DragNode].  [originX]/[originY] are unset
    until the first drag; they are only read together with
    [originPositions], which is empty until then.  The last two fields
    are closures the behaviour has handed out: the once-only [mouseup]
    listeners on the document (each holding its [pointerdown] event), and
    the debounced completion callbacks of [onPointerUp] (each holding the
    [enableTransient] it captured and the positions [moveNodes] passes
    to it). *)
Record DragNode : Type := mkDragNode {
  options : Options;
  graph : Graph;
  hiddenEdges : list EdgeModel;
  hiddenRelatedNodes : list NodeModel;
  selectedNodeIds : list ID;
  hiddenNearEdges : list EdgeModel;
  hiddenComboTreeItems : list NodeModel;
  originX : Q;
  originY : Q;
  originPositions : list Position;
  pointerDown : option Point;
  dragging : bool;
  hiddenNearEdgesCache : list EdgeModel;
  hiddenShapeCache : gmap string (list string);
  throttledMoveNodes : ThrottledFn;
  mouseupListeners : list IG6GraphEvent;
  pendingCommits : list (bool * list Position)
}.

Definition new_DragNode (o : DragNodeOptions) (g : Graph) : DragNode :=
  {| options := constructor_options o;
     graph := g;
     hiddenEdges := [];
     hiddenRelatedNodes := [];
     selectedNodeIds := [];
     hiddenNearEdges := [];
     hiddenComboTreeItems := [];
     originX := 0;
     originY := 0;
     originPositions := [];
     pointerDown := None;
     dragging := false;
     hiddenNearEdgesCache := [];
     hiddenShapeCache := ∅;
     throttledMoveNodes := Stub;
     mouseupListeners := [];
     pendingCommits := [] |}.

Definition set_graph (v : Graph) (s : DragNode) : DragNode :=
  mkDragNode (options s) v (hiddenEdges s) (hiddenRelatedNodes s)
    (selectedNodeIds s) (hiddenNearEdges s) (hiddenComboTreeItems s)
    (originX s) (originY s) (originPositions s) (pointerDown s) (dragging s)
    (hiddenNearEdgesCache s) (hiddenShapeCache s) (throttledMoveNodes s)
    (mouseupListeners s) (pendingCommits s).

Definition set_hiddenEdges (v : list EdgeModel) (s : DragNode) : DragNode :=
  mkDragNode (options s) (graph s) v (hiddenRelatedNodes s)
    (selectedNodeIds s) (hiddenNearEdges s) (hiddenComboTreeItems s)
    (originX s) (originY s) (originPositions s) (pointerDown s) (dragging s)
    (hiddenNearEdgesCache s) (hiddenShapeCache s) (throttledMoveNodes s)
    (mouseupListeners s) (pendingCommits s).

Definition set_hiddenRelatedNodes (v : list NodeModel) (s : DragNode)
    : DragNode :=
  mkDragNode (options s) (graph s) (hiddenEdges s) v
    (selectedNodeIds s) (hiddenNearEdges s) (hiddenComboTreeItems s)
    (originX s) (originY s) (originPositions s) (pointerDown s) (dragging s)
    (hiddenNearEdgesCache s) (hiddenShapeCache s) (throttledMoveNodes s)
    (mouseupListeners s) (pendingCommits s).

Definition set_selectedNodeIds (v : list ID) (s : DragNode) : DragNode :=
  mkDragNode (options s) (graph s) (hiddenEdges s) (hiddenRelatedNodes s)
    v (hiddenNearEdges s) (hiddenComboTreeItems s)
    (originX s) (originY s) (originPositions s) (pointerDown s) (dragging s)
    (hiddenNearEdgesCache s) (hiddenShapeCache s) (throttledMoveNodes s)
    (mouseupListeners s) (pendingCommits s).

Definition set_hiddenNearEdges (v : list EdgeModel) (s : DragNode) : DragNode :=
  mkDragNode (options s) (graph s) (hiddenEdges s) (hiddenRelatedNodes s)
    (selectedNodeIds s) v (hiddenComboTreeItems s)
    (originX s) (originY s) (originPositions s) (pointerDown s) (dragging s)
    (hiddenNearEdgesCache s) (hiddenShapeCache s) (throttledMoveNodes s)
    (mouseupListeners s) (pendingCommits s).

Definition set_hiddenComboTreeItems (v : list NodeModel) (s : DragNode)
    : DragNode :=
  mkDragNode (options s) (graph s) (hiddenEdges s) (hiddenRelatedNodes s)
    (selectedNodeIds s) (hiddenNearEdges s) v
    (originX s) (originY s) (originPositions s) (pointerDown s) (dragging s)
    (hiddenNearEdgesCache s) (hiddenShapeCache s) (throttledMoveNodes s)
    (mouseupListeners s) (pendingCommits s).

Definition set_origin (vx vy : Q) (s : DragNode) : DragNode :=
  mkDragNode (options s) (graph s) (hiddenEdges s) (hiddenRelatedNodes s)
    (selectedNodeIds s) (hiddenNearEdges s) (hiddenComboTreeItems s)
    vx vy (originPositions s) (pointerDown s) (dragging s)
    (hiddenNearEdgesCache s) (hiddenShapeCache s) (throttledMoveNodes s)
    (mouseupListeners s) (pendingCommits s).

Definition set_originPositions (v : list Position) (s : DragNode) : DragNode :=
  mkDragNode (options s) (graph s) (hiddenEdges s) (hiddenRelatedNodes s)
    (selectedNodeIds s) (hiddenNearEdges s) (hiddenComboTreeItems s)
    (originX s) (originY s) v (pointerDown s) (dragging s)
    (hiddenNearEdgesCache s) (hiddenShapeCache s) (throttledMoveNodes s)
    (mouseupListeners s) (pendingCommits s).

Definition set_pointerDown (v : option Point) (s : DragNode) : DragNode :=
  mkDragNode (options s) (graph s) (hiddenEdges s) (hiddenRelatedNodes s)
    (selectedNodeIds s) (hiddenNearEdges s) (hiddenComboTreeItems s)
    (originX s) (originY s) (originPositions s) v (dragging s)
    (hiddenNearEdgesCache s) (hiddenShapeCache s) (throttledMoveNodes s)
    (mouseupListeners s) (pendingCommits s).

Definition set_dragging (v : bool) (s : DragNode) : DragNode :=
  mkDragNode (options s) (graph s) (hiddenEdges s) (hiddenRelatedNodes s)
    (selectedNodeIds s) (hiddenNearEdges s) (hiddenComboTreeItems s)
    (originX s) (originY s) (originPositions s) (pointerDown s) v
    (hiddenNearEdgesCache s) (hiddenShapeCache s) (throttledMoveNodes s)
    (mouseupListeners s) (pendingCommits s).

Definition set_hiddenNearEdgesCache (v : list EdgeModel) (s : DragNode)
    : DragNode :=
  mkDragNode (options s) (graph s) (hiddenEdges s) (hiddenRelatedNodes s)
    (selectedNodeIds s) (hiddenNearEdges s) (hiddenComboTreeItems s)
    (originX s) (originY s) (originPositions s) (pointerDown s) (dragging s)
    v (hiddenShapeCache s) (throttledMoveNodes s)
    (mouseupListeners s) (pendingCommits s).

Definition set_hiddenShapeCache (v : gmap string (list string)) (s : DragNode)
    : DragNode :=
  mkDragNode (options s) (graph s) (hiddenEdges s) (hiddenRelatedNodes s)
    (selectedNodeIds s) (hiddenNearEdges s) (hiddenComboTreeItems s)
    (originX s) (originY s) (originPositions s) (pointerDown s) (dragging s)
    (hiddenNearEdgesCache s) v (throttledMoveNodes s)
    (mouseupListeners s) (pendingCommits s).

Definition set_throttledMoveNodes (v : ThrottledFn) (s : DragNode) : DragNode :=
  mkDragNode (options s) (graph s) (hiddenEdges s) (hiddenRelatedNodes s)
    (selectedNodeIds s) (hiddenNearEdges s) (hiddenComboTreeItems s)
    (originX s) (originY s) (originPositions s) (pointerDown s) (dragging s)
    (hiddenNearEdgesCache s) (hiddenShapeCache s) v
    (mouseupListeners s) (pendingCommits s).

Definition set_mouseupListeners (v : list IG6GraphEvent) (s : DragNode)
    : DragNode :=
  mkDragNode (options s) (graph s) (hiddenEdges s) (hiddenRelatedNodes s)
    (selectedNodeIds s) (hiddenNearEdges s) (hiddenComboTreeItems s)
    (originX s) (originY s) (originPositions s) (pointerDown s) (dragging s)
    (hiddenNearEdgesCache s) (hiddenShapeCache s) (throttledMoveNodes s)
    v (pendingCommits s).

Definition set_pendingCommits (v : list (bool * list Position)) (s : DragNode)
    : DragNode :=
  mkDragNode (options s) (graph s) (hiddenEdges s) (hiddenRelatedNodes s)
    (selectedNodeIds s) (hiddenNearEdges s) (hiddenComboTreeItems s)
    (originX s) (originY s) (originPositions s) (pointerDown s) (dragging s)
    (hiddenNearEdgesCache s) (hiddenShapeCache s) (throttledMoveNodes s)
    (mouseupListeners s) v.

(** ** Handlers run in a state monad that can throw

    A handler either completes on a new state, or a [TypeError] (reading
    a property of [undefined]) ends it on the state reached so far. *)

Inductive Result (A : Type) : Type :=
| Ok (a : A) (s : DragNode)
| TypeError (s : DragNode).
Arguments Ok {A} a s.
Arguments TypeError {A} s.

Definition M (A : Type) : Type := DragNode -> Result A.

Global Instance M_ret : MRet M := fun A a s => Ok a s.

Global Instance M_bind : MBind M := fun A B f m s =>
  match m s with
  | Ok a s' => f a s'
  | TypeError s' => TypeError s'
  end.

Definition read {A : Type} (f : DragNode -> A) : M A := fun s => Ok (f s) s.
Definition modify (f : DragNode -> DragNode) : M unit := fun s => Ok tt (f s).
Definition throw {A : Type} : M A := fun s => TypeError s.

(** A call of a writing operation of [this.graph]. *)
Definition call (f : Graph -> Graph) : M unit :=
  modify (fun s => set_graph (f (graph s)) s).

(** [l.forEach(f)] *)
Fixpoint forEach {A : Type} (l : list A) (f : A -> M unit) : M unit :=
  match l with
  | [] => mret tt
  | a :: r => f a ;; forEach r f
  end.

(** The state a run ends on, however it ends. *)
Definition final {A : Type} (r : Result A) : DragNode :=
  match r with
  | Ok _ s => s
  | TypeError s => s
  end.

Definition completes {A : Type} (r : Result A) : bool :=
  match r with
  | Ok _ _ => true
  | TypeError _ => false
  end.

(** ** The behaviour *)

Definition DELEGATE_SHAPE_ID : ID := "g6-drag-node-delegate-shape".

(** The message of the warning of [onPointerMove]; the source writes it
    between single quotes, so the placeholder is logged as it stands. *)
Definition dquote : string :=
  String (Ascii.Ascii false true false false false true false false) EmptyString.

Definition missing_node_message : string :=
  "node with id = " +:+ dquote +:+ "${id}" +:+ dquote +:+ " does not exist".

(** [this.options.enableTransient && this.graph.rendererType !== 'webgl-3d'] *)
Definition transientEnabled (s : DragNode) : bool :=
  enableTransient (options s)
  && negb (String.eqb (rendererType (graph s)) "webgl-3d").

Definition getRelatedEdges (g : Graph) (selectedNodeIds : list ID)
    (relatedCombo : list NodeModel) : list EdgeModel :=
  let relatedNodeComboIds := graphComboTreeDfs g relatedCombo in
  uniq e_id
    (flat_map (getRelatedEdgesData g) (selectedNodeIds ++ relatedNodeComboIds)).

Definition getRelatedNodes (g : Graph) (selectedNodeIds : list ID)
    : list NodeModel :=
  flat_map
    (fun i =>
       List.filter (fun neighbor => negb (includes selectedNodeIds (n_id neighbor)))
         (getNeighborNodesData g i))
    selectedNodeIds.

Definition getNearEdgesForNodes (g : Graph) (nodeIds : list ID)
    (shouldBegin : EdgeModel -> bool) : list EdgeModel :=
  uniq e_id (flat_map (fun i => getNearEdgesData g i shouldBegin) nodeIds).

(** The [while (parentId)] loop of [getComboTreeItems].  Combos form a
    tree, so the chain above a node is no longer than the number of
    combos; the fuel given below is one more. *)
Fixpoint ancestorChain (g : Graph) (fuel : nat) (parentId : option ID)
    : list NodeModel :=
  match fuel with
  | O => []
  | S fuel' =>
      if truthy parentId then
        match getComboData g (default EmptyString parentId) with
        | None => []
        | Some parentData =>
            parentData :: ancestorChain g fuel' (d_parentId (n_data parentData))
        end
      else []
  end.

(** The ancestors the [forEach] of [getComboTreeItems] pushes; [None]
    when [nodeData] is [undefined] and reading [nodeData.data] throws. *)
Fixpoint collectAncestors (g : Graph) (ids : list ID)
    : option (list NodeModel) :=
  match ids with
  | [] => Some []
  | i :: r =>
      match getNodeData g i with
      | None => None
      | Some nodeData =>
          let mine :=
            if truthy (d_parentId (n_data nodeData))
            then ancestorChain g (S (size (combos g))) (d_parentId (n_data nodeData))
            else [] in
          match collectAncestors g r with
          | None => None
          | Some rest => Some (mine ++ rest)
          end
      end
  end.

Definition getComboTreeItems (selectedNodeIds : list ID) : M (list NodeModel) :=
  fun s =>
    if updateComboStructure (options s) then Ok [] s
    else
      match collectAncestors (graph s) selectedNodeIds with
      | None => TypeError s
      | Some ancestors =>
          Ok (List.filter (fun item => getItemVisible (graph s) (n_id item))
                (uniq n_id ancestors)) s
      end.

Definition onPointerDown (event : IG6GraphEvent) : M unit :=
  opts ← read options;
  if negb (shouldBegin opts event) then mret tt
  else
    modify (set_pointerDown (Some (mkPoint (px (ev_canvas event)) (py (ev_canvas event)))));;
    modify (set_dragging false);;
    call (record AddMouseupListener);;
    modify (fun s => set_mouseupListeners (mouseupListeners s ++ [event]) s).

(** The callback of [this.selectedNodeIds.map] in [onPointerMove]. *)
Definition originPosition (i : ID) : M (option Position) :=
  g ← read graph;
  opts ← read options;
  match getNodeData g i with
  | None => call (warn missing_node_message);; mret None
  | Some m =>
      let x := d_x (n_data m) in
      let y := d_y (n_data m) in
      match (if enableDelegate opts then getRenderBBox g i else None) with
      | Some bbox =>
          mret (Some (mkPosition i x y
                        (Some (fst (bb_min bbox))) (Some (fst (bb_max bbox)))
                        (Some (snd (bb_min bbox))) (Some (snd (bb_max bbox)))))
      | None => mret (Some (mkPosition i x y None None None None))
      end
  end.

(** [ids.map(originPosition).filter(Boolean)] *)
Fixpoint originPositionsOf (ids : list ID) : M (list Position) :=
  match ids with
  | [] => mret []
  | i :: r =>
      p ← originPosition i;
      ps ← originPositionsOf r;
      mret (option_list p ++ ps)
  end.

(** [ids.forEach((id) => this.hiddenShapeCache.set(id,
    this.graph.getItemVisibleShapeIds(id)))] *)
Definition cacheShapeIds (ids : list ID) : M unit :=
  forEach ids (fun i =>
    modify (fun s =>
      set_hiddenShapeCache
        (<[i := getItemVisibleShapeIds (graph s) i]> (hiddenShapeCache s)) s)).

Definition moveNodes (deltaX deltaY : Q) (transient upsertAncestors : bool)
    (callback : option bool) : M unit :=
  ps ← read originPositions;
  if transient then
    forEach ps (fun p =>
      call (drawTransient KNode (p_id p)
              (TMove (p_x p + deltaX) (p_y p + deltaY) upsertAncestors)));;
    es ← read hiddenEdges;
    forEach es (fun edge => call (drawTransient KEdge (e_id edge) (TDraw None)))
  else
    let positionChanges :=
      map (fun p => (p_id p, mkPoint (p_x p + deltaX) (p_y p + deltaY))) ps in
    let positions := ps in
    call (updateNodePosition positionChanges (Some upsertAncestors));;
    match callback with
    | Some captured =>
        modify (fun s =>
          set_pendingCommits (pendingCommits s ++ [(captured, positions)]) s)
    | None => mret tt
    end.

Definition runMoveNodes (a : MoveArgs) : M unit :=
  moveNodes (a_deltaX a) (a_deltaY a) (a_transient a) (a_upsertAncestors a) None.

(** A call of [this.throttledMoveNodes] at time [now]. *)
Definition callThrottledMoveNodes (now : Z) (a : MoveArgs) : M unit :=
  f ← read throttledMoveNodes;
  match f with
  | Stub => mret tt
  | Direct => runMoveNodes a
  | Throttled wait previous timeout _ =>
      let remaining := wait - (now - previous) in
      if (remaining <=? 0) || (wait <? remaining) then
        modify (set_throttledMoveNodes (Throttled wait now false None));;
        runMoveNodes a
      else
        modify (set_throttledMoveNodes (Throttled wait previous true (Some a)))
  end.

(** The trailing timer of the throttle fires at time [now]. *)
Definition onThrottleTimer (now : Z) : M unit :=
  f ← read throttledMoveNodes;
  match f with
  | Throttled wait _ true (Some a) =>
      modify (set_throttledMoveNodes (Throttled wait now false None));;
      runMoveNodes a
  | _ => mret tt
  end.

Definition moveDelegate (deltaX deltaY : Q) : M unit :=
  ps ← read originPositions;
  opts ← read options;
  let x1 := Math_min (map p_minX ps) in
  let y1 := Math_min (map p_minY ps) in
  let x2 := Math_max (map p_maxX ps) in
  let y2 := Math_max (map p_maxY ps) in
  call (drawTransient KRect DELEGATE_SHAPE_ID
          (TStyle (spread
                     [("x", SNum (num_add x1 (Fin deltaX)));
                      ("y", SNum (num_add y1 (Fin deltaY)));
                      ("width", SNum (num_sub x2 x1));
                      ("height", SNum (num_sub y2 y1))]
                     (delegateStyle opts)))).

Definition clearDelegate : M unit :=
  call (drawTransient KRect DELEGATE_SHAPE_ID TRemove).

Definition clearTransientItems (positions : list Position) : M unit :=
  es ← read hiddenEdges;
  forEach es (fun edge =>
    call (drawTransient KNode (e_source edge) TRemove);;
    call (drawTransient KNode (e_target edge) TRemove);;
    call (drawTransient KEdge (e_id edge) TRemove));;
  ns ← read hiddenNearEdges;
  forEach ns (fun edge => call (drawTransient KEdge (e_id edge) TRemove));;
  cs ← read hiddenComboTreeItems;
  forEach cs (fun item =>
    call (drawTransient (if d_isCombo (n_data item) then KCombo else KNode)
            (n_id item) TRemove));;
  forEach positions (fun p => call (drawTransient KNode (p_id p) TRemove)).

(** [this.graph.showItem(id, { disableAnimate: true, shapeIds:
    this.hiddenShapeCache.get(id) }); this.hiddenShapeCache.delete(id)] *)
Definition showCached (i : ID) : M unit :=
  cache ← read hiddenShapeCache;
  call (showItem i (cache !! i));;
  modify (fun s => set_hiddenShapeCache (delete i (hiddenShapeCache s)) s).

Definition restoreHiddenItems (positions : option (list Position)) : M unit :=
  es ← read hiddenEdges;
  (if negb (bool_decide (length es = 0%nat)) then
     forEach es (fun edge => showCached (e_id edge));;
     modify (set_hiddenEdges [])
   else mret tt);;
  ns ← read hiddenRelatedNodes;
  (if negb (bool_decide (length ns = 0%nat)) then
     forEach ns (fun node => showCached (n_id node));;
     modify (set_hiddenRelatedNodes [])
   else mret tt);;
  nes ← read hiddenNearEdges;
  (if negb (bool_decide (length nes = 0%nat)) then
     forEach nes (fun edge =>
       call (showItem (e_id edge) None);;
       modify (fun s => set_hiddenShapeCache (delete (e_id edge) (hiddenShapeCache s)) s));;
     modify (set_hiddenNearEdges [])
   else mret tt);;
  cs ← read hiddenComboTreeItems;
  (if negb (bool_decide (length cs = 0%nat)) then
     forEach cs (fun item => showCached (n_id item));;
     modify (set_hiddenComboTreeItems [])
   else mret tt);;
  transient ← read transientEnabled;
  if (transient : bool) then
    ps ← read originPositions;
    (* [concat(undefined)] appends one [undefined] element *)
    forEach (map Some ps ++ from_option (map Some) [None] positions)
      (fun pos =>
         match pos with
         | Some p => showCached (p_id p)
         | None => throw
         end)
  else mret tt.

Definition clearState : M unit := modify (set_originPositions []).

(** The block of [onPointerMove] under [if (!this.dragging)]. *)
Definition beginDrag (event : IG6GraphEvent) (transient : bool) : M unit :=
  modify (set_dragging true);;
  let currentNodeId := ev_itemId event in
  modify (fun s =>
    set_selectedNodeIds (findIdByState (graph s) (selectedState (options s))) s);;
  sel ← read selectedNodeIds;
  (if truthy currentNodeId && negb (includes sel (default EmptyString currentNodeId))
   then modify (set_selectedNodeIds [default EmptyString currentNodeId])
   else mret tt);;
  sel ← read selectedNodeIds;
  ps ← originPositionsOf sel;
  modify (set_originPositions ps);;
  opts ← read options;
  (* Hide related edge. *)
  (if hideRelatedEdges opts && negb transient then
     items ← getComboTreeItems sel;
     modify (set_hiddenComboTreeItems items);;
     modify (fun s =>
       set_hiddenEdges (getRelatedEdges (graph s) sel (hiddenComboTreeItems s)) s);;
     modify (fun s => set_hiddenRelatedNodes (getRelatedNodes (graph s) sel) s);;
     es ← read hiddenEdges;
     let hiddenEdgeIds := map e_id es in
     cacheShapeIds hiddenEdgeIds;;
     call (hideItem hiddenEdgeIds false);;
     ns ← read hiddenRelatedNodes;
     let hiddenRelatedNodeIds := map n_id ns in
     cacheShapeIds hiddenRelatedNodeIds;;
     call (hideItem hiddenRelatedNodeIds true);;
     cs ← read hiddenComboTreeItems;
     let hiddenComboTreeItemIds := map n_id cs in
     cacheShapeIds hiddenComboTreeItemIds;;
     call (hideItem (map n_id cs) false)
   else mret tt);;
  (* Draw transient nodes and edges. *)
  (if transient then
     items ← getComboTreeItems sel;
     modify (set_hiddenComboTreeItems items);;
     modify (fun s =>
       set_hiddenEdges (getRelatedEdges (graph s) sel (hiddenComboTreeItems s)) s);;
     modify (fun s => set_hiddenRelatedNodes (getRelatedNodes (graph s) sel) s);;
     forEach sel (fun nodeId =>
       call (drawTransient KNode nodeId
               (TDraw (Some (negb (updateComboStructure opts))))));;
     es ← read hiddenEdges;
     forEach es (fun edge => call (drawTransient KEdge (e_id edge) (TDraw None)));;
     (* Hide original edges and nodes. *)
     cacheShapeIds sel;;
     call (hideItem sel false);;
     let hiddenEdgeIds := map e_id es in
     cacheShapeIds hiddenEdgeIds;;
     call (hideItem hiddenEdgeIds false);;
     ns ← read hiddenRelatedNodes;
     let hiddenRelatedNodeIds := map n_id ns in
     cacheShapeIds hiddenRelatedNodeIds;;
     call (hideItem hiddenRelatedNodeIds true);;
     cs ← read hiddenComboTreeItems;
     let hiddenComboTreeItemIds := map n_id cs in
     cacheShapeIds hiddenComboTreeItemIds;;
     call (hideItem (map n_id cs) false)
   else call (frontItem sel));;
  (* Throttle moving. *)
  (if 0 <? throttle opts
   then modify (set_throttledMoveNodes (Throttled (throttle opts) 0 false None))
   else modify (set_throttledMoveNodes Direct));;
  modify (set_origin (px (ev_canvas event)) (py (ev_canvas event))).

(** The block of [onPointerMove] that follows nearby edges while nodes
    flagged [preventPolylineEdgeOverlap] are dragged. *)
Definition updateNearEdges : M unit :=
  g ← read graph;
  sel ← read selectedNodeIds;
  let preventPolylineOverlapNodeIds :=
    List.filter (fun nodeId => isPointPreventPolylineOverlap (getNodeData g nodeId))
      sel in
  if negb (bool_decide (length preventPolylineOverlapNodeIds = 0%nat)) then
    es ← read hiddenEdges;
    let hiddenEdgesIds := map e_id es in
    modify (fun s => set_hiddenNearEdgesCache (hiddenNearEdges s) s);;
    modify (fun s =>
      set_hiddenNearEdges
        (List.filter (fun edge => negb (includes hiddenEdgesIds (e_id edge)))
           (getNearEdgesForNodes (graph s) preventPolylineOverlapNodeIds
              isPolylineWithObstacleAvoidance)) s);;
    nes ← read hiddenNearEdges;
    let hiddenNearEdgesIds := map e_id nes in
    old ← read hiddenNearEdgesCache;
    forEach old (fun edge =>
      if negb (includes hiddenNearEdgesIds (e_id edge)) then
        call (drawTransient KEdge (e_id edge) TRemove);;
        call (showItem (e_id edge) None)
      else mret tt);;
    if negb (bool_decide (length nes = 0%nat)) then
      forEach nes (fun edge => call (drawTransient KEdge (e_id edge) TVisible));;
      let hiddenNearEdgeIds := map e_id nes in
      cacheShapeIds hiddenNearEdgeIds;;
      call (hideItem hiddenNearEdgeIds false)
    else mret tt
  else mret tt.

Definition onPointerMove (event : IG6GraphEvent) : M unit :=
  down ← read pointerDown;
  match down with
  | None => mret tt
  | Some pointerDown =>
      let beginDeltaX := Qabs (px pointerDown - px (ev_canvas event)) in
      let beginDeltaY := Qabs (py pointerDown - py (ev_canvas event)) in
      if Qltb beginDeltaX 1 && Qltb beginDeltaY 1 then mret tt
      else
        transient ← read transientEnabled;
        (* pointerDown + first move = dragging *)
        isDragging ← read dragging;
        (if (isDragging : bool) then mret tt else beginDrag event transient);;
        isDragging ← read dragging;
        (if (isDragging : bool) && transient then updateNearEdges else mret tt);;
        ps ← read originPositions;
        isDragging ← read dragging;
        if bool_decide (length ps = 0%nat) || negb isDragging then mret tt
        else
          ox ← read originX;
          oy ← read originY;
          let deltaX := (px (ev_canvas event) - ox)%Q in
          let deltaY := (py (ev_canvas event) - oy)%Q in
          opts ← read options;
          if enableDelegate opts then moveDelegate deltaX deltaY
          else
            transient ← read transientEnabled;
            callThrottledMoveNodes (ev_now event)
              (mkArgs deltaX deltaY transient (negb (updateComboStructure opts)))
  end.

Definition onPointerUp (event : IG6GraphEvent) : M unit :=
  modify (set_pointerDown None);;
  modify (set_dragging false);;
  modify (set_selectedNodeIds []);;
  transient ← read transientEnabled;
  ox ← read originX;
  oy ← read originY;
  let deltaX := (px (ev_canvas event) - ox + hundredth)%Q in
  let deltaY := (py (ev_canvas event) - oy + hundredth)%Q in
  moveNodes deltaX deltaY false true (Some transient).

(** The body of the debounced callback of [onPointerUp], with the
    [enableTransient] it captured and the positions it is called with. *)
Definition commitCallback (captured : bool) (positions : list Position)
    : M unit :=
  (if captured then clearTransientItems positions else mret tt);;
  opts ← read options;
  (if enableDelegate opts then clearDelegate else mret tt);;
  restoreHiddenItems (Some positions);;
  (if negb (String.eqb (eventName opts) EmptyString)
   then call (emit (eventName opts) (map p_id positions))
   else mret tt);;
  clearState.

(** The runtime reports the oldest position update as done and the
    debounce timer of its callback fires. *)
Definition onSettle : M unit :=
  pending ← read pendingCommits;
  match pending with
  | [] => mret tt
  | (captured, positions) :: rest =>
      modify (set_pendingCommits rest);;
      commitCallback captured positions
  end.

(** The once-only [mouseup] listener of the document runs: it calls
    [onPointerUp] with the [pointerdown] event it closed over. *)
Definition onDocumentMouseup : M unit :=
  ls ← read mouseupListeners;
  modify (set_mouseupListeners []);;
  forEach ls onPointerUp.

Definition onClick (event : IG6GraphEvent) : M unit :=
  onPointerUp event;;
  clearState.

Definition onKeydown (event : IG6GraphEvent) : M unit :=
  if negb (String.eqb (ev_key event) "Escape") && negb (String.eqb (ev_key event) "Esc")
  then mret tt
  else
    clearDelegate;;
    ps ← read originPositions;
    clearTransientItems ps;;
    restoreHiddenItems None;;
    transient ← read transientEnabled;
    opts ← read options;
    (* Restore node positions. *)
    (if negb transient && negb (enableDelegate opts) then
       ps ← read originPositions;
       let positionChanges := map (fun p => (p_id p, mkPoint (p_x p) (p_y p))) ps in
       call (updateNodePosition positionChanges None)
     else mret tt);;
    clearState.

(** [dropId] and the parent it stands for, as [onDropNode] and
    [onDropCanvas] compute them from the resolved hit test. *)
Definition dropParent (s : DragNode) (event : IG6GraphEvent) : option ID :=
  let draggingIds := map p_id (originPositions s) in
  let currentIds :=
    omap (fun o =>
            match o with
            | Some i => if includes draggingIds i then None else Some i
            | None => None
            end) (ev_hit event) in
  let dropId :=
    List.find (fun i => bool_decide (is_Some (getComboData (graph s) i))
                        || bool_decide (is_Some (getNodeData (graph s) i)))
      currentIds in
  match dropId with
  | Some i =>
      match getNodeData (graph s) i with
      | Some m => d_parentId (n_data m)
      | None => dropId
      end
  | None => None
  end.

Definition onDropNode (event : IG6GraphEvent) : M unit :=
  newParentId ← read (fun s => dropParent s event);
  ps ← read originPositions;
  forEach ps (fun p =>
    g ← read graph;
    match getNodeData g (p_id p) with
    | None => mret tt
    | Some model =>
        (* if the parents are same, do nothing *)
        if bool_decide (d_parentId (n_data model) = newParentId) then mret tt
        else call (updateData [(p_id p, newParentId)])
    end);;
  onPointerUp event.

Definition onDropCombo (event : IG6GraphEvent) : M unit :=
  call (record StopPropagation);;
  let newParentId := ev_itemId event in
  onPointerUp event;;
  ps ← read originPositions;
  forEach ps (fun p =>
    g ← read graph;
    match getNodeData g (p_id p) with
    | None => mret tt
    | Some model =>
        if bool_decide (d_parentId (n_data model) = newParentId) then mret tt
        else call (updateData [(p_id p, newParentId)])
    end);;
  clearState.

(** The [forEach] of [onDropCanvas] that fills [nodeToUpdate]; reading
    [.data] of a node the store does not hold throws. *)
Fixpoint nodesToUpdate (g : Graph) (parentId : option ID) (ps : list Position)
    : option (list (ID * option ID)) :=
  match ps with
  | [] => Some []
  | p :: r =>
      match getNodeData g (p_id p) with
      | None => None
      | Some model =>
          let originParentId := d_parentId (n_data model) in
          let mine :=
            if truthy parentId && negb (bool_decide (originParentId = parentId))
            then [(p_id p, parentId)]
            else if negb (truthy originParentId) then []
            else [(p_id p, None)] in
          match nodesToUpdate g parentId r with
          | None => None
          | Some rest => Some (mine ++ rest)
          end
      end
  end.

Definition onDropCanvas (event : IG6GraphEvent) : M unit :=
  parentId ← read (fun s => dropParent s event);
  onPointerUp event;;
  ps ← read originPositions;
  g ← read graph;
  match nodesToUpdate g parentId ps with
  | None => throw
  | Some nodeToUpdate =>
      (if negb (bool_decide (length nodeToUpdate = 0%nat))
       then call (updateData nodeToUpdate)
       else mret tt);;
      clearState
  end.

(** ** Event registration and dispatch *)

Inductive Handler : Type :=
| HPointerDown | HPointerMove | HClick | HPointerUp | HKeydown
| HDropNode | HDropCombo | HDropCanvas.

Definition getEvents (opts : Options) : list (string * Handler) :=
  let events :=
    [("node:pointerdown", HPointerDown);
     ("pointermove", HPointerMove);
     ("click", HClick);
     ("node:pointerup", HPointerUp);
     ("keydown", HKeydown)] in
  if updateComboStructure opts then
    [("node:drop", HDropNode); ("combo:drop", HDropCombo);
     ("canvas:drop", HDropCanvas)] ++ events
  else
    [("pointerup", HClick)] ++ events.

Definition handle (h : Handler) (event : IG6GraphEvent) : M unit :=
  match h with
  | HPointerDown => onPointerDown event
  | HPointerMove => onPointerMove event
  | HClick => onClick event
  | HPointerUp => onPointerUp event
  | HKeydown => onKeydown event
  | HDropNode => onDropNode event
  | HDropCombo => onDropCombo event
  | HDropCanvas => onDropCanvas event
  end.

(** What can happen to the behaviour: the runtime dispatches a named
    event to the handlers registered for it, or one of the callbacks the
    behaviour has handed out is run. *)
Inductive Input : Type :=
| Dispatch (name : string) (event : IG6GraphEvent)
| DocumentMouseup
| ThrottleTimer (now : Z)
| Settle.

Definition handlersFor (opts : Options) (name : string) : list Handler :=
  map snd (List.filter (fun e => String.eqb (fst e) name) (getEvents opts)).

Definition step (i : Input) : M unit :=
  match i with
  | Dispatch name event =>
      opts ← read options;
      forEach (handlersFor opts name) (fun h => handle h event)
  | DocumentMouseup => onDocumentMouseup
  | ThrottleTimer now => onThrottleTimer now
  | Settle => onSettle
  end.

(** A sequence of inputs; a handler that throws loses the rest of its
    own work only, the next input is handled on the state it left. *)
Fixpoint run (inputs : list Input) (s : DragNode) : DragNode :=
  match inputs with
  | [] => s
  | i :: r => run r (final (step i s))
  end.

(** ** Polyline edges *)

Module Polyline.

(** [RouterCfg]; [name] is ['orth'] or ['er']. *)
Record RouterCfg : Type := mkRouterCfg {
  rc_name : option string;
  rc_offset : option Q;
  rc_obstacleAvoidance : option bool
}.

(** [keyShapeStyle] of [this.mergedStyles], as far as [drawKeyShape]
    reads it. *)
Record KeyShapeStyle : Type := mkKeyShapeStyle {
  ks_controlPoints : option (list Point);
  ks_radius : Q;
  ks_offset : option Q;
  ks_routeCfg : option RouterCfg
}.

Record EdgeDisplayModel : Type := mkEdgeDisplayModel {
  m_id : ID;
  m_source : ID;
  m_target : ID
}.

(** [isEmpty] of @antv/util on [Point[] | undefined]. *)
Definition isEmpty (controlPoints : option (list Point)) : bool :=
  match controlPoints with
  | None => true
  | Some [] => true
  | Some (_ :: _) => false
  end.

(** [mix({}, { offset, name: 'orth' }, routeCfg)]: properties of the
    later object that are not [undefined] win. *)
Definition mix (offset : option Q) (routeCfg : option RouterCfg) : RouterCfg :=
  match routeCfg with
  | None => mkRouterCfg (Some "orth") offset None
  | Some c =>
      mkRouterCfg
        (match rc_name c with Some n => Some n | None => Some "orth" end)
        (match rc_offset c with Some o => Some o | None => offset end)
        (rc_obstacleAvoidance c)
  end.

(** The calls into utils/polyline and utils/router one [getPath] makes. *)
Inductive Call : Type :=
| CallPathFinder (points : list Point) (sourceNodeId targetNodeId : ID)
    (routeCfg : RouterCfg)
| CallGetPolylinePath (edgeId : ID) (points : list Point) (radius : Q).

Section WithUtils.

(** [getPolylinePath] of utils/polyline and [pathFinder] of
    utils/router are not part of the sources; [NodeMap] is the type
    of [this.nodeMap]. *)
Variable Path : Type.
Variable NodeMap : Type.
Variable getPolylinePath : ID -> list Point -> Q -> Path.
Variable pathFinder :
  list Point -> ID -> ID -> NodeMap -> RouterCfg -> list Point.

Definition getPath (nodeMap : NodeMap) (model : EdgeDisplayModel)
    (points : list Point) (radius : Q) (routeCfg : RouterCfg) (auto : bool)
    : Path * list Call :=
  let edgeId := m_id model in
  let sourceNodeId := m_source model in
  let targetNodeId := m_target model in
  (* Draw a polyline with control points *)
  if negb auto
     && negb (bool_decide (rc_name routeCfg = Some "er"))
  then (getPolylinePath edgeId points radius,
        [CallGetPolylinePath edgeId points radius])
  else
    (* Find the shortest path computed by A* routing algorithm *)
    let polylinePoints :=
      pathFinder points sourceNodeId targetNodeId nodeMap routeCfg in
    (getPolylinePath edgeId polylinePoints radius,
     [CallPathFinder points sourceNodeId targetNodeId routeCfg;
      CallGetPolylinePath edgeId polylinePoints radius]).

(** The part of [drawKeyShape] that computes [path]. *)
Definition keyShapePath (nodeMap : NodeMap) (keyShapeStyle : KeyShapeStyle)
    (model : EdgeDisplayModel) (sourcePoint targetPoint : Point)
    : Path * list Call :=
  let controlPoints := ks_controlPoints keyShapeStyle in
  let points :=
    match controlPoints with
    | Some cps => [sourcePoint] ++ cps ++ [targetPoint]
    | None => [sourcePoint; targetPoint]
    end in
  let routeCfg := mix (ks_offset keyShapeStyle) (ks_routeCfg keyShapeStyle) in
  getPath nodeMap model points (ks_radius keyShapeStyle) routeCfg
    (isEmpty controlPoints).

End WithUtils.

End Polyline.

(** * Specification vocabulary *)

(** What holds of the outcome of a run: [Q] of the value and state it
    completes on, [E] of the state a [TypeError] leaves. *)
Definition post {A : Type} (r : Result A) (Q : A -> DragNode -> Prop)
    (E : DragNode -> Prop) : Prop :=
  match r with
  | Ok a s => Q a s
  | TypeError s => E s
  end.

(** [m] keeps the invariant [I]; a [TypeError] leaves a state in [E]. *)
Definition keeps (E I : DragNode -> Prop) {A : Type} (m : M A) : Prop :=
  forall s, I s -> post (m s) (fun _ => I) E.

(** [updateComboStructure] is on and no combo-tree item is held. *)
Definition no_combo_held (s : DragNode) : Prop :=
  updateComboStructure (options s) = true /\ hiddenComboTreeItems s = [].

(** The snapshot of a drag gives one position per id. *)
Definition coherent (ps : list Position) : Prop :=
  forall p q, p ∈ ps -> q ∈ ps -> p_id p = p_id q ->
    p_x p = p_x q /\ p_y p = p_y q.

(** Every position of [ps] is that of its node in [store]. *)
Definition snapshot_of (store : gmap string ModelData) (ps : list Position) : Prop :=
  forall p, p ∈ ps ->
    exists d, store !! p_id p = Some d /\ p_x p = d_x d /\ p_y p = d_y d.

(** The behaviour was constructed with the options [o] and its snapshot
    gives one position per id. *)
Definition well_formed (o : DragNodeOptions) (s : DragNode) : Prop :=
  options s = constructor_options o /\ coherent (originPositions s).

Definition is_emit (e : Effect) : bool :=
  match e with
  | Emit _ _ => true
  | _ => false
  end.

Definition is_show (e : Effect) : bool :=
  match e with
  | ShowItem _ _ => true
  | _ => false
  end.

Definition is_updateData (e : Effect) : bool :=
  match e with
  | UpdateData _ => true
  | _ => false
  end.

(** What clearing transients and showing items does to a graph: the
    transients [ts] are gone and the items [keys] are no longer hidden;
    nothing else that was gone or shown comes back; the nodes, the
    renderer and the emitted events are as before. *)
Definition tidied (ts : list (ItemKind * ID)) (keys : list ID)
    (g g' : Graph) : Prop :=
  rendererType g' = rendererType g /\
  nodes g' = nodes g /\
  List.filter is_emit (log g') = List.filter is_emit (log g) /\
  (forall t, t ∉ transients g -> t ∉ transients g') /\
  (forall i, i ∉ hiddenItems g -> i ∉ hiddenItems g') /\
  (forall t, t ∈ ts -> t ∉ transients g') /\
  (forall i, i ∈ keys -> i ∉ hiddenItems g').

(** The ids of everything the behaviour holds hidden. *)
Definition hiddenIds (s : DragNode) : list ID :=
  map e_id (hiddenEdges s) ++ map n_id (hiddenRelatedNodes s)
  ++ map e_id (hiddenNearEdges s) ++ map n_id (hiddenComboTreeItems s).

(** [restoreHiddenItems] has run from [s] to [s']. *)
Definition restored (s s' : DragNode) : Prop :=
  options s' = options s /\
  originPositions s' = originPositions s /\
  hiddenEdges s' = [] /\ hiddenRelatedNodes s' = [] /\
  hiddenNearEdges s' = [] /\ hiddenComboTreeItems s' = [] /\
  tidied [] (hiddenIds s) (graph s) (graph s').

(** The transient primitives [clearTransientItems] removes. *)
Definition transientTargets (s : DragNode) (positions : list Position)
    : list (ItemKind * ID) :=
  flat_map (fun edge => [(KNode, e_source edge); (KNode, e_target edge);
                          (KEdge, e_id edge)]) (hiddenEdges s)
  ++ flat_map (fun edge => [(KEdge, e_id edge)]) (hiddenNearEdges s)
  ++ flat_map (fun item => [(if d_isCombo (n_data item) then KCombo else KNode,
                             n_id item)]) (hiddenComboTreeItems s)
  ++ flat_map (fun p => [(KNode, p_id p)]) positions.

(** The effects a frame of a delegate drag may issue. *)
Definition delegate_frame_effect (e : Effect) : Prop :=
  match e with
  | Warn _ | FrontItem _ => True
  | DrawTransient KRect i (TStyle _) => i = DELEGATE_SHAPE_ID
  | _ => False
  end.

(** The position changes [onPointerUp] commits. *)
Definition committed (event : IG6GraphEvent) (s : DragNode) : list (ID * Point) :=
  map (fun p =>
         (p_id p,
          mkPoint (p_x p + (px (ev_canvas event) - originX s + hundredth))
                  (p_y p + (py (ev_canvas event) - originY s + hundredth))))
    (originPositions s).

(** The position changes a live call [a] of [moveNodes] writes: the
    snapshot plus the delta the call was made with. *)
Definition heldBack (a : MoveArgs) (s : DragNode) : list (ID * Point) :=
  map (fun p => (p_id p, mkPoint (p_x p + a_deltaX a) (p_y p + a_deltaY a)))
    (originPositions s).

(** The node data of the graph are [store]. *)
Definition nodes_are (store : gmap string ModelData) (s : DragNode) : Prop :=
  nodes (graph s) = store.

(** The log of [g] is the log of [g0] followed by effects in [P]. *)
Definition log_extends (P : Effect -> Prop) (g0 g : Graph) : Prop :=
  exists suffix, log g = log g0 ++ suffix /\ Forall P suffix.


(** A frame of a delegate drag that began in [s0] has reached [s]; [d]
    says that the drag is known to be under way. *)
Definition delegate_frame (s0 : DragNode) (d : bool) (s : DragNode) : Prop :=
  options s = options s0 /\
  rendererType (graph s) = rendererType (graph s0) /\
  nodes (graph s) = nodes (graph s0) /\
  visibleShapeIds (graph s) = visibleShapeIds (graph s0) /\
  hiddenItems (graph s) = hiddenItems (graph s0) /\
  log_extends delegate_frame_effect (graph s0) (graph s) /\
  (d = true -> dragging s = true).

(** The move from [pointerDown] to the event passes the threshold of
    [onPointerMove]. *)
Definition passes_threshold (pd : Point) (event : IG6GraphEvent) : Prop :=
  Qltb (Qabs (px pd - px (ev_canvas event))) 1
  && Qltb (Qabs (py pd - py (ev_canvas event))) 1 = false.






(** The parent of a node, if the store holds the node. *)
Definition parent_of (g : Graph) (i : ID) : option (option ID) :=
  d_parentId <$> nodes g !! i.

(** The loop of a drop handler has run from [g] to [g'] with the new
    parent [c] for the nodes [ids]: nodes with that parent keep it, the
    listed nodes have it, the other nodes keep theirs, and the log grew
    by data updates only, one of them for each listed node whose parent
    differed. *)
Definition adopted (c : option ID) (ids : list ID) (g g' : Graph) : Prop :=
  (forall i, parent_of g i = Some c -> parent_of g' i = Some c) /\
  (forall i, i ∈ ids -> is_Some (nodes g !! i) -> parent_of g' i = Some c) /\
  (forall i, is_Some (nodes g' !! i) <-> is_Some (nodes g !! i)) /\
  (forall i, i ∉ ids -> parent_of g' i = parent_of g i) /\
  exists updates,
    log g' = log g ++ updates /\
    Forall (fun e => is_updateData e = true) updates /\
    (forall i, i ∈ ids -> is_Some (nodes g !! i) -> parent_of g i <> Some c ->
               UpdateData [(i, c)] ∈ updates).

(** The body of the [forEach] of [onDropNode] and [onDropCombo]. *)
Definition adopt (newParentId : option ID) (p : Position) : M unit :=
  g ← read graph;
  match getNodeData g (p_id p) with
  | None => mret tt
  | Some model =>
      if bool_decide (d_parentId (n_data model) = newParentId) then mret tt
      else call (updateData [(p_id p, newParentId)])
  end.

(** [updateComboStructure] is off and every node has the parent it has
    in [g0]. *)
Definition parents_kept (g0 : Graph) (s : DragNode) : Prop :=
  updateComboStructure (options s) = false /\
  forall i, parent_of (graph s) i = parent_of g0 i.

(** ** The graph of the demo *)

Module Demo.

Definition plain (x y : Q) : ModelData := mkData x y None false false.

Definition box (x1 y1 x2 y2 : Q) : BBox := mkBBox (x1, y1) (x2, y2).

Definition a2b : EdgeModel := mkEdge "a2b" "a" "b" false.
Definition a2c : EdgeModel := mkEdge "a2c" "a" "c" false.
Definition b2c : EdgeModel := mkEdge "b2c" "b" "c" true.

(** Nodes [a], [b], [c] and edges [a2b], [a2c] of the demo data, and a
    combo [c1].  Every item has a key shape and a label; only the key
    shapes are visible. *)
Definition demo_graph : Graph :=
  {| rendererType := "canvas";
     findIdByState := fun _ => [];
     getRelatedEdgesData := fun i =>
       if String.eqb i "a" then [a2b; a2c]
       else if String.eqb i "b" then [a2b]
       else if String.eqb i "c" then [a2c]
       else [];
     getNeighborNodesData := fun i =>
       if String.eqb i "a"
       then [mkNode "b" (plain 100 200); mkNode "c" (plain 300 200)]
       else if String.eqb i "b" then [mkNode "a" (plain 200 100)]
       else if String.eqb i "c" then [mkNode "a" (plain 200 100)]
       else [];
     nearEdgesOracle := fun _ _ => [];
     getRenderBBox := fun i =>
       if String.eqb i "a" then Some (box 190 90 210 110)
       else if String.eqb i "b" then Some (box 90 190 110 210)
       else if String.eqb i "c" then Some (box 290 190 310 210)
       else None;
     graphComboTreeDfs := fun _ => [];
     shapeMap := fun _ => ["keyShape"; "labelShape"];
     nodes :=
       <["a" := plain 200 100]>
         (<["b" := plain 100 200]> (<["c" := plain 300 200]> ∅));
     combos := <["c1" := mkData 0 0 None true false]> ∅;
     visibleShapeIds :=
       <["a" := ["keyShape"]]>
         (<["b" := ["keyShape"]]>
            (<["c" := ["keyShape"]]>
               (<["a2b" := ["keyShape"]]>
                  (<["a2c" := ["keyShape"]]> (<["b2c" := ["keyShape"]]> ∅)))));
     hiddenItems := [];
     transients := [];
     log := [] |}.

(** The same graph with an avoiding edge [b2c] that is near [a], and
    [a] flagged to keep polylines off it. *)
Definition crowded_graph : Graph :=
  {| rendererType := "canvas";
     findIdByState := findIdByState demo_graph;
     getRelatedEdgesData := getRelatedEdgesData demo_graph;
     getNeighborNodesData := getNeighborNodesData demo_graph;
     nearEdgesOracle := fun _ i => if String.eqb i "a" then [b2c] else [];
     getRenderBBox := getRenderBBox demo_graph;
     graphComboTreeDfs := graphComboTreeDfs demo_graph;
     shapeMap := shapeMap demo_graph;
     nodes := <["a" := mkData 200 100 None false true]> (nodes demo_graph);
     combos := combos demo_graph;
     visibleShapeIds := visibleShapeIds demo_graph;
     hiddenItems := [];
     transients := [];
     log := [] |}.

(** The application removes a node: [graph.removeData('node', id)]. *)
Definition removeData (i : ID) (g : Graph) : Graph :=
  with_store g (delete i (nodes g)) (visibleShapeIds g) (hiddenItems g)
    (transients g) (log g).

Definition pointer (x y : Q) (item : option ID) (now : Z) : IG6GraphEvent :=
  mkEvent (mkPoint x y) item EmptyString [] now.

Definition escape : IG6GraphEvent :=
  mkEvent (mkPoint 0 0) None "Escape" [] 0.

(** [{ enableTransient: false, throttle: 0, eventName: 'dragend' }] *)
Definition live_options : DragNodeOptions :=
  mkPartial (Some false) None None (Some 0) None None (Some "dragend") None None.

(** [{ eventName: 'dragend' }]: the defaults, transient drawing on. *)
Definition transient_options : DragNodeOptions :=
  mkPartial None None None None None None (Some "dragend") None None.

(** Press on [a], drag by (50, -30) from the first move, release, and
    let the commit settle. *)
Definition drag_a : list Input :=
  [Dispatch "node:pointerdown" (pointer 200 100 (Some "a") 1000);
   Dispatch "pointermove" (pointer 202 100 (Some "a") 1010);
   Dispatch "pointermove" (pointer 230 90 (Some "a") 1020);
   Dispatch "node:pointerup" (pointer 252 70 (Some "a") 1030);
   Settle].

(** [{ enableTransient: false, throttle: 16, eventName: 'dragend' }] *)
Definition throttled_options : DragNodeOptions :=
  mkPartial (Some false) None None (Some 16) None None (Some "dragend") None None.

(** [{ enableTransient: false, hideRelatedEdges: true, throttle: 0 }] *)
Definition hiding_options : DragNodeOptions :=
  mkPartial (Some false) None None (Some 0) (Some true) None None None None.

(** [{ enableDelegate: true, hideRelatedEdges: true }] *)
Definition delegate_options : DragNodeOptions :=
  mkPartial None (Some true) None None (Some true) None None None None.

(** [{ enableTransient: true, enableDelegate: true, hideRelatedEdges: true }] *)
Definition delegate_with_hidden_edges : DragNodeOptions :=
  mkPartial (Some true) (Some true) None None (Some true) None None None None.

(** Press on [a] and move twice. *)
Definition start_dragging_a : list Input :=
  [Dispatch "node:pointerdown" (pointer 200 100 (Some "a") 1000);
   Dispatch "pointermove" (pointer 202 100 (Some "a") 1010);
   Dispatch "pointermove" (pointer 230 90 (Some "a") 1015)].

(** Press on [a], move twice, release 5 ms after the second move; the
    trailing timer of the throttle fires, then the commit settles. *)
Definition release_inside_the_window : list Input :=
  start_dragging_a
  ++ [Dispatch "node:pointerup" (pointer 252 70 (Some "a") 1020);
      ThrottleTimer 1026;
      Settle].

(** The defaults with [updateComboStructure: false]. *)
Definition resize_only_options : DragNodeOptions :=
  mkPartial None None None None None None None (Some false) None.

(** [a] is being dragged (live, the first frame is done) when the
    application removes it from the graph. *)
Definition a_removed_mid_drag : DragNode :=
  let mid :=
    run [Dispatch "node:pointerdown" (pointer 200 100 (Some "a") 1000);
         Dispatch "pointermove" (pointer 202 100 (Some "a") 1010)]
      (new_DragNode live_options demo_graph) in
  set_graph (removeData "a" (graph mid)) mid.

End Demo.

(** The behaviour of the demo, pressed on [a] and not yet dragging. *)
Definition armed (g : Graph) (d : ModelData) (pd : Point) (s : DragNode) : Prop :=
  options s = constructor_options Demo.live_options /\
  dragging s = false /\
  pointerDown s = Some pd /\
  nodes (graph s) !! "a" = Some d /\
  findIdByState (graph s) = findIdByState g /\
  pendingCommits s = [] /\
  hiddenEdges s = [] /\ hiddenRelatedNodes s = [] /\
  hiddenNearEdges s = [] /\ hiddenComboTreeItems s = [].

(** The behaviour of the demo while [a] alone is dragged live from
    ([x], [y]), the first move having been [first]. *)
Definition dragging_a (first : IG6GraphEvent) (x y : Q) (s : DragNode) : Prop :=
  options s = constructor_options Demo.live_options /\
  dragging s = true /\
  originPositions s = [mkPosition "a" x y None None None None] /\
  originX s = px (ev_canvas first) /\
  originY s = py (ev_canvas first) /\
  is_Some (nodes (graph s) !! "a") /\
  pendingCommits s = [] /\
  hiddenEdges s = [] /\ hiddenRelatedNodes s = [] /\
  hiddenNearEdges s = [] /\ hiddenComboTreeItems s = [] /\
  throttledMoveNodes s = Direct.

(** ** Vocabulary of the further properties *)

(** [restoreHiddenItems] has shown what the behaviour held hidden and
    the dragged nodes, and stopped from [s] on [s']. *)
Definition restore_cut_short (s s' : DragNode) : Prop :=
  options s' = options s /\
  originPositions s' = originPositions s /\
  pointerDown s' = pointerDown s /\ dragging s' = dragging s /\
  hiddenEdges s' = [] /\ hiddenRelatedNodes s' = [] /\
  hiddenNearEdges s' = [] /\ hiddenComboTreeItems s' = [] /\
  tidied [] (hiddenIds s ++ map p_id (originPositions s)) (graph s) (graph s').

(** The positions a live frame writes: the snapshot plus the delta of
    the pointer from the first move. *)
Definition tracked (event : IG6GraphEvent) (s : DragNode) : list (ID * Point) :=
  map (fun p =>
         (p_id p,
          mkPoint (p_x p + (px (ev_canvas event) - originX s))
                  (p_y p + (py (ev_canvas event) - originY s))))
    (originPositions s).

(** The log after a pointer-up on [s] and the run of its completion
    callback, when nothing is dragged or hidden. *)
Definition idle_release_log (s : DragNode) : list Effect :=
  log (graph s) ++ [UpdateNodePosition [] (Some true)]
  ++ (if enableDelegate (options s)
      then [DrawTransient KRect DELEGATE_SHAPE_ID TRemove] else [])
  ++ (if String.eqb (eventName (options s)) EmptyString
      then [] else [Emit (eventName (options s)) []]).

(** The arguments a trailing throttled call holds ask for a transient
    move. *)
Definition pending_transient (f : ThrottledFn) : Prop :=
  match f with
  | Throttled _ _ _ (Some a) => a_transient a = true
  | _ => True
  end.

(** Transient drawing is on and the nodes of the store are [store]. *)
Definition nodes_untouched (store : gmap string ModelData) (s : DragNode) : Prop :=
  transientEnabled s = true /\ nodes (graph s) = store /\
  pending_transient (throttledMoveNodes s).

(** The inputs of a gesture before its release: presses, moves, keys
    and the trailing timer of the throttle. *)
Definition before_release (i : Input) : bool :=
  match i with
  | Dispatch name _ =>
      bool_decide (name ∈ ["node:pointerdown"; "pointermove"; "keydown"])
  | ThrottleTimer _ => true
  | _ => false
  end.

(** [e] is no event, or the event [name], which is not the empty
    string. *)
Definition named_event (name : string) (e : Effect) : Prop :=
  match e with
  | Emit n _ => n = name /\ n <> EmptyString
  | _ => True
  end.

(** The behaviour was constructed with [o] on the graph [g0], and what
    it has emitted since carries the configured event name. *)
Definition emits_as_configured (o : DragNodeOptions) (g0 : Graph) (s : DragNode)
    : Prop :=
  options s = constructor_options o /\
  log_extends (named_event (eventName (constructor_options o))) g0 (graph s).

(** [shouldBegin] refuses every press, nothing is pressed, dragged or
    held hidden, every completion callback handed out holds no position,
    and the nodes and the visibility of the items are those of [g0]. *)
Definition never_armed (g0 : Graph) (s : DragNode) : Prop :=
  (forall ev, shouldBegin (options s) ev = false) /\
  pointerDown s = None /\ dragging s = false /\
  originPositions s = [] /\
  hiddenEdges s = [] /\ hiddenRelatedNodes s = [] /\
  hiddenNearEdges s = [] /\ hiddenComboTreeItems s = [] /\
  Forall (fun c => snd c = []) (pendingCommits s) /\
  nodes (graph s) = nodes g0 /\
  hiddenItems (graph s) = hiddenItems g0 /\
  visibleShapeIds (graph s) = visibleShapeIds g0.

(** A resolved hit the drop handlers pass over: no item, an item that is
    being dragged, or an id the graph holds neither as a combo nor as a
    node. *)
Definition passed_over (s : DragNode) (hit : option ID) : Prop :=
  match hit with
  | None => True
  | Some j =>
      j ∈ map p_id (originPositions s) \/
      (nodes (graph s) !! j = None /\ combos (graph s) !! j = None)
  end.

(** The parent [onDropCanvas] leaves a dragged node with, from the
    parent [c] its drop target stands for and the parent [origin] the
    node had. *)
Definition canvasParent (c origin : option ID) : option ID :=
  if truthy c && negb (bool_decide (origin = c)) then c
  else if negb (truthy origin) then origin
  else None.

(** What [onDropCanvas] pushes to [nodeToUpdate] for a node with the
    parent [origin]. *)
Definition canvasUpdate (c origin : option ID) : option (option ID) :=
  if truthy c && negb (bool_decide (origin = c)) then Some c
  else if negb (truthy origin) then None
  else Some None.

(** The node ids of a drag that begins in [s] with the move [event]:
    the selected nodes when the node under the pointer is one of them or
    the event has no item, that node alone otherwise. *)
Definition dragSelection (s : DragNode) (event : IG6GraphEvent) : list ID :=
  let selected := findIdByState (graph s) (selectedState (options s)) in
  match ev_itemId event with
  | Some i =>
      if truthy (Some i) && negb (includes selected i) then [i] else selected
  | None => selected
  end.

(** The first frame has set the selection [sel] and the snapshot [ps],
    and the nodes are those of [store]. *)
Definition drag_begun (sel : list ID) (ps : list Position)
    (store : gmap string ModelData) (s : DragNode) : Prop :=
  selectedNodeIds s = sel /\ originPositions s = ps /\ dragging s = true /\
  nodes (graph s) = store.

(** The shows [restoreHiddenItems] issues from [s] when transient drawing
    is off: the related edges, the related nodes and the combo-tree items
    with the shape ids cached for them, the near edges without shape
    ids. *)
Definition restoredShows (s : DragNode) : list Effect :=
  map (fun e => ShowItem (e_id e) (hiddenShapeCache s !! e_id e)) (hiddenEdges s)
  ++ map (fun n => ShowItem (n_id n) (hiddenShapeCache s !! n_id n))
       (hiddenRelatedNodes s)
  ++ map (fun e => ShowItem (e_id e) None) (hiddenNearEdges s)
  ++ map (fun n => ShowItem (n_id n) (hiddenShapeCache s !! n_id n))
       (hiddenComboTreeItems s).

(** From [s] to [s'] the shows [shows] were issued for the items [ids],
    whose cache entries are gone; the other entries are kept. *)
Definition shown_by (ids : list ID) (shows : list Effect) (s s' : DragNode) : Prop :=
  transientEnabled s' = transientEnabled s /\
  log (graph s') = log (graph s) ++ shows /\
  (forall i, i ∉ ids -> hiddenShapeCache s' !! i = hiddenShapeCache s !! i) /\
  (forall i, i ∈ ids -> hiddenShapeCache s' !! i = None).

(** [g'] is [g] with [n] more warnings logged. *)
Definition warned (n : nat) (g : Graph) : Graph :=
  Nat.iter n (warn missing_node_message) g.

(** The selected nodes flagged to keep polylines off them, and the edges
    [updateNearEdges] takes as near them: obstacle-avoiding edges near a
    flagged node that are not held as related edges. *)
Definition flaggedNodes (s : DragNode) : list ID :=
  List.filter (fun i => isPointPreventPolylineOverlap (getNodeData (graph s) i))
    (selectedNodeIds s).

Definition nearEdges (s : DragNode) : list EdgeModel :=
  List.filter (fun e => negb (includes (map e_id (hiddenEdges s)) (e_id e)))
    (getNearEdgesForNodes (graph s) (flaggedNodes s)
       isPolylineWithObstacleAvoidance).

(** ** Further cases of the demo *)

Module Cases.

(** [{ shouldBegin: () => false }] *)
Definition refusing_options : DragNodeOptions :=
  mkPartial None None None None None None None None (Some (fun _ => false)).

(** The graph of the demo with [b] inside the combo [c1]. *)
Definition nested_graph : Graph :=
  with_store Demo.demo_graph
    (<["b" := mkData 100 200 (Some "c1") false false]> (nodes Demo.demo_graph))
    (visibleShapeIds Demo.demo_graph) [] [] [].

(** The graph of the demo when the runtime has no bounding box yet. *)
Definition boxless_graph : Graph :=
  {| rendererType := "canvas";
     findIdByState := findIdByState Demo.demo_graph;
     getRelatedEdgesData := getRelatedEdgesData Demo.demo_graph;
     getNeighborNodesData := getNeighborNodesData Demo.demo_graph;
     nearEdgesOracle := nearEdgesOracle Demo.demo_graph;
     getRenderBBox := fun _ => None;
     graphComboTreeDfs := graphComboTreeDfs Demo.demo_graph;
     shapeMap := shapeMap Demo.demo_graph;
     nodes := nodes Demo.demo_graph;
     combos := combos Demo.demo_graph;
     visibleShapeIds := visibleShapeIds Demo.demo_graph;
     hiddenItems := [];
     transients := [];
     log := [] |}.

(** Press on [b] and move twice. *)
Definition start_dragging_b : list Input :=
  [Dispatch "node:pointerdown" (Demo.pointer 100 200 (Some "b") 1000);
   Dispatch "pointermove" (Demo.pointer 102 200 (Some "b") 1010);
   Dispatch "pointermove" (Demo.pointer 130 190 (Some "b") 1015)].

(** A release at (252, 70) whose hit test finds the given items. *)
Definition drop (hits : list (option ID)) : IG6GraphEvent :=
  mkEvent (mkPoint 252 70) None EmptyString hits 1030.

End Cases.

(** * Properties *)

Lemma post_bind {A B : Type} (m : M A) (k : A -> M B) s Q E :
  post (m s) (fun a s' => post (k a s') Q E) E -> post ((m ≫= k) s) Q E.
Proof.
  unfold mbind, M_bind. destruct (m s); simpl; auto.
Qed.

Lemma post_mono {A : Type} (r : Result A) (Q Q' : A -> DragNode -> Prop)
    (E E' : DragNode -> Prop) :
  post r Q E -> (forall a s, Q a s -> Q' a s) -> (forall s, E s -> E' s) ->
  post r Q' E'.
Proof. destruct r; simpl; auto. Qed.

Section Keeps.

Variables E I : DragNode -> Prop.

Lemma keeps_ret {A : Type} (a : A) : keeps E I (mret a).
Proof. intros s H. exact H. Qed.

Lemma keeps_read {A : Type} (f : DragNode -> A) : keeps E I (read f).
Proof. intros s H. exact H. Qed.

Lemma keeps_modify (f : DragNode -> DragNode) :
  (forall s, I s -> I (f s)) -> keeps E I (modify f).
Proof. intros Hf s H. apply Hf, H. Qed.

Lemma keeps_call (f : Graph -> Graph) :
  (forall s, I s -> I (set_graph (f (graph s)) s)) -> keeps E I (call f).
Proof. intros Hf s H. apply Hf, H. Qed.

Lemma keeps_throw {A : Type} : (forall s, I s -> E s) -> keeps E I (@throw A).
Proof. intros HE s H. apply HE, H. Qed.

Lemma keeps_bind {A B : Type} (m : M A) (k : A -> M B) :
  keeps E I m -> (forall a, keeps E I (k a)) -> keeps E I (m ≫= k).
Proof.
  intros Hm Hk s H. apply post_bind.
  eapply post_mono; [apply Hm, H | | auto].
  intros a s' H'. apply Hk, H'.
Qed.

(** After a read the continuation runs on the state that was read. *)
Lemma keeps_read_bind {A B : Type} (f : DragNode -> A) (k : A -> M B) :
  (forall s0, I s0 -> keeps E I (k (f s0))) -> keeps E I (read f ≫= k).
Proof.
  intros Hk s H. apply post_bind. simpl. apply (Hk s H), H.
Qed.

(** A bind whose continuation relies on a fact [R] about the value. *)
Lemma keeps_bind_val {A B : Type} (R : A -> Prop) (m : M A) (k : A -> M B) :
  (forall s, I s -> post (m s) (fun a s' => I s' /\ R a) E) ->
  (forall a, R a -> keeps E I (k a)) -> keeps E I (m ≫= k).
Proof.
  intros Hm Hk s H. apply post_bind.
  eapply post_mono; [apply Hm, H | | auto].
  intros a s' [H' Ha]. apply (Hk a Ha), H'.
Qed.

Lemma keeps_forEach {A : Type} (l : list A) (f : A -> M unit) :
  (forall a, a ∈ l -> keeps E I (f a)) -> keeps E I (forEach l f).
Proof.
  induction l as [|a l IH]; intros Hf.
  - apply keeps_ret.
  - simpl. apply keeps_bind.
    + apply Hf. left.
    + intros _. apply IH. intros b Hb. apply Hf. right. exact Hb.
Qed.

End Keeps.

Create HintDb keeps discriminated.

(** One step of the syntax-directed proof that a handler keeps an
    invariant; calls of functions already dealt with are closed from
    the [keeps] hints. *)
Ltac keeps_step :=
  lazymatch goal with
  | |- keeps _ _ (mret _) => apply keeps_ret
  | |- keeps _ _ (read _) => apply keeps_read
  | |- keeps _ _ throw => apply keeps_throw
  | |- keeps _ _ (modify _) => apply keeps_modify
  | |- keeps _ _ (call _) => apply keeps_call
  | |- keeps _ _ (forEach _ _) => apply keeps_forEach; intros ? ?
  | |- keeps _ _ (mbind _ (read _)) => apply keeps_read_bind; intros ? ?
  | |- keeps _ _ (mbind _ _) => apply keeps_bind; [ | intros ? ]
  | |- keeps _ _ (if ?c then _ else _) => destruct c eqn:?
  | |- keeps _ _ (match ?x with _ => _ end) => destruct x eqn:?
  end.

Ltac keeps_with tac :=
  repeat first [ solve [ eauto 2 with keeps ] | tac | progress keeps_step ].

Ltac keeps_auto := keeps_with fail.

(** ** Option resolution *)

(** C5: the constructor resolves contradictory options by precedence and
    rejects nothing: when [enableDelegate] is requested the effective
    [enableTransient] is false, and when [enableDelegate] or
    [enableTransient] is requested (or in effect) the effective
    [hideRelatedEdges] is false. *)
Theorem constructor_precedence (o : DragNodeOptions) :
  let requested := assign DEFAULT_OPTIONS o in
  let f := constructor_options o in
  enableDelegate f = enableDelegate requested /\
  (enableDelegate requested = true -> enableTransient f = false) /\
  (enableDelegate requested = true \/ enableTransient requested = true ->
   hideRelatedEdges f = false) /\
  (enableDelegate f = true \/ enableTransient f = true ->
   hideRelatedEdges f = false).
Proof.
  destruct o as [t d st th h ss en u sb].
  unfold constructor_options, assign; simpl.
  destruct (default false d) eqn:Hd, (default true t) eqn:Ht; simpl;
    rewrite ?Hd, ?Ht; simpl; repeat split; try reflexivity;
    try (intros [?|?]); congruence.
Qed.

Lemma constructor_precedence_witness :
  enableTransient (constructor_options Demo.delegate_with_hidden_edges) = false /\
  hideRelatedEdges (constructor_options Demo.delegate_with_hidden_edges) = false.
Proof.
  destruct (constructor_precedence Demo.delegate_with_hidden_edges)
    as (_ & H1 & H2 & H3).
  split; [apply H1; reflexivity|].
  apply H2; left; reflexivity.
Defined.

(** ** Combo ancestors are left alone when the hierarchy may change *)

Section UpdateComboStructure.

Local Ltac frame :=
  unfold no_combo_held in *; simpl in *; intuition (auto; congruence).

Lemma getComboTreeItems_empty (sel : list ID) (s : DragNode) :
  updateComboStructure (options s) = true ->
  getComboTreeItems sel s = Ok [] s.
Proof. intros H. unfold getComboTreeItems. rewrite H. reflexivity. Qed.

Local Ltac combo_bind :=
  idtac;
  lazymatch goal with
  | |- keeps _ _ (mbind _ (getComboTreeItems _)) =>
      apply (keeps_bind_val _ _ (fun items => items = []));
      [ intros ? ?; rewrite getComboTreeItems_empty by frame; simpl; frame
      | intros ? -> ]
  end.

Local Ltac by_steps := keeps_with combo_bind; try solve [intros; frame].

Lemma held_onPointerDown ev : keeps no_combo_held no_combo_held (onPointerDown ev).
Proof. unfold onPointerDown. by_steps. Qed.

Lemma held_originPositionsOf ids :
  keeps no_combo_held no_combo_held (originPositionsOf ids).
Proof.
  induction ids as [|i r IH]; simpl; [by_steps|].
  apply keeps_bind; [unfold originPosition, warn; by_steps|].
  intros p. apply keeps_bind; [exact IH|]. intros ps. by_steps.
Qed.

Lemma held_cacheShapeIds ids : keeps no_combo_held no_combo_held (cacheShapeIds ids).
Proof. unfold cacheShapeIds. by_steps. Qed.

Lemma held_moveNodes dx dy t u cb :
  keeps no_combo_held no_combo_held (moveNodes dx dy t u cb).
Proof. unfold moveNodes. by_steps. Qed.

Local Hint Resolve held_onPointerDown held_originPositionsOf
  held_cacheShapeIds held_moveNodes : keeps.

Lemma held_callThrottledMoveNodes now a :
  keeps no_combo_held no_combo_held (callThrottledMoveNodes now a).
Proof. unfold callThrottledMoveNodes, runMoveNodes. by_steps. Qed.

Lemma held_onThrottleTimer now :
  keeps no_combo_held no_combo_held (onThrottleTimer now).
Proof. unfold onThrottleTimer, runMoveNodes. by_steps. Qed.

Lemma held_moveDelegate dx dy :
  keeps no_combo_held no_combo_held (moveDelegate dx dy).
Proof. unfold moveDelegate. by_steps. Qed.

Lemma held_clearDelegate : keeps no_combo_held no_combo_held clearDelegate.
Proof. unfold clearDelegate. by_steps. Qed.

Lemma held_clearTransientItems ps :
  keeps no_combo_held no_combo_held (clearTransientItems ps).
Proof. unfold clearTransientItems. by_steps. Qed.

Lemma held_showCached i : keeps no_combo_held no_combo_held (showCached i).
Proof. unfold showCached. by_steps. Qed.

Local Hint Resolve held_callThrottledMoveNodes held_onThrottleTimer
  held_moveDelegate held_clearDelegate held_clearTransientItems
  held_showCached : keeps.

Lemma held_restoreHiddenItems ps :
  keeps no_combo_held no_combo_held (restoreHiddenItems ps).
Proof. unfold restoreHiddenItems. by_steps. Qed.

Lemma held_clearState : keeps no_combo_held no_combo_held clearState.
Proof. unfold clearState. by_steps. Qed.

Lemma held_beginDrag ev t : keeps no_combo_held no_combo_held (beginDrag ev t).
Proof. unfold beginDrag. by_steps. Qed.

Lemma held_updateNearEdges : keeps no_combo_held no_combo_held updateNearEdges.
Proof. unfold updateNearEdges. by_steps. Qed.

Local Hint Resolve held_restoreHiddenItems held_clearState held_beginDrag
  held_updateNearEdges : keeps.

Lemma held_onPointerMove ev : keeps no_combo_held no_combo_held (onPointerMove ev).
Proof. unfold onPointerMove. by_steps. Qed.

Lemma held_onPointerUp ev : keeps no_combo_held no_combo_held (onPointerUp ev).
Proof. unfold onPointerUp. by_steps. Qed.

Local Hint Resolve held_onPointerMove held_onPointerUp : keeps.

Lemma held_commitCallback c ps :
  keeps no_combo_held no_combo_held (commitCallback c ps).
Proof. unfold commitCallback. by_steps. Qed.

Local Hint Resolve held_commitCallback : keeps.

Lemma held_onKeydown ev : keeps no_combo_held no_combo_held (onKeydown ev).
Proof. unfold onKeydown. by_steps. Qed.

Lemma held_onDropNode ev : keeps no_combo_held no_combo_held (onDropNode ev).
Proof. unfold onDropNode. by_steps. Qed.

Lemma held_onDropCombo ev : keeps no_combo_held no_combo_held (onDropCombo ev).
Proof. unfold onDropCombo. by_steps. Qed.

Lemma held_onDropCanvas ev : keeps no_combo_held no_combo_held (onDropCanvas ev).
Proof. unfold onDropCanvas. by_steps. Qed.

Local Hint Resolve held_onKeydown held_onDropNode held_onDropCombo
  held_onDropCanvas : keeps.

Lemma held_step i : keeps no_combo_held no_combo_held (step i).
Proof.
  destruct i; unfold step, onDocumentMouseup, onSettle, onClick, handle;
    by_steps.
Qed.

Lemma held_run inputs s : no_combo_held s -> no_combo_held (run inputs s).
Proof.
  revert s. induction inputs as [|i r IH]; intros s H; simpl; [exact H|].
  apply IH. pose proof (held_step i s H) as Hs.
  destruct (step i s); exact Hs.
Qed.

(** C10: with [updateComboStructure] on, [getComboTreeItems] returns the
    empty list for every selection, and over any sequence of inputs the
    behaviour never holds a combo-tree item to hide or to draw
    transiently. *)
Theorem no_combo_ancestors_when_restructuring (o : DragNodeOptions)
    (g : Graph) (sel : list ID) (inputs : list Input) :
  updateComboStructure (constructor_options o) = true ->
  let s := run inputs (new_DragNode o g) in
  getComboTreeItems sel s = Ok [] s /\ hiddenComboTreeItems s = [].
Proof.
  intros H s.
  assert (Hs : no_combo_held s) by (apply held_run; split; [exact H | reflexivity]).
  split; [apply getComboTreeItems_empty, Hs | apply Hs].
Qed.

End UpdateComboStructure.

Lemma no_combo_ancestors_when_restructuring_witness :
  let s := run Demo.drag_a (new_DragNode Demo.transient_options Demo.crowded_graph) in
  getComboTreeItems ["a"] s = Ok [] s /\ hiddenComboTreeItems s = [].
Proof.
  apply (no_combo_ancestors_when_restructuring Demo.transient_options
           Demo.crowded_graph ["a"] Demo.drag_a).
  reflexivity.
Defined.

(** ** Choosing between the control points and the router *)

Section RouterChoice.

Variable Path : Type.
Variable NodeMap : Type.
Variable getPolylinePath : ID -> list Point -> Q -> Path.
Variable pathFinder :
  list Point -> ID -> ID -> NodeMap -> Polyline.RouterCfg -> list Point.

(** C6: with explicit control points and a strategy other than ['er'] the
    path is built from the given points and the router is not called;
    without control points, or with the ['er'] strategy, the router is
    called first and the path is built from the points it returns. *)
Theorem keyShapePath_router_choice (nodeMap : NodeMap)
    (style : Polyline.KeyShapeStyle) (model : Polyline.EdgeDisplayModel)
    (sourcePoint targetPoint : Point) :
  let routeCfg := Polyline.mix (Polyline.ks_offset style) (Polyline.ks_routeCfg style) in
  let points :=
    [sourcePoint] ++ default [] (Polyline.ks_controlPoints style) ++ [targetPoint] in
  let radius := Polyline.ks_radius style in
  let edgeId := Polyline.m_id model in
  let routed :=
    pathFinder points (Polyline.m_source model) (Polyline.m_target model)
      nodeMap routeCfg in
  let result :=
    Polyline.keyShapePath Path NodeMap getPolylinePath pathFinder nodeMap
      style model sourcePoint targetPoint in
  (Polyline.isEmpty (Polyline.ks_controlPoints style) = false ->
   Polyline.rc_name routeCfg <> Some "er" ->
   result = (getPolylinePath edgeId points radius,
             [Polyline.CallGetPolylinePath edgeId points radius])) /\
  (Polyline.isEmpty (Polyline.ks_controlPoints style) = true \/
   Polyline.rc_name routeCfg = Some "er" ->
   result = (getPolylinePath edgeId routed radius,
             [Polyline.CallPathFinder points (Polyline.m_source model)
                (Polyline.m_target model) routeCfg;
              Polyline.CallGetPolylinePath edgeId routed radius])).
Proof.
  destruct style as [cps radius offset cfg]; simpl.
  unfold Polyline.keyShapePath, Polyline.getPath; simpl.
  set (routeCfg := Polyline.mix offset cfg).
  assert (Hpoints :
    match cps with
    | Some c => sourcePoint :: c ++ [targetPoint]
    | None => [sourcePoint; targetPoint]
    end = sourcePoint :: default [] cps ++ [targetPoint])
    by (destruct cps; reflexivity).
  rewrite Hpoints. split.
  - intros Hcps Hname. rewrite Hcps. simpl.
    rewrite bool_decide_eq_false_2 by exact Hname. reflexivity.
  - intros [Hcps | Hname].
    + rewrite Hcps. reflexivity.
    + rewrite (bool_decide_eq_true_2 _ Hname), andb_false_r. reflexivity.
Qed.

End RouterChoice.

Lemma keyShapePath_router_choice_witness :
  let style :=
    Polyline.mkKeyShapeStyle (Some [mkPoint 50 0]) 0 None None in
  let model := Polyline.mkEdgeDisplayModel "a2b" "a" "b" in
  Polyline.keyShapePath (list Point) unit (fun _ ps _ => ps)
    (fun ps _ _ _ _ => ps) tt style model (mkPoint 0 0) (mkPoint 50 50)
  = ([mkPoint 0 0; mkPoint 50 0; mkPoint 50 50],
     [Polyline.CallGetPolylinePath "a2b"
        [mkPoint 0 0; mkPoint 50 0; mkPoint 50 50] 0]).
Proof.
  apply (keyShapePath_router_choice (list Point) unit (fun _ ps _ => ps)
           (fun ps _ _ _ _ => ps) tt
           (Polyline.mkKeyShapeStyle (Some [mkPoint 50 0]) 0 None None)
           (Polyline.mkEdgeDisplayModel "a2b" "a" "b")
           (mkPoint 0 0) (mkPoint 50 50)).
  - reflexivity.
  - simpl. discriminate.
Defined.

(** ** The demo drag *)

(** C1, as stated, fails: dragging [a] from (200, 100) by (50, -30)
    with transient drawing off and no throttle does not leave it at
    (250, 70). *)
Lemma drag_a_does_not_end_at_250_70 :
  ~ (exists d,
       nodes (graph (run Demo.drag_a
                       (new_DragNode Demo.live_options Demo.demo_graph))) !! "a"
       = Some d /\ (d_x d == 250)%Q /\ (d_y d == 70)%Q).
Proof.
  intros (d & Hd & Hx & Hy).
  vm_compute in Hd. injection Hd as <-.
  vm_compute in Hx. discriminate Hx.
Qed.

(** C2, at a failing input: a transient drag of [a] past the avoiding
    edge [b2c].  Settling shows [b2c] without shape ids, and [a] a
    second time without shape ids, so both end with their labels shown
    although only their key shapes were visible before the drag. *)
Theorem settle_shows_near_edge_and_node_by_default :
  let s0 := new_DragNode Demo.transient_options Demo.crowded_graph in
  let s := run Demo.drag_a s0 in
  List.filter is_show (log (graph s))
  = [ShowItem "a2b" (Some ["keyShape"]); ShowItem "a2c" (Some ["keyShape"]);
     ShowItem "b" (Some ["keyShape"]); ShowItem "c" (Some ["keyShape"]);
     ShowItem "b2c" None;
     ShowItem "a" (Some ["keyShape"]); ShowItem "a" None] /\
  visibleShapeIds (graph s0) !! "b2c" = Some ["keyShape"] /\
  visibleShapeIds (graph s) !! "b2c" = Some ["keyShape"; "labelShape"] /\
  visibleShapeIds (graph s0) !! "a" = Some ["keyShape"] /\
  visibleShapeIds (graph s) !! "a" = Some ["keyShape"; "labelShape"].
Proof. vm_compute. repeat split; reflexivity. Qed.

(** C7, at two failing inputs.  The first move of a drag happens over
    the edge [a2b], with [updateComboStructure] off: the snapshot warns
    about the id and skips it, then [getComboTreeItems] throws, the rest
    of the handler is lost, and a later move is not acted on.  And [a]
    is removed from the graph while it is dragged and the pointer is
    released over the canvas: [onDropCanvas] throws, so neither its data
    update nor its [clearState] runs; the guarded [onDropNode] completes
    on the same state. *)
Theorem missing_node_aborts_the_handler :
  (let s :=
     run [Dispatch "node:pointerdown" (Demo.pointer 200 100 (Some "a") 1000)]
       (new_DragNode Demo.resize_only_options Demo.demo_graph) in
   let r := step (Dispatch "pointermove" (Demo.pointer 202 100 (Some "a2b") 1010)) s in
   let later :=
     step (Dispatch "pointermove" (Demo.pointer 230 90 (Some "a") 1020)) (final r) in
   getNodeData (graph s) "a2b" = None /\
   completes r = false /\
   log (graph (final r)) = [AddMouseupListener; Warn missing_node_message] /\
   originPositions (final r) = [] /\
   dragging (final r) = true /\
   throttledMoveNodes (final r) = Stub /\
   log (graph (final later)) = log (graph (final r))) /\
  (let s := Demo.a_removed_mid_drag in
   let canvas_drop := step (Dispatch "canvas:drop" (Demo.pointer 252 70 None 1030)) s in
   let node_drop :=
     step (Dispatch "node:drop"
             (mkEvent (mkPoint 252 70) (Some "b") EmptyString [Some "b"] 1030)) s in
   map p_id (originPositions s) = ["a"] /\
   getNodeData (graph s) "a" = None /\
   completes canvas_drop = false /\
   map p_id (originPositions (final canvas_drop)) = ["a"] /\
   List.filter is_updateData (log (graph (final canvas_drop))) = [] /\
   completes node_drop = true).
Proof. vm_compute. repeat split; reflexivity. Qed.

(** ** Escape *)

Lemma tidied_refl g : tidied [] [] g g.
Proof. repeat split; auto; intros ? H; inversion H. Qed.

Lemma tidied_trans ts1 ts2 k1 k2 g1 g2 g3 :
  tidied ts1 k1 g1 g2 -> tidied ts2 k2 g2 g3 -> tidied (ts1 ++ ts2) (k1 ++ k2) g1 g3.
Proof.
  intros (A1 & A2 & A3 & A4 & A5 & A6 & A7) (B1 & B2 & B3 & B4 & B5 & B6 & B7).
  repeat split; try congruence; auto.
  - intros t [H|H]%elem_of_app; auto.
  - intros i [H|H]%elem_of_app; auto.
Qed.

Lemma tidied_remove k i g : tidied [(k, i)] [] g (drawTransient k i TRemove g).
Proof.
  repeat split; simpl; auto.
  - rewrite List.filter_app. simpl. apply app_nil_r.
  - intros t Ht Hin. apply Ht.
    apply list_elem_of_In, List.filter_In in Hin. apply list_elem_of_In, Hin.
  - intros t ->%list_elem_of_singleton Hin.
    apply list_elem_of_In, List.filter_In in Hin. destruct Hin as [_ Hin].
    rewrite bool_decide_eq_true_2 in Hin by reflexivity. discriminate.
  - intros ? H; inversion H.
Qed.

Lemma tidied_show i sh g : tidied [] [i] g (showItem i sh g).
Proof.
  repeat split; simpl; auto.
  - rewrite List.filter_app. simpl. apply app_nil_r.
  - intros j Hj Hin. apply Hj.
    apply list_elem_of_In, List.filter_In in Hin. apply list_elem_of_In, Hin.
  - intros ? H; inversion H.
  - intros j ->%list_elem_of_singleton Hin.
    apply list_elem_of_In, List.filter_In in Hin. destruct Hin as [_ Hin].
    rewrite String.eqb_refl in Hin. discriminate.
Qed.

Lemma showCached_loop {A} (key : A -> ID) (l : list A) (s : DragNode) :
  exists g c,
    forEach l (fun a => showCached (key a)) s
    = Ok tt (set_hiddenShapeCache c (set_graph g s)) /\
    tidied [] (map key l) (graph s) g.
Proof.
  revert s. induction l as [|a l IH]; intros s.
  - exists (graph s), (hiddenShapeCache s). split; [destruct s; reflexivity | apply tidied_refl].
  - simpl.
    set (s1 := set_hiddenShapeCache (delete (key a) (hiddenShapeCache s))
                 (set_graph (showItem (key a) (hiddenShapeCache s !! key a) (graph s)) s)).
    destruct (IH s1) as (g & c & Heq & Ht).
    exists g, c. split.
    + change ((showCached (key a) ≫= fun _ => forEach l (fun a => showCached (key a))) s)
        with (forEach l (fun a => showCached (key a)) s1).
      rewrite Heq. reflexivity.
    + apply (tidied_trans [] [] [key a] (map key l) _ (graph s1)); [|exact Ht].
      apply tidied_show.
Qed.

Lemma showDefault_loop (l : list EdgeModel) (s : DragNode) :
  exists g c,
    forEach l (fun edge =>
      call (showItem (e_id edge) None);;
      modify (fun s => set_hiddenShapeCache (delete (e_id edge) (hiddenShapeCache s)) s)) s
    = Ok tt (set_hiddenShapeCache c (set_graph g s)) /\
    tidied [] (map e_id l) (graph s) g.
Proof.
  revert s. induction l as [|a l IH]; intros s.
  - exists (graph s), (hiddenShapeCache s). split; [destruct s; reflexivity | apply tidied_refl].
  - simpl.
    set (s1 := set_hiddenShapeCache (delete (e_id a) (hiddenShapeCache s))
                 (set_graph (showItem (e_id a) None (graph s)) s)).
    destruct (IH s1) as (g & c & Heq & Ht).
    exists g, c. split.
    + match goal with
      | |- (_ ≫= ?k) s = _ => change (k tt s1 = Ok tt (set_hiddenShapeCache c (set_graph g s)))
      end.
      simpl. rewrite Heq. reflexivity.
    + apply (tidied_trans [] [] [e_id a] (map e_id l) _ (graph s1)); [|exact Ht].
      apply tidied_show.
Qed.

Lemma bool_decide_length_nil {A} (l : list A) :
  bool_decide (length l = 0%nat) = true -> l = [].
Proof. intros H%bool_decide_eq_true. destruct l; [reflexivity | discriminate]. Qed.

Lemma tidied_nil_keys {A} (key : A -> ID) (l : list A) g :
  l = [] -> tidied [] (map key l) g g.
Proof. intros ->. apply tidied_refl. Qed.

Lemma transientEnabled_eq (s s' : DragNode) :
  options s' = options s -> rendererType (graph s') = rendererType (graph s) ->
  transientEnabled s' = transientEnabled s.
Proof. intros Ho Hr. unfold transientEnabled. rewrite Ho, Hr. reflexivity. Qed.

Ltac block key :=
  apply post_bind; simpl; apply post_bind;
  match goal with
  | |- post ((if negb (bool_decide (length ?l = 0%nat)) then _ else _) ?st) _ _ =>
      let E := fresh "E" in
      let T := fresh "T" in
      destruct (bool_decide (length l = 0%nat)) eqn:E; simpl;
      [ apply bool_decide_length_nil in E;
        pose proof (tidied_nil_keys key l (graph st) E) as T
      | apply post_bind;
        first [ destruct (showCached_loop key l st) as (? & ? & -> & T)
              | destruct (showDefault_loop l st) as (? & ? & -> & T) ];
        simpl ]
  end; simpl in *.

Lemma restoreHiddenItems_restores (s : DragNode) :
  transientEnabled s = false ->
  post (restoreHiddenItems None s) (fun _ s' => restored s s') (fun _ => False).
Proof.
  intros Hlive. unfold restoreHiddenItems.
  block e_id. all: block n_id. all: block e_id. all: block n_id.
  all: pose proof (tidied_trans _ _ _ _ _ _ _
                     (tidied_trans _ _ _ _ _ _ _
                        (tidied_trans _ _ _ _ _ _ _ T T0) T1) T2) as Tall.
  all: simpl in Tall; rewrite <- !app_assoc in Tall; fold (hiddenIds s) in Tall.
  all: apply post_bind;
    match goal with
    | |- post (read transientEnabled ?st) _ _ =>
        assert (Hst : transientEnabled st = false)
          by (rewrite <- Hlive; apply transientEnabled_eq;
              [reflexivity | apply Tall]);
        cbn [post read]; rewrite Hst
    end.
  all: simpl; unfold restored; simpl; repeat split; try assumption;
    try reflexivity; try apply Tall.
Qed.

Lemma bind_ok {A B : Type} (m : M A) (k : A -> M B) s a s' :
  m s = Ok a s' -> (m ≫= k) s = k a s'.
Proof. intros H. unfold mbind, M_bind. rewrite H. reflexivity. Qed.

Lemma remove_loop {A} (targets : A -> list (ItemKind * ID)) (body : A -> M unit)
    (l : list A) :
  (forall a s, exists g,
      body a s = Ok tt (set_graph g s) /\ tidied (targets a) [] (graph s) g) ->
  forall s, exists g,
    forEach l body s = Ok tt (set_graph g s) /\
    tidied (flat_map targets l) [] (graph s) g.
Proof.
  intros Hbody. induction l as [|a l IH]; intros s.
  - exists (graph s). split; [destruct s; reflexivity | apply tidied_refl].
  - destruct (Hbody a s) as (g1 & H1 & T1).
    destruct (IH (set_graph g1 s)) as (g2 & H2 & T2).
    exists g2. split.
    + simpl. unfold mbind, M_bind. rewrite H1, H2. reflexivity.
    + apply (tidied_trans _ _ [] [] _ g1); assumption.
Qed.

Lemma clearTransientItems_clears (positions : list Position) (s : DragNode) :
  exists g,
    clearTransientItems positions s = Ok tt (set_graph g s) /\
    tidied (transientTargets s positions) [] (graph s) g.
Proof.
  unfold clearTransientItems, transientTargets.
  destruct (remove_loop
              (fun edge => [(KNode, e_source edge); (KNode, e_target edge);
                            (KEdge, e_id edge)])
              (fun edge =>
                 call (drawTransient KNode (e_source edge) TRemove);;
                 call (drawTransient KNode (e_target edge) TRemove);;
                 call (drawTransient KEdge (e_id edge) TRemove))
              (hiddenEdges s)) with (s := s) as (g1 & H1 & T1).
  { intros a s1. eexists. split; [reflexivity|]. simpl.
    eapply (tidied_trans [_] [_; _] [] []); [apply tidied_remove|].
    eapply (tidied_trans [_] [_] [] []); apply tidied_remove. }
  destruct (remove_loop (fun edge => [(KEdge, e_id edge)])
              (fun edge => call (drawTransient KEdge (e_id edge) TRemove))
              (hiddenNearEdges s)) with (s := set_graph g1 s) as (g2 & H2 & T2).
  { intros a s1. eexists. split; [reflexivity|]. apply tidied_remove. }
  destruct (remove_loop
              (fun item => [(if d_isCombo (n_data item) then KCombo else KNode,
                             n_id item)])
              (fun item =>
                 call (drawTransient (if d_isCombo (n_data item) then KCombo else KNode)
                         (n_id item) TRemove))
              (hiddenComboTreeItems s)) with (s := set_graph g2 s) as (g3 & H3 & T3).
  { intros a s1. eexists. split; [reflexivity|]. apply tidied_remove. }
  destruct (remove_loop (fun p => [(KNode, p_id p)])
              (fun p => call (drawTransient KNode (p_id p) TRemove))
              positions) with (s := set_graph g3 s) as (g4 & H4 & T4).
  { intros a s1. eexists. split; [reflexivity|]. apply tidied_remove. }
  exists g4. split.
  - erewrite bind_ok by reflexivity.
    erewrite bind_ok by exact H1.
    erewrite bind_ok by reflexivity.
    erewrite bind_ok by exact H2.
    erewrite bind_ok by reflexivity.
    erewrite bind_ok by exact H3.
    exact H4.
  - simpl in *.
    pose proof (tidied_trans _ _ _ _ _ _ _ T1
                  (tidied_trans _ _ _ _ _ _ _ T2
                     (tidied_trans _ _ _ _ _ _ _ T3 T4))) as T.
    exact T.
Qed.

Lemma place_other (changes : list (ID * Point)) (i : ID) :
  i ∉ map fst changes ->
  forall m : gmap string ModelData, place changes m !! i = m !! i.
Proof.
  induction changes as [|c r IH]; intros Hi m; [reflexivity|].
  simpl in *. rewrite IH by (intros H; apply Hi; right; exact H).
  apply lookup_alter_ne. intros Hc. apply Hi. rewrite Hc. left.
Qed.

Lemma place_same (changes : list (ID * Point)) (i : ID) (pt : Point) :
  (forall c, c ∈ changes -> fst c = i -> snd c = pt) ->
  i ∈ map fst changes ->
  forall m : gmap string ModelData,
    place changes m !! i = move_to pt <$> m !! i.
Proof.
  induction changes as [|c r IH]; intros Hpt Hi m.
  - inversion Hi.
  - simpl in *.
    assert (Hr : forall c', c' ∈ r -> fst c' = i -> snd c' = pt)
      by (intros c' Hc'; apply Hpt; right; exact Hc').
    destruct (decide (i ∈ map fst r)) as [Hin | Hout].
    + rewrite (IH Hr Hin). destruct (decide (fst c = i)) as [Hc | Hc].
      * rewrite Hc, lookup_alter_eq, (Hpt c) by (auto; left).
        destruct (m !! i); reflexivity.
      * rewrite lookup_alter_ne by exact Hc. reflexivity.
    + rewrite (place_other r i Hout).
      apply elem_of_cons in Hi as [Hi | Hi]; [|contradiction].
      rewrite <- Hi, lookup_alter_eq, (Hpt c) by (auto; left). reflexivity.
Qed.

Lemma place_snapshot (f : Position -> Point) (ps : list Position) (p : Position)
    (m : gmap string ModelData) :
  (forall q, q ∈ ps -> p_id q = p_id p -> f q = f p) ->
  p ∈ ps ->
  place (map (fun q => (p_id q, f q)) ps) m !! p_id p = move_to (f p) <$> m !! p_id p.
Proof.
  intros Hf Hp. apply place_same.
  - intros c (q & -> & Hq)%list_elem_of_fmap Hid. simpl in *. apply Hf; assumption.
  - rewrite <- list_fmap_compose. apply list_elem_of_fmap. exists p. split; [reflexivity | exact Hp].
Qed.

Lemma coherent_points (ps : list Position) (f : Q * Q -> Point) (p : Position) :
  coherent ps -> p ∈ ps ->
  forall q, q ∈ ps -> p_id q = p_id p -> f (p_x q, p_y q) = f (p_x p, p_y p).
Proof.
  intros Hc Hp q Hq Hid. destruct (Hc q p Hq Hp Hid) as [-> ->]. reflexivity.
Qed.

Lemma eqb_escape (k : string) :
  k = "Escape" \/ k = "Esc" ->
  negb (String.eqb k "Escape") && negb (String.eqb k "Esc") = false.
Proof. intros [-> | ->]; reflexivity. Qed.

(** [onKeydown] on Escape with transient drawing and the delegate both
    off, from a state whose snapshot gives one position per id. *)
Lemma onKeydown_rolls_back (s : DragNode) (event : IG6GraphEvent) :
  ev_key event = "Escape" \/ ev_key event = "Esc" ->
  transientEnabled s = false ->
  enableDelegate (options s) = false ->
  coherent (originPositions s) ->
  exists s',
    onKeydown event s = Ok tt s' /\
    (forall p, p ∈ originPositions s ->
       nodes (graph s') !! p_id p
       = move_to (mkPoint (p_x p) (p_y p)) <$> nodes (graph s) !! p_id p) /\
    (forall i, i ∉ map p_id (originPositions s) ->
       nodes (graph s') !! i = nodes (graph s) !! i) /\
    ((KRect, DELEGATE_SHAPE_ID) ∉ transients (graph s')) /\
    (forall t, t ∈ transientTargets s (originPositions s) ->
       t ∉ transients (graph s')) /\
    hiddenEdges s' = [] /\ hiddenRelatedNodes s' = [] /\
    hiddenNearEdges s' = [] /\ hiddenComboTreeItems s' = [] /\
    (forall i, i ∈ hiddenIds s -> getItemVisible (graph s') i = true) /\
    List.filter is_emit (log (graph s')) = List.filter is_emit (log (graph s)) /\
    originPositions s' = [].
Proof.
  intros Hkey Hlive Hdel Hcoh.
  unfold onKeydown. rewrite (eqb_escape _ Hkey).
  set (s1 := set_graph (drawTransient KRect DELEGATE_SHAPE_ID TRemove (graph s)) s).
  pose proof (tidied_remove KRect DELEGATE_SHAPE_ID (graph s)) as T1.
  destruct (clearTransientItems_clears (originPositions s) s1) as (g2 & H2 & T2).
  assert (Hlive2 : transientEnabled (set_graph g2 s1) = false)
    by (rewrite <- Hlive; apply transientEnabled_eq; [reflexivity | apply T2]).
  pose proof (restoreHiddenItems_restores _ Hlive2) as H3.
  destruct (restoreHiddenItems None (set_graph g2 s1)) as [[] s3|] eqn:E3;
    [|contradiction].
  destruct H3 as (Ho & Hps & He & Hn & Hne & Hc & T3). simpl in *.
  destruct T1 as (_ & N1 & M1 & A1 & _ & D1 & _).
  destruct T2 as (R2 & N2 & M2 & A2 & _ & D2 & _).
  destruct T3 as (R3 & N3 & M3 & A3 & _ & _ & V3).
  simpl in *.
  assert (Hlive3 : transientEnabled s3 = false)
    by (rewrite <- Hlive; apply transientEnabled_eq; congruence).
  eexists. split.
  { erewrite bind_ok by reflexivity.
    erewrite bind_ok by reflexivity.
    erewrite bind_ok by exact H2.
    erewrite bind_ok by exact E3.
    erewrite bind_ok by reflexivity.
    erewrite bind_ok by reflexivity.
    rewrite Hlive3, Ho, Hdel. reflexivity. }
  simpl. rewrite Hps.
  repeat split; try assumption.
  - intros p Hp. rewrite N3, N2.
    apply (place_snapshot (fun q => mkPoint (p_x q) (p_y q))); [|exact Hp].
    intros q Hq Hid. destruct (Hcoh q p Hq Hp Hid) as [-> ->]. reflexivity.
  - intros i Hi. rewrite N3, N2. apply place_other.
    rewrite <- list_fmap_compose. exact Hi.
  - apply A3, A2, D1. left.
  - intros t Ht. apply A3, D2, Ht.
  - intros i Hi. unfold getItemVisible, includes.
    rewrite bool_decide_eq_false_2; [reflexivity | apply V3, Hi].
  - rewrite List.filter_app. simpl. rewrite app_nil_r. congruence.
Qed.

(** ** Pointer-up *)

#[local] Arguments Qabs : simpl never.
#[local] Arguments Qminus : simpl never.
#[local] Arguments Qplus : simpl never.
#[local] Arguments Qltb : simpl never.
#[local] Arguments place : simpl never.

Lemma onPointerUp_eq (event : IG6GraphEvent) (s : DragNode) :
  onPointerUp event s
  = Ok tt
      (set_pendingCommits
         (pendingCommits s ++ [(transientEnabled s, originPositions s)])
         (set_graph
            (updateNodePosition (committed event s) (Some true) (graph s))
            (set_selectedNodeIds [] (set_dragging false (set_pointerDown None s))))).
Proof. reflexivity. Qed.

Lemma place_lookup_fmap {B : Type} (f : ModelData -> B) (changes : list (ID * Point))
    (m : gmap string ModelData) (i : ID) :
  (forall pt d, f (move_to pt d) = f d) ->
  f <$> place changes m !! i = f <$> m !! i.
Proof.
  intros Hf. revert m. induction changes as [|c r IH]; intros m; [reflexivity|].
  change (place (c :: r) m) with (place r (alter (move_to (snd c)) (fst c) m)).
  rewrite IH, lookup_alter. case_decide; [|reflexivity].
  subst. destruct (m !! fst c); simpl; [rewrite Hf|]; reflexivity.
Qed.

Lemma parent_of_updateNodePosition changes u g i :
  parent_of (updateNodePosition changes u g) i = parent_of g i.
Proof. apply place_lookup_fmap. reflexivity. Qed.

Lemma is_Some_updateNodePosition changes u g i :
  is_Some (nodes (updateNodePosition changes u g) !! i) <-> is_Some (nodes g !! i).
Proof.
  pose proof (place_lookup_fmap (fun _ => tt) changes (nodes g) i (fun _ _ => eq_refl)) as H.
  simpl. destruct (place changes (nodes g) !! i), (nodes g !! i);
    try discriminate; split; intros [? ?]; eauto; discriminate.
Qed.

Lemma coherent_one (p : Position) : coherent [p].
Proof.
  intros q r ->%list_elem_of_singleton ->%list_elem_of_singleton _.
  split; reflexivity.
Qed.

(** Inside the window of the throttle a move is held back, and
    [onPointerUp] commits all the same. *)
Lemma onPointerUp_commits
    (s : DragNode) (event : IG6GraphEvent) (wait previous : Z) (timeout : bool)
    (pending : option MoveArgs) (a : MoveArgs) :
  throttledMoveNodes s = Throttled wait previous timeout pending ->
  0 < wait - (ev_now event - previous) <= wait ->
  coherent (originPositions s) ->
  graph (final (callThrottledMoveNodes (ev_now event) a s)) = graph s /\
  exists s',
    onPointerUp event s = Ok tt s' /\
    log (graph s')
    = log (graph s) ++ [UpdateNodePosition (committed event s) (Some true)] /\
    (forall p, p ∈ originPositions s ->
       nodes (graph s') !! p_id p
       = move_to
           (mkPoint (p_x p + (px (ev_canvas event) - originX s + hundredth))
                    (p_y p + (py (ev_canvas event) - originY s + hundredth)))
         <$> nodes (graph s) !! p_id p) /\
    pendingCommits s' = pendingCommits s ++ [(transientEnabled s, originPositions s)].
Proof.
  intros Hthr Hwin Hcoh. split.
  - unfold callThrottledMoveNodes.
    erewrite bind_ok by reflexivity. rewrite Hthr.
    rewrite (proj2 (Z.leb_gt _ _)) by lia.
    rewrite (proj2 (Z.ltb_ge _ _)) by lia. reflexivity.
  - eexists. split; [apply onPointerUp_eq|]. simpl. repeat split.
    intros p Hp.
    apply (place_snapshot
             (fun q => mkPoint (p_x q + (px (ev_canvas event) - originX s + hundredth))
                         (p_y q + (py (ev_canvas event) - originY s + hundredth))));
      [|exact Hp].
    intros q Hq Hid. destruct (Hcoh q p Hq Hp Hid) as [-> ->]. reflexivity.
Qed.

(** ** Delegate frames *)

Lemma log_extends_refl P g : log_extends P g g.
Proof. exists []. split; [symmetry; apply app_nil_r | constructor]. Qed.

Lemma log_extends_snoc P g0 g g' e :
  log g' = log g ++ [e] -> P e -> log_extends P g0 g -> log_extends P g0 g'.
Proof.
  intros Hlog He (suffix & Hs & HP). exists (suffix ++ [e]). split.
  - rewrite Hlog, Hs, app_assoc. reflexivity.
  - apply Forall_app. split; [exact HP | repeat constructor; exact He].
Qed.

Section DelegateFrame.

Variable s0 : DragNode.
Hypothesis Hdel : enableDelegate (options s0) = true.
Hypothesis Htr : enableTransient (options s0) = false.
Hypothesis Hhide : hideRelatedEdges (options s0) = false.

Lemma delegate_frame_transient d s : delegate_frame s0 d s -> transientEnabled s = false.
Proof. intros (Ho & _). unfold transientEnabled. rewrite Ho, Htr. reflexivity. Qed.

Local Ltac frame :=
  unfold delegate_frame in *; simpl in *;
  repeat match goal with
         | H : _ /\ _ |- _ => destruct H
         end;
  repeat split; auto; try congruence;
  try (eapply log_extends_snoc; [reflexivity | simpl; auto | eassumption]).

Local Ltac norm :=
  idtac;
  match goal with
  | H : delegate_frame _ _ ?s |- context [transientEnabled ?s] =>
      rewrite (delegate_frame_transient _ s H)
  | H : delegate_frame _ _ ?s |- context [options ?s] =>
      rewrite (proj1 H)
  | |- context [enableDelegate (options s0)] => rewrite Hdel
  | |- context [hideRelatedEdges (options s0)] => rewrite Hhide
  | |- keeps _ _ (if false then _ else _) => cbv iota
  | |- keeps _ _ (if true then _ else _) => cbv iota
  | |- keeps _ _ (if false && _ then _ else _) => cbn [andb]
  end.

Local Ltac by_steps := keeps_with norm; try solve [intros; frame].

Lemma frame_originPositionsOf d ids :
  keeps (fun _ => False) (delegate_frame s0 d) (originPositionsOf ids).
Proof.
  induction ids as [|i r IH]; simpl; [by_steps|].
  apply keeps_bind; [unfold originPosition, warn; by_steps|].
  intros p. apply keeps_bind; [exact IH|]. intros ps. by_steps.
Qed.

Lemma frame_moveDelegate d dx dy :
  keeps (fun _ => False) (delegate_frame s0 d) (moveDelegate dx dy).
Proof. unfold moveDelegate. by_steps. Qed.

Local Hint Resolve frame_originPositionsOf frame_moveDelegate : keeps.



End DelegateFrame.



(** ** Dropping on a combo *)

Lemma parent_of_updateData_eq g i c :
  is_Some (nodes g !! i) -> parent_of (updateData [(i, c)] g) i = Some c.
Proof.
  intros [d Hd]. unfold parent_of. simpl. rewrite lookup_alter_eq, Hd. reflexivity.
Qed.

Lemma parent_of_updateData_ne g i j c :
  i <> j -> parent_of (updateData [(i, c)] g) j = parent_of g j.
Proof.
  intros Hij. unfold parent_of. simpl. rewrite lookup_alter_ne by exact Hij. reflexivity.
Qed.

Lemma is_Some_updateData g i j c :
  is_Some (nodes (updateData [(i, c)] g) !! j) <-> is_Some (nodes g !! j).
Proof.
  simpl. destruct (decide (i = j)) as [->|Hij].
  - rewrite lookup_alter_eq. rewrite fmap_is_Some. reflexivity.
  - rewrite lookup_alter_ne by exact Hij. reflexivity.
Qed.

Lemma adopted_same (c : option ID) (ids : list ID) (g : Graph) :
  (forall i, i ∈ ids -> is_Some (nodes g !! i) -> parent_of g i = Some c) ->
  adopted c ids g g.
Proof.
  intros H. repeat split; auto.
  exists []. rewrite app_nil_r. repeat split; auto.
  intros i Hi Hs Hne. exfalso. apply Hne, H; assumption.
Qed.

Lemma adopt_one (c : option ID) (p : Position) (s : DragNode) :
  exists g1,
    adopt c p s = Ok tt (set_graph g1 s) /\
    adopted c [p_id p] (graph s) g1.
Proof.
  unfold adopt. erewrite bind_ok by reflexivity.
  unfold getNodeData. destruct (nodes (graph s) !! p_id p) as [d|] eqn:Hd; simpl.
  - case_bool_decide as Hc.
    + exists (graph s). split; [destruct s; reflexivity|].
      apply adopted_same.
      intros i ->%list_elem_of_singleton _. unfold parent_of. rewrite Hd, <- Hc. reflexivity.
    + eexists. split; [reflexivity|]. repeat split.
      * intros i Hi. destruct (decide (p_id p = i)) as [<-|Hne].
        -- apply parent_of_updateData_eq. rewrite Hd. eauto.
        -- rewrite parent_of_updateData_ne by exact Hne. exact Hi.
      * intros i ->%list_elem_of_singleton Hi. apply parent_of_updateData_eq, Hi.
      * apply is_Some_updateData.
      * apply is_Some_updateData.
      * intros i Hi. apply parent_of_updateData_ne. intros <-. apply Hi. left.
      * exists [UpdateData [(p_id p, c)]]. repeat split; auto.
        intros i ->%list_elem_of_singleton _ _. left.
  - exists (graph s). split; [destruct s; reflexivity|].
    apply adopted_same.
    intros i ->%list_elem_of_singleton [d Hd']. congruence.
Qed.

Lemma adopt_loop (c : option ID) (ps : list Position) :
  forall s, exists g,
    forEach ps (adopt c) s = Ok tt (set_graph g s) /\
    adopted c (map p_id ps) (graph s) g.
Proof.
  induction ps as [|p ps IH]; intros s.
  - exists (graph s). split; [destruct s; reflexivity|].
    apply adopted_same. intros ? H; inversion H.
  - destruct (adopt_one c p s) as (g1 & H1 & A1 & B1 & D1 & O1 & u1 & L1 & F1 & U1).
    destruct (IH (set_graph g1 s)) as (g2 & H2 & A2 & B2 & D2 & O2 & u2 & L2 & F2 & U2).
    simpl in *. exists g2. split.
    + erewrite bind_ok by exact H1. exact H2.
    + repeat split.
      * intros i Hi. apply A2, A1, Hi.
      * intros i Hi Hs. apply elem_of_cons in Hi as [-> | Hi].
        -- apply A2, B1; [left | exact Hs].
        -- apply B2; [exact Hi | apply D1, Hs].
      * intros Hs. apply D1, D2, Hs.
      * intros Hs. apply D2, D1, Hs.
      * intros i Hi. rewrite O2, O1;
          [ reflexivity
          | intros Hin%list_elem_of_singleton; apply Hi; rewrite Hin; left
          | intros Hin; apply Hi; right; exact Hin ].
      * exists (u1 ++ u2). repeat split.
        -- rewrite L2, L1, app_assoc. reflexivity.
        -- apply Forall_app. split; assumption.
        -- intros i Hi Hs Hne. apply elem_of_app.
           destruct (decide (i = p_id p)) as [-> | Hip].
           ++ left. apply U1; [left | exact Hs | exact Hne].
           ++ apply elem_of_cons in Hi as [-> | Hi]; [contradiction|].
              right. apply U2; [exact Hi | apply D1, Hs |].
              rewrite O1; [exact Hne|].
              intros ->%list_elem_of_singleton. contradiction.
Qed.

Section ParentsKept.

Variable g0 : Graph.

Local Ltac frame :=
  unfold parents_kept in *; simpl in *;
  repeat match goal with
         | H : _ /\ _ |- _ => destruct H
         end;
  split; [congruence | intros; rewrite ?parent_of_updateNodePosition; auto].

Local Ltac by_steps := keeps_auto; try solve [intros; frame].

Local Abbreviation kept := (keeps (parents_kept g0) (parents_kept g0)).

Lemma kept_onPointerDown ev : kept (onPointerDown ev).
Proof. unfold onPointerDown. by_steps. Qed.

Lemma kept_originPositionsOf ids : kept (originPositionsOf ids).
Proof.
  induction ids as [|i r IH]; simpl; [by_steps|].
  apply keeps_bind; [unfold originPosition, warn; by_steps|].
  intros p. apply keeps_bind; [exact IH|]. intros ps. by_steps.
Qed.

Lemma kept_getComboTreeItems sel : kept (getComboTreeItems sel).
Proof.
  intros s H. unfold getComboTreeItems.
  destruct (updateComboStructure (options s)); [exact H|].
  destruct (collectAncestors (graph s) sel); exact H.
Qed.

Lemma kept_cacheShapeIds ids : kept (cacheShapeIds ids).
Proof. unfold cacheShapeIds. by_steps. Qed.

Lemma kept_moveNodes dx dy t u cb : kept (moveNodes dx dy t u cb).
Proof. unfold moveNodes. by_steps. Qed.

Local Hint Resolve kept_onPointerDown kept_originPositionsOf
  kept_getComboTreeItems kept_cacheShapeIds kept_moveNodes : keeps.

Lemma kept_callThrottledMoveNodes now a : kept (callThrottledMoveNodes now a).
Proof. unfold callThrottledMoveNodes, runMoveNodes. by_steps. Qed.

Lemma kept_onThrottleTimer now : kept (onThrottleTimer now).
Proof. unfold onThrottleTimer, runMoveNodes. by_steps. Qed.

Lemma kept_moveDelegate dx dy : kept (moveDelegate dx dy).
Proof. unfold moveDelegate. by_steps. Qed.

Lemma kept_clearDelegate : kept clearDelegate.
Proof. unfold clearDelegate. by_steps. Qed.

Lemma kept_clearTransientItems ps : kept (clearTransientItems ps).
Proof. unfold clearTransientItems. by_steps. Qed.

Lemma kept_showCached i : kept (showCached i).
Proof. unfold showCached. by_steps. Qed.

Local Hint Resolve kept_callThrottledMoveNodes kept_onThrottleTimer
  kept_moveDelegate kept_clearDelegate kept_clearTransientItems
  kept_showCached : keeps.

Lemma kept_restoreHiddenItems ps : kept (restoreHiddenItems ps).
Proof. unfold restoreHiddenItems. by_steps. Qed.

Lemma kept_clearState : kept clearState.
Proof. unfold clearState. by_steps. Qed.

Lemma kept_beginDrag ev t : kept (beginDrag ev t).
Proof. unfold beginDrag. by_steps. Qed.

Lemma kept_updateNearEdges : kept updateNearEdges.
Proof. unfold updateNearEdges. by_steps. Qed.

Local Hint Resolve kept_restoreHiddenItems kept_clearState kept_beginDrag
  kept_updateNearEdges : keeps.

Lemma kept_onPointerMove ev : kept (onPointerMove ev).
Proof. unfold onPointerMove. by_steps. Qed.

Lemma kept_onPointerUp ev : kept (onPointerUp ev).
Proof. unfold onPointerUp. by_steps. Qed.

Local Hint Resolve kept_onPointerMove kept_onPointerUp : keeps.

Lemma kept_commitCallback c ps : kept (commitCallback c ps).
Proof. unfold commitCallback. by_steps. Qed.

Lemma kept_onKeydown ev : kept (onKeydown ev).
Proof. unfold onKeydown. by_steps. Qed.

Lemma kept_onClick ev : kept (onClick ev).
Proof. unfold onClick. by_steps. Qed.

Local Hint Resolve kept_commitCallback kept_onKeydown kept_onClick : keeps.

Lemma handlersFor_without_drop (opts : Options) (name : string) (h : Handler) :
  updateComboStructure opts = false -> h ∈ handlersFor opts name ->
  h = HPointerDown \/ h = HPointerMove \/ h = HClick \/ h = HPointerUp \/ h = HKeydown.
Proof.
  intros Hu. unfold handlersFor, getEvents. rewrite Hu.
  cbn [app List.filter map fst snd].
  repeat match goal with
         | |- context [String.eqb ?a name] => destruct (String.eqb a name)
         end; cbn [map snd];
    rewrite ?elem_of_cons, ?elem_of_nil; intuition auto.
Qed.

Lemma kept_step i : kept (step i).
Proof.
  destruct i; unfold step, onDocumentMouseup, onSettle; by_steps.
  match goal with
  | Hs : parents_kept _ ?s, Hin : _ ∈ handlersFor (options ?s) _ |- _ =>
      apply handlersFor_without_drop in Hin; [|apply Hs];
      destruct Hin as [-> | [-> | [-> | [-> | ->]]]]; simpl; by_steps
  end.
Qed.

Lemma kept_run inputs s : parents_kept g0 s -> parents_kept g0 (run inputs s).
Proof.
  revert s. induction inputs as [|i r IH]; intros s H; simpl; [exact H|].
  apply IH. pose proof (kept_step i s H) as Hs.
  destruct (step i s); exact Hs.
Qed.

End ParentsKept.

(** ** The live drag of the demo *)

Lemma armed_after_pointerdown (g : Graph) (d : ModelData) (down : IG6GraphEvent) :
  nodes g !! "a" = Some d ->
  armed g d (ev_canvas down)
    (final (step (Dispatch "node:pointerdown" down)
              (new_DragNode Demo.live_options g))).
Proof.
  intros Ha. destruct down as [[x y] i k h n].
  repeat split; try reflexivity. exact Ha.
Qed.

Lemma beginDrag_live (g : Graph) (d : ModelData) (first : IG6GraphEvent)
    (s : DragNode) :
  options s = constructor_options Demo.live_options ->
  nodes (graph s) !! "a" = Some d ->
  ev_itemId first = Some "a" ->
  "a" ∉ findIdByState (graph s) "selected" ->
  post (beginDrag first false s)
    (fun _ s' =>
       s' = set_origin (px (ev_canvas first)) (py (ev_canvas first))
              (set_throttledMoveNodes Direct
                 (set_graph (frontItem ["a"] (graph s))
                    (set_originPositions
                       [mkPosition "a" (d_x d) (d_y d) None None None None]
                       (set_selectedNodeIds ["a"] (set_dragging true s))))))
    (fun _ => False).
Proof.
  intros Ho Ha Hitem Hsel.
  assert (Hincl : includes (findIdByState (graph s) "selected") "a" = false)
    by (apply bool_decide_eq_false_2, Hsel).
  assert (Hnode : forall g', nodes g' = nodes (graph s) ->
                         getNodeData g' "a" = Some (mkNode "a" d))
    by (intros g' Hg'; unfold getNodeData; rewrite Hg', Ha; reflexivity).
  unfold beginDrag, originPosition.
  rewrite Hitem.
  repeat first
    [ rewrite Hincl | erewrite Hnode by reflexivity
    | rewrite Ho
    | apply post_bind | progress simpl ].
  reflexivity.
Qed.

Lemma first_move (g : Graph) (d : ModelData) (pd : Point) (first : IG6GraphEvent)
    (s : DragNode) :
  armed g d pd s ->
  ev_itemId first = Some "a" ->
  "a" ∉ findIdByState g "selected" ->
  passes_threshold pd first ->
  dragging_a first (d_x d) (d_y d) (final (step (Dispatch "pointermove" first) s)).
Proof.
  intros (Ho & Hd & Hpd & Ha & Hf & Hpc & He & Hn & Hne & Hc) Hitem Hsel Hth.
  enough (P : post (onPointerMove first s)
                (fun _ => dragging_a first (d_x d) (d_y d)) (fun _ => False)).
  { unfold step. erewrite bind_ok by reflexivity. rewrite Ho.
    change (handlersFor _ _) with [HPointerMove].
    cbn [forEach handle]. unfold mbind at 1, M_bind.
    destruct (onPointerMove first s) as [[] s2|]; [exact P | contradiction]. }
  unfold onPointerMove, transientEnabled.
  apply post_bind; simpl. rewrite Hpd; simpl. rewrite Hth.
  apply post_bind; simpl. rewrite Ho; simpl.
  apply post_bind; simpl. rewrite Hd.
  apply post_bind.
  eapply post_mono;
    [apply (beginDrag_live g d first s Ho Ha Hitem); rewrite Hf; exact Hsel | | auto].
  intros [] s' ->.
  unfold callThrottledMoveNodes, runMoveNodes, moveNodes.
  repeat first [ rewrite Ho | apply post_bind | progress simpl ].
  repeat split; try assumption.
  apply is_Some_updateNodePosition. simpl. rewrite Ha. eauto.
Qed.

Lemma dragging_a_move (first event : IG6GraphEvent) (x y : Q) (s : DragNode) :
  dragging_a first x y s ->
  dragging_a first x y (final (step (Dispatch "pointermove" event) s)).
Proof.
  intros (Ho & Hd & Hps & Hox & Hoy & Hsome & Hpc & He & Hn & Hne & Hc & Hthr).
  assert (HJ : dragging_a first x y s) by (repeat split; assumption).
  enough (P : post (onPointerMove event s) (fun _ => dragging_a first x y)
                (fun _ => False)).
  { unfold step. erewrite bind_ok by reflexivity. rewrite Ho.
    change (handlersFor _ _) with [HPointerMove].
    cbn [forEach handle]. unfold mbind at 1, M_bind.
    destruct (onPointerMove event s) as [[] s2|]; [exact P | contradiction]. }
  unfold onPointerMove, transientEnabled, callThrottledMoveNodes, runMoveNodes,
    moveNodes.
  apply post_bind; simpl.
  destruct (pointerDown s) as [pd|]; simpl; [|exact HJ].
  destruct (Qltb (Qabs (px pd - px (ev_canvas event))) 1
            && Qltb (Qabs (py pd - py (ev_canvas event))) 1); simpl; [exact HJ|].
  repeat first
    [ rewrite Ho | rewrite Hd | rewrite Hps | rewrite Hthr
    | apply post_bind | progress simpl ].
  repeat split; try assumption.
  apply is_Some_updateNodePosition. exact Hsome.
Qed.

Lemma dragging_a_moves (first : IG6GraphEvent) (x y : Q)
    (moves : list IG6GraphEvent) (s : DragNode) :
  dragging_a first x y s ->
  dragging_a first x y (run (map (Dispatch "pointermove") moves) s).
Proof.
  revert s. induction moves as [|m r IH]; intros s H; simpl; [exact H|].
  apply IH, dragging_a_move, H.
Qed.

Lemma run_app (l1 l2 : list Input) (s : DragNode) :
  run (l1 ++ l2) s = run l2 (run l1 s).
Proof. revert s. induction l1 as [|i l1 IH]; intros s; simpl; [reflexivity | apply IH]. Qed.

Lemma dragging_a_release (first up : IG6GraphEvent) (x y : Q) (s : DragNode) :
  dragging_a first x y s ->
  let s' := run [Dispatch "node:pointerup" up; Settle] s in
  nodes (graph s') !! "a"
  = move_to (mkPoint (x + (px (ev_canvas up) - px (ev_canvas first) + hundredth))
               (y + (py (ev_canvas up) - py (ev_canvas first) + hundredth)))
    <$> nodes (graph s) !! "a" /\
  last (log (graph s')) = Some (Emit "dragend" ["a"]).
Proof.
  intros (Ho & Hd & Hps & Hox & Hoy & Hsome & Hpc & He & Hn & Hne & Hc & Hthr).
  destruct s; simpl in *; subst.
  split.
  - simpl. apply lookup_alter_eq.
  - simpl. apply last_snoc.
Qed.

(** C1, amended: the release commits [a] at (250.01, 70.01), the
    snapshot plus the delta plus the 0.01 [onPointerUp] adds on each
    axis, and the completion callback emits ["dragend"] for [a]. *)
Theorem drag_a_ends_at_250_01_70_01 (g : Graph) (d : ModelData)
    (down first up : IG6GraphEvent) (moves : list IG6GraphEvent) :
  nodes g !! "a" = Some d -> d_x d = 200%Q -> d_y d = 100%Q ->
  ev_itemId first = Some "a" ->
  "a" ∉ findIdByState g "selected" ->
  passes_threshold (ev_canvas down) first ->
  (px (ev_canvas up) - px (ev_canvas first) == 50)%Q ->
  (py (ev_canvas up) - py (ev_canvas first) == -30)%Q ->
  let s :=
    run ([Dispatch "node:pointerdown" down; Dispatch "pointermove" first]
         ++ map (Dispatch "pointermove") moves
         ++ [Dispatch "node:pointerup" up; Settle])
      (new_DragNode Demo.live_options g) in
  exists d',
    nodes (graph s) !! "a" = Some d' /\
    (d_x d' == 250 + hundredth)%Q /\ (d_y d' == 70 + hundredth)%Q /\
    last (log (graph s)) = Some (Emit "dragend" ["a"]).
Proof.
  intros Ha Hx Hy Hitem Hsel Hth Hdx Hdy s. subst s.
  rewrite !run_app.
  pose proof (armed_after_pointerdown g d down Ha) as H1.
  pose proof (first_move g d _ first _ H1 Hitem Hsel Hth) as H2.
  pose proof (dragging_a_moves first _ _ moves _ H2) as H3.
  pose proof (dragging_a_release first up _ _ _ H3) as [H4 H5].
  change (run [Dispatch "node:pointerdown" down; Dispatch "pointermove" first]
            (new_DragNode Demo.live_options g))
    with (final (step (Dispatch "pointermove" first)
                   (final (step (Dispatch "node:pointerdown" down)
                             (new_DragNode Demo.live_options g))))).
  set (sJ := run (map (Dispatch "pointermove") moves) _) in *.
  destruct H3 as (_ & _ & _ & _ & _ & [d0 Hd0] & _).
  rewrite Hd0 in H4. simpl in H4.
  eexists. split; [exact H4|]. simpl. rewrite Hx, Hy.
  split; [rewrite Hdx; ring|]. split; [rewrite Hdy; ring | exact H5].
Qed.


Lemma handlersFor_combo_drop (opts : Options) :
  updateComboStructure opts = true ->
  handlersFor opts "combo:drop" = [HDropCombo].
Proof. intros H. unfold handlersFor, getEvents. rewrite H. reflexivity. Qed.

Lemma handlersFor_no_drop (opts : Options) (name : string) :
  updateComboStructure opts = false ->
  name ∈ ["node:drop"; "combo:drop"; "canvas:drop"] ->
  handlersFor opts name = [].
Proof.
  intros H Hname. unfold handlersFor, getEvents. rewrite H.
  repeat (apply elem_of_cons in Hname as [-> | Hname]; [reflexivity|]).
  inversion Hname.
Qed.

(** C8: with [updateComboStructure] on, a drop on combo [c] runs
    [onDropCombo]: it commits the positions as a pointer-up does, and
    after that every dragged node the store holds has [c] as its parent,
    through a data update for each whose parent differed; the other nodes
    keep their parent.  With [updateComboStructure] off no handler is
    registered for a drop, a drop leaves the behaviour as it is, and no
    sequence of inputs changes the parent of any node. *)
Theorem drop_on_combo_sets_the_parent (s : DragNode) (event : IG6GraphEvent)
    (c : ID) :
  ev_itemId event = Some c ->
  (updateComboStructure (options s) = true ->
   exists s',
     step (Dispatch "combo:drop" event) s = Ok tt s' /\
     (forall p, p ∈ originPositions s -> is_Some (nodes (graph s) !! p_id p) ->
        parent_of (graph s') (p_id p) = Some (Some c)) /\
     (forall i, i ∉ map p_id (originPositions s) ->
        parent_of (graph s') i = parent_of (graph s) i) /\
     exists updates,
       log (graph s')
       = log (graph s)
         ++ [StopPropagation; UpdateNodePosition (committed event s) (Some true)]
         ++ updates /\
       Forall (fun e => is_updateData e = true) updates /\
       (forall p, p ∈ originPositions s -> is_Some (nodes (graph s) !! p_id p) ->
          parent_of (graph s) (p_id p) <> Some (Some c) ->
          UpdateData [(p_id p, Some c)] ∈ updates)) /\
  (updateComboStructure (options s) = false ->
   (forall name, name ∈ ["node:drop"; "combo:drop"; "canvas:drop"] ->
      step (Dispatch name event) s = Ok tt s) /\
   (forall inputs i,
      parent_of (graph (run inputs s)) i = parent_of (graph s) i)).
Proof.
  intros Hitem. split.
  - intros Hu.
    set (s1 := set_pendingCommits
                 (pendingCommits s ++ [(transientEnabled s, originPositions s)])
                 (set_graph
                    (updateNodePosition (committed event s) (Some true)
                       (record StopPropagation (graph s)))
                    (set_selectedNodeIds []
                       (set_dragging false (set_pointerDown None s))))).
    destruct (adopt_loop (Some c) (originPositions s) s1)
      as (g2 & H2 & A2 & B2 & D2 & O2 & u2 & L2 & F2 & U2).
    assert (Hdrop : onDropCombo event s
                    = Ok tt (set_originPositions [] (set_graph g2 s1))).
    { unfold onDropCombo. rewrite Hitem.
      erewrite bind_ok by reflexivity.
      erewrite bind_ok by apply onPointerUp_eq.
      erewrite bind_ok by reflexivity.
      erewrite bind_ok by exact H2.
      reflexivity. }
    exists (set_originPositions [] (set_graph g2 s1)). split.
    { unfold step. erewrite bind_ok by reflexivity.
      rewrite (handlersFor_combo_drop _ Hu). cbn [forEach handle].
      erewrite bind_ok by exact Hdrop. reflexivity. }
    assert (Hsome : forall i, is_Some (nodes (graph s) !! i) ->
                          is_Some (nodes (graph s1) !! i))
      by (intros i Hi;
          apply (is_Some_updateNodePosition (committed event s) (Some true)
                   (record StopPropagation (graph s)) i); exact Hi).
    assert (Hparent : forall i, parent_of (graph s1) i = parent_of (graph s) i)
      by (intros i;
          apply (parent_of_updateNodePosition (committed event s) (Some true)
                   (record StopPropagation (graph s)) i)).
    assert (Hin : forall p, p ∈ originPositions s ->
                        p_id p ∈ map p_id (originPositions s))
      by (intros p Hp; apply list_elem_of_fmap; exists p; split;
          [reflexivity | exact Hp]).
    change (graph (set_originPositions [] (set_graph g2 s1))) with g2.
    repeat split.
    + intros p Hp Hs. apply B2; auto.
    + intros i Hi. rewrite (O2 i Hi). apply Hparent.
    + exists u2. repeat split.
      * rewrite L2.
        change (log (graph s1))
          with ((log (graph s) ++ [StopPropagation])
                ++ [UpdateNodePosition (committed event s) (Some true)]).
        rewrite <- !app_assoc. reflexivity.
      * exact F2.
      * intros p Hp Hs Hne. apply U2; auto. rewrite Hparent. exact Hne.
  - intros Hu. split.
    + intros name Hname. unfold step. erewrite bind_ok by reflexivity.
      rewrite (handlersFor_no_drop _ _ Hu Hname). reflexivity.
    + intros inputs i.
      apply (kept_run (graph s) inputs s). split; [exact Hu | reflexivity].
Qed.

(** ** Every gesture *)

Lemma constructor_delegate (o : DragNodeOptions) :
  enableDelegate (constructor_options o) = true ->
  enableTransient (constructor_options o) = false /\
  hideRelatedEdges (constructor_options o) = false.
Proof.
  destruct o as [t d st th h ss en u sb].
  unfold constructor_options, assign; simpl.
  destruct (default false d) eqn:Hd, (default true t) eqn:Ht; simpl;
    rewrite ?Hd, ?Ht; simpl; intros H; split; congruence.
Qed.

Lemma coherent_nil : coherent [].
Proof. intros p q Hp. inversion Hp. Qed.

Lemma snapshot_of_coherent store ps : snapshot_of store ps -> coherent ps.
Proof.
  intros H p q Hp Hq Hid.
  destruct (H p Hp) as (d & Hd & -> & ->).
  destruct (H q Hq) as (d' & Hd' & -> & ->).
  rewrite Hid, Hd' in Hd. injection Hd as ->. split; reflexivity.
Qed.

Lemma originPositionsOf_snapshot (ids : list ID) (s : DragNode) :
  post (originPositionsOf ids s)
    (fun ps s' =>
       options s' = options s /\
       originPositions s' = originPositions s /\
       nodes (graph s') = nodes (graph s) /\
       snapshot_of (nodes (graph s)) ps)
    (fun _ => False).
Proof.
  revert s. induction ids as [|i r IH]; intros s.
  - simpl. repeat split. intros p Hp. inversion Hp.
  - simpl. apply post_bind. unfold originPosition.
    apply post_bind; simpl. apply post_bind; simpl.
    unfold getNodeData.
    destruct (nodes (graph s) !! i) as [d|] eqn:Hd; simpl.
    + destruct (if enableDelegate (options s) then getRenderBBox (graph s) i else None);
        simpl; apply post_bind;
        (eapply post_mono; [apply IH | | auto]);
        intros ps s' (Hopts & Ho & Hn & Hs); simpl; repeat split; auto;
        intros p [-> | Hp]%elem_of_cons; auto;
        exists d; simpl; auto.
    + repeat (apply post_bind; simpl).
      eapply post_mono; [apply IH | | auto].
      intros ps s' (Hopts & Ho & Hn & Hs); simpl in *. repeat split; auto.
Qed.

Section WellFormed.

Variable o : DragNodeOptions.

Local Abbreviation wf := (keeps (well_formed o) (well_formed o)).

Local Ltac frame :=
  unfold well_formed in *; simpl in *; intuition (auto using coherent_nil).

Local Ltac snapshot_bind :=
  idtac;
  lazymatch goal with
  | |- keeps _ _ (mbind _ (originPositionsOf ?ids)) =>
      apply (keeps_bind_val _ _ coherent);
      [ let s := fresh "s" in
        let H := fresh "H" in
        intros s H;
        eapply post_mono; [apply (originPositionsOf_snapshot ids s) | | contradiction];
        let Hopts := fresh in
        let Ho := fresh in
        let Hs := fresh in
        intros ? ? (Hopts & Ho & _ & Hs); split;
        [ unfold well_formed in *; rewrite Hopts, Ho; exact H
        | eapply snapshot_of_coherent; exact Hs ]
      | intros ? ? ]
  end.

Local Ltac by_steps := keeps_with snapshot_bind; try solve [intros; frame].

Lemma wf_onPointerDown ev : wf (onPointerDown ev).
Proof. unfold onPointerDown. by_steps. Qed.

Lemma wf_getComboTreeItems sel : wf (getComboTreeItems sel).
Proof.
  intros s H. unfold getComboTreeItems.
  destruct (updateComboStructure (options s)); [exact H|].
  destruct (collectAncestors (graph s) sel); exact H.
Qed.

Lemma wf_cacheShapeIds ids : wf (cacheShapeIds ids).
Proof. unfold cacheShapeIds. by_steps. Qed.

Lemma wf_moveNodes dx dy t u cb : wf (moveNodes dx dy t u cb).
Proof. unfold moveNodes. by_steps. Qed.

Local Hint Resolve wf_onPointerDown wf_getComboTreeItems wf_cacheShapeIds
  wf_moveNodes : keeps.

Lemma wf_callThrottledMoveNodes now a : wf (callThrottledMoveNodes now a).
Proof. unfold callThrottledMoveNodes, runMoveNodes. by_steps. Qed.

Lemma wf_onThrottleTimer now : wf (onThrottleTimer now).
Proof. unfold onThrottleTimer, runMoveNodes. by_steps. Qed.

Lemma wf_moveDelegate dx dy : wf (moveDelegate dx dy).
Proof. unfold moveDelegate. by_steps. Qed.

Lemma wf_clearDelegate : wf clearDelegate.
Proof. unfold clearDelegate. by_steps. Qed.

Lemma wf_clearTransientItems ps : wf (clearTransientItems ps).
Proof. unfold clearTransientItems. by_steps. Qed.

Lemma wf_showCached i : wf (showCached i).
Proof. unfold showCached. by_steps. Qed.

Local Hint Resolve wf_callThrottledMoveNodes wf_onThrottleTimer
  wf_moveDelegate wf_clearDelegate wf_clearTransientItems wf_showCached : keeps.

Lemma wf_restoreHiddenItems ps : wf (restoreHiddenItems ps).
Proof. unfold restoreHiddenItems. by_steps. Qed.

Lemma wf_clearState : wf clearState.
Proof. unfold clearState. by_steps. Qed.

Lemma wf_beginDrag ev t : wf (beginDrag ev t).
Proof. unfold beginDrag. by_steps. Qed.

Lemma wf_updateNearEdges : wf updateNearEdges.
Proof. unfold updateNearEdges. by_steps. Qed.

Local Hint Resolve wf_restoreHiddenItems wf_clearState wf_beginDrag
  wf_updateNearEdges : keeps.

Lemma wf_onPointerMove ev : wf (onPointerMove ev).
Proof. unfold onPointerMove. by_steps. Qed.

Lemma wf_onPointerUp ev : wf (onPointerUp ev).
Proof. unfold onPointerUp. by_steps. Qed.

Local Hint Resolve wf_onPointerMove wf_onPointerUp : keeps.

Lemma wf_commitCallback c ps : wf (commitCallback c ps).
Proof. unfold commitCallback. by_steps. Qed.

Local Hint Resolve wf_commitCallback : keeps.

Lemma wf_onKeydown ev : wf (onKeydown ev).
Proof. unfold onKeydown. by_steps. Qed.

Lemma wf_onDropNode ev : wf (onDropNode ev).
Proof. unfold onDropNode. by_steps. Qed.

Lemma wf_onDropCombo ev : wf (onDropCombo ev).
Proof. unfold onDropCombo. by_steps. Qed.

Lemma wf_onDropCanvas ev : wf (onDropCanvas ev).
Proof. unfold onDropCanvas. by_steps. Qed.

Local Hint Resolve wf_onKeydown wf_onDropNode wf_onDropCombo
  wf_onDropCanvas : keeps.

Lemma wf_step i : wf (step i).
Proof.
  destruct i; unfold step, onDocumentMouseup, onSettle, onClick, handle;
    by_steps.
Qed.

Lemma well_formed_run (g : Graph) (inputs : list Input) :
  well_formed o (run inputs (new_DragNode o g)).
Proof.
  assert (G : forall s, well_formed o s -> well_formed o (run inputs s)).
  { induction inputs as [|i r IH]; intros s H; simpl; [exact H|].
    apply IH. pose proof (wf_step i s H) as Hs.
    destruct (step i s); exact Hs. }
  apply G. split; [reflexivity | apply coherent_nil].
Qed.

End WellFormed.

(** The release itself is not throttled: at any point of any gesture,
    whatever the throttle holds and although a move arriving at the time
    of the release would be held back because the window has not
    elapsed, [onPointerUp] writes the snapshot plus its delta to the real
    nodes.  What the trailing call of the throttle does after that is
    the next theorem. *)
Lemma pointer_up_commits_inside_the_throttle_window
    (o : DragNodeOptions) (g : Graph) (inputs : list Input)
    (event : IG6GraphEvent) (wait previous : Z) (timeout : bool)
    (pending : option MoveArgs) (a : MoveArgs) :
  let s := run inputs (new_DragNode o g) in
  throttledMoveNodes s = Throttled wait previous timeout pending ->
  0 < wait - (ev_now event - previous) <= wait ->
  graph (final (callThrottledMoveNodes (ev_now event) a s)) = graph s /\
  exists s',
    onPointerUp event s = Ok tt s' /\
    log (graph s')
    = log (graph s) ++ [UpdateNodePosition (committed event s) (Some true)] /\
    (forall p, p ∈ originPositions s ->
       nodes (graph s') !! p_id p
       = move_to
           (mkPoint (p_x p + (px (ev_canvas event) - originX s + hundredth))
                    (p_y p + (py (ev_canvas event) - originY s + hundredth)))
         <$> nodes (graph s) !! p_id p) /\
    pendingCommits s' = pendingCommits s ++ [(transientEnabled s, originPositions s)].
Proof.
  intros s Hthr Hwin.
  apply (onPointerUp_commits s event wait previous timeout pending a Hthr Hwin).
  apply (well_formed_run o g inputs).
Qed.

Section NodesStay.

Variable store : gmap string ModelData.

Local Ltac frame := unfold nodes_are in *; simpl in *; congruence.

Local Ltac by_steps := keeps_auto; try solve [intros; frame].

Lemma commitCallback_nodes c ps :
  keeps (nodes_are store) (nodes_are store) (commitCallback c ps).
Proof.
  unfold commitCallback, clearTransientItems, clearDelegate, restoreHiddenItems,
    showCached, clearState.
  by_steps.
Qed.

End NodesStay.

(** C3 does not hold of the code: [onPointerUp] commits but does not
    cancel the trailing call of the throttle.  At any point of any
    gesture where a live move was held back and the trailing timer is
    armed, the release writes the snapshot plus its own delta and leaves
    the timer armed and the snapshot in place; when the timer fires
    before the completion callback, the held-back move is applied after
    the commit and every dragged node ends on the snapshot plus the delta
    of that earlier move; the completion callback moves no node, so this
    is where the gesture leaves them. *)
Theorem trailing_call_overwrites_the_release
    (o : DragNodeOptions) (g : Graph) (inputs : list Input)
    (event : IG6GraphEvent) (wait previous now : Z) (a : MoveArgs) :
  let s := run inputs (new_DragNode o g) in
  let released := final (onPointerUp event s) in
  let fired := final (onThrottleTimer now released) in
  let settled :=
    final (commitCallback (transientEnabled s) (originPositions s) fired) in
  throttledMoveNodes s = Throttled wait previous true (Some a) ->
  a_transient a = false ->
  (forall p, p ∈ originPositions s ->
     nodes (graph released) !! p_id p
     = move_to
         (mkPoint (p_x p + (px (ev_canvas event) - originX s + hundredth))
                  (p_y p + (py (ev_canvas event) - originY s + hundredth)))
       <$> nodes (graph s) !! p_id p) /\
  throttledMoveNodes released = Throttled wait previous true (Some a) /\
  originPositions released = originPositions s /\
  log (graph fired)
  = log (graph s)
    ++ [UpdateNodePosition (committed event s) (Some true);
        UpdateNodePosition (heldBack a s) (Some (a_upsertAncestors a))] /\
  (forall p, p ∈ originPositions s ->
     nodes (graph fired) !! p_id p
     = move_to (mkPoint (p_x p + a_deltaX a) (p_y p + a_deltaY a))
       <$> nodes (graph s) !! p_id p) /\
  nodes (graph settled) = nodes (graph fired).
Proof.
  intros s released fired settled Hthr Ha.
  destruct (well_formed_run o g inputs) as [_ Hcoh]. fold s in Hcoh.
  clearbody s.
  assert (Hsettled : nodes (graph settled) = nodes (graph fired)).
  { subst settled.
    pose proof (commitCallback_nodes (nodes (graph fired)) (transientEnabled s)
                  (originPositions s) fired eq_refl) as H.
    destruct (commitCallback _ _ fired); exact H. }
  clearbody settled.
  assert (Hfired :
    fired
    = set_graph
        (updateNodePosition (heldBack a s) (Some (a_upsertAncestors a))
           (updateNodePosition (committed event s) (Some true) (graph s)))
        (set_throttledMoveNodes (Throttled wait now false None)
           (set_pendingCommits
              (pendingCommits s ++ [(transientEnabled s, originPositions s)])
              (set_graph
                 (updateNodePosition (committed event s) (Some true) (graph s))
                 (set_selectedNodeIds []
                    (set_dragging false (set_pointerDown None s))))))).
  { subst fired released. rewrite onPointerUp_eq. cbn [final].
    unfold onThrottleTimer.
    erewrite bind_ok by reflexivity.
    change (throttledMoveNodes (set_pendingCommits _ _))
      with (throttledMoveNodes s).
    rewrite Hthr.
    erewrite bind_ok by reflexivity.
    unfold runMoveNodes, moveNodes. rewrite Ha.
    erewrite bind_ok by reflexivity. cbv iota.
    erewrite bind_ok by reflexivity.
    reflexivity. }
  clearbody fired. subst fired released.
  rewrite onPointerUp_eq. cbn [final].
  split.
  { intros p Hp.
    apply (place_snapshot
             (fun q => mkPoint (p_x q + (px (ev_canvas event) - originX s + hundredth))
                         (p_y q + (py (ev_canvas event) - originY s + hundredth))));
      [|exact Hp].
    intros q Hq Hid. destruct (Hcoh q p Hq Hp Hid) as [-> ->]. reflexivity. }
  split; [exact Hthr|]. split; [reflexivity|].
  split.
  { cbn [graph set_graph log updateNodePosition record with_store].
    rewrite <- app_assoc. reflexivity. }
  split; [|exact Hsettled].
  intros p Hp.
  cbn [graph set_graph set_throttledMoveNodes set_pendingCommits nodes
       updateNodePosition record with_store].
  unfold heldBack, committed.
  rewrite (place_snapshot
             (fun q => mkPoint (p_x q + a_deltaX a) (p_y q + a_deltaY a))
             (originPositions s) p)
    by (try exact Hp; intros q Hq Hid;
        destruct (Hcoh q p Hq Hp Hid) as [-> ->]; reflexivity).
  rewrite (place_snapshot
             (fun q => mkPoint (p_x q + (px (ev_canvas event) - originX s + hundredth))
                         (p_y q + (py (ev_canvas event) - originY s + hundredth)))
             (originPositions s) p)
    by (try exact Hp; intros q Hq Hid;
        destruct (Hcoh q p Hq Hp Hid) as [-> ->]; reflexivity).
  destruct (nodes (graph s) !! p_id p); reflexivity.
Qed.

(** C4: at any point of any gesture with transient drawing and the
    delegate both off, Escape completes, puts every dragged node back on
    its snapshot position and leaves the other nodes alone, removes the
    delegate rectangle and the transient primitives of the drag, shows
    every hidden item and empties the hidden lists, emits nothing, and
    clears the snapshot. *)
Theorem escape_rolls_back (o : DragNodeOptions) (g : Graph)
    (inputs : list Input) (event : IG6GraphEvent) :
  let s := run inputs (new_DragNode o g) in
  ev_key event = "Escape" \/ ev_key event = "Esc" ->
  transientEnabled s = false ->
  enableDelegate (options s) = false ->
  exists s',
    onKeydown event s = Ok tt s' /\
    (forall p, p ∈ originPositions s ->
       nodes (graph s') !! p_id p
       = move_to (mkPoint (p_x p) (p_y p)) <$> nodes (graph s) !! p_id p) /\
    (forall i, i ∉ map p_id (originPositions s) ->
       nodes (graph s') !! i = nodes (graph s) !! i) /\
    ((KRect, DELEGATE_SHAPE_ID) ∉ transients (graph s')) /\
    (forall t, t ∈ transientTargets s (originPositions s) ->
       t ∉ transients (graph s')) /\
    hiddenEdges s' = [] /\ hiddenRelatedNodes s' = [] /\
    hiddenNearEdges s' = [] /\ hiddenComboTreeItems s' = [] /\
    (forall i, i ∈ hiddenIds s -> getItemVisible (graph s') i = true) /\
    List.filter is_emit (log (graph s')) = List.filter is_emit (log (graph s)) /\
    originPositions s' = [].
Proof.
  intros s Hkey Hlive Hdel.
  apply (onKeydown_rolls_back s event Hkey Hlive Hdel).
  apply (well_formed_run o g inputs).
Qed.





(** ** The theorems at the demo *)

Lemma drag_a_ends_at_250_01_70_01_witness :
  exists d',
    nodes (graph (run Demo.drag_a
                    (new_DragNode Demo.live_options Demo.demo_graph))) !! "a"
    = Some d' /\
    (d_x d' == 250 + hundredth)%Q /\ (d_y d' == 70 + hundredth)%Q /\
    last (log (graph (run Demo.drag_a
                        (new_DragNode Demo.live_options Demo.demo_graph))))
    = Some (Emit "dragend" ["a"]).
Proof.
  apply (drag_a_ends_at_250_01_70_01 Demo.demo_graph (Demo.plain 200 100)
           (Demo.pointer 200 100 (Some "a") 1000)
           (Demo.pointer 202 100 (Some "a") 1010)
           (Demo.pointer 252 70 (Some "a") 1030)
           [Demo.pointer 230 90 (Some "a") 1020]).
  - vm_compute. reflexivity.
  - reflexivity.
  - reflexivity.
  - reflexivity.
  - apply not_elem_of_nil.
  - vm_compute. reflexivity.
  - vm_compute. reflexivity.
  - vm_compute. reflexivity.
Defined.

Lemma pointer_up_commits_inside_the_throttle_window_witness :
  let s := run Demo.start_dragging_a
             (new_DragNode Demo.throttled_options Demo.demo_graph) in
  let up := Demo.pointer 252 70 (Some "a") 1020 in
  graph (final (callThrottledMoveNodes 1020 (mkArgs 40 (-20) false false) s))
  = graph s /\
  exists s',
    onPointerUp up s = Ok tt s' /\
    log (graph s')
    = log (graph s) ++ [UpdateNodePosition (committed up s) (Some true)] /\
    (forall p, p ∈ originPositions s ->
       nodes (graph s') !! p_id p
       = move_to
           (mkPoint (p_x p + (px (ev_canvas up) - originX s + hundredth))
                    (p_y p + (py (ev_canvas up) - originY s + hundredth)))
         <$> nodes (graph s) !! p_id p) /\
    pendingCommits s' = pendingCommits s ++ [(transientEnabled s, originPositions s)].
Proof.
  eapply (pointer_up_commits_inside_the_throttle_window
            Demo.throttled_options Demo.demo_graph Demo.start_dragging_a
            (Demo.pointer 252 70 (Some "a") 1020)).
  - vm_compute. reflexivity.
  - vm_compute. split; [reflexivity | discriminate].
Defined.

Lemma trailing_call_overwrites_the_release_witness :
  let s0 := new_DragNode Demo.throttled_options Demo.demo_graph in
  let s := run Demo.start_dragging_a s0 in
  let up := Demo.pointer 252 70 (Some "a") 1020 in
  let released := final (onPointerUp up s) in
  let fired := final (onThrottleTimer 1026 released) in
  (nodes (graph released) !! "a"
   = move_to (mkPoint (200 + (252 - 202 + hundredth))
                      (100 + (70 - 100 + hundredth)))
     <$> nodes (graph s) !! "a" /\
   nodes (graph fired) !! "a"
   = move_to (mkPoint (200 + 28) (100 + -10)) <$> nodes (graph s) !! "a") /\
  log (graph (run Demo.release_inside_the_window s0))
  = [AddMouseupListener; FrontItem ["a"];
     UpdateNodePosition [("a", mkPoint (200 + 0) (100 + 0))] (Some false);
     UpdateNodePosition [("a", mkPoint (200 + (252 - 202 + hundredth))
                                  (100 + (70 - 100 + hundredth)))] (Some true);
     UpdateNodePosition [("a", mkPoint (200 + 28) (100 + -10))] (Some false);
     Emit "dragend" ["a"]] /\
  (d_x <$> nodes (graph (run Demo.release_inside_the_window s0)) !! "a",
   d_y <$> nodes (graph (run Demo.release_inside_the_window s0)) !! "a")
  = (Some 228%Q, Some 90%Q).
Proof.
  intros s0 s up released fired.
  assert (Eps : originPositions s = [mkPosition "a" 200 100 None None None None])
    by (vm_compute; reflexivity).
  assert (Ex : originX s = 202%Q) by (vm_compute; reflexivity).
  assert (Ey : originY s = 100%Q) by (vm_compute; reflexivity).
  split; [|split; vm_compute; reflexivity].
  subst s0.
  destruct (trailing_call_overwrites_the_release Demo.throttled_options
              Demo.demo_graph Demo.start_dragging_a up 16 1010 1026
              (mkArgs 28 (-10) false false))
    as (Hup & _ & _ & _ & Hfired & _).
  - vm_compute. reflexivity.
  - reflexivity.
  - fold s in Hup, Hfired. fold released in Hup, Hfired. fold fired in Hfired.
    rewrite Eps, Ex, Ey in Hup. rewrite Eps in Hfired.
    split.
    + apply (Hup (mkPosition "a" 200 100 None None None None)).
      apply list_elem_of_singleton. reflexivity.
    + apply (Hfired (mkPosition "a" 200 100 None None None None)).
      apply list_elem_of_singleton. reflexivity.
Defined.

Lemma escape_rolls_back_witness :
  let s := run Demo.start_dragging_a
             (new_DragNode Demo.hiding_options Demo.demo_graph) in
  exists s',
    onKeydown Demo.escape s = Ok tt s' /\
    nodes (graph s') !! "a"
    = move_to (mkPoint 200 100) <$> nodes (graph s) !! "a" /\
    getItemVisible (graph s') "a2b" = true /\
    List.filter is_emit (log (graph s')) = List.filter is_emit (log (graph s)).
Proof.
  intros s.
  assert (Eps : originPositions s = [mkPosition "a" 200 100 None None None None])
    by (vm_compute; reflexivity).
  assert (Eids : hiddenIds s = ["a2b"; "a2c"; "b"; "c"])
    by (vm_compute; reflexivity).
  destruct (escape_rolls_back Demo.hiding_options Demo.demo_graph
              Demo.start_dragging_a Demo.escape)
    as (s' & H1 & H2 & _ & _ & _ & _ & _ & _ & _ & H3 & H4 & _).
  - left. reflexivity.
  - vm_compute. reflexivity.
  - vm_compute. reflexivity.
  - fold s in H1, H2, H3, H4.
    exists s'. split; [exact H1|]. split.
    + apply (H2 (mkPosition "a" 200 100 None None None None)).
      rewrite Eps. apply list_elem_of_singleton. reflexivity.
    + split; [apply H3; rewrite Eids; left | exact H4].
Defined.


Lemma drop_on_combo_sets_the_parent_witness :
  let s := run Demo.start_dragging_a
             (new_DragNode Demo.live_options Demo.demo_graph) in
  let off := run Demo.start_dragging_a
               (new_DragNode Demo.resize_only_options Demo.demo_graph) in
  let drop := Demo.pointer 252 70 (Some "c1") 1030 in
  (exists s',
     step (Dispatch "combo:drop" drop) s = Ok tt s' /\
     parent_of (graph s') "a" = Some (Some "c1")) /\
  step (Dispatch "combo:drop" drop) off = Ok tt off.
Proof.
  intros s off drop.
  assert (Eps : originPositions s = [mkPosition "a" 200 100 None None None None])
    by (vm_compute; reflexivity).
  assert (Ea : is_Some (nodes (graph s) !! "a"))
    by (vm_compute; eauto).
  split.
  - destruct (drop_on_combo_sets_the_parent s drop "c1" eq_refl) as [H _].
    destruct H as (s' & H1 & H2 & _); [vm_compute; reflexivity|].
    exists s'. split; [exact H1|].
    apply (H2 (mkPosition "a" 200 100 None None None None)).
    + rewrite Eps. apply list_elem_of_singleton. reflexivity.
    + exact Ea.
  - destruct (drop_on_combo_sets_the_parent off drop "c1" eq_refl) as [_ H].
    destruct H as [H1 _]; [vm_compute; reflexivity|].
    apply H1. right. left.
Defined.

(** * Further properties *)

(** ** Escape with transient drawing or the delegate on *)

Lemma show_then_throw_loop (ps : list Position) (s : DragNode) :
  exists g c,
    forEach (map Some ps ++ [None])
      (fun pos => match pos with
                  | Some p => showCached (p_id p)
                  | None => throw
                  end) s
    = TypeError (set_hiddenShapeCache c (set_graph g s)) /\
    tidied [] (map p_id ps) (graph s) g.
Proof.
  revert s. induction ps as [|p ps IH]; intros s.
  - exists (graph s), (hiddenShapeCache s).
    split; [destruct s; reflexivity | apply tidied_refl].
  - set (s1 := set_hiddenShapeCache (delete (p_id p) (hiddenShapeCache s))
                 (set_graph (showItem (p_id p) (hiddenShapeCache s !! p_id p) (graph s)) s)).
    destruct (IH s1) as (g & c & Heq & Ht).
    exists g, c. split.
    + simpl. erewrite bind_ok by reflexivity. exact Heq.
    + apply (tidied_trans [] [] [p_id p] (map p_id ps) _ (graph s1)); [|exact Ht].
      apply tidied_show.
Qed.

Lemma restoreHiddenItems_throws (s : DragNode) :
  transientEnabled s = true ->
  post (restoreHiddenItems None s) (fun _ _ => False) (restore_cut_short s).
Proof.
  intros Hlive. unfold restoreHiddenItems.
  block e_id. all: block n_id. all: block e_id. all: block n_id.
  all: pose proof (tidied_trans _ _ _ _ _ _ _
                     (tidied_trans _ _ _ _ _ _ _
                        (tidied_trans _ _ _ _ _ _ _ T T0) T1) T2) as Tall.
  all: simpl in Tall; rewrite <- !app_assoc in Tall; fold (hiddenIds s) in Tall.
  all: apply post_bind;
    match goal with
    | |- post (read transientEnabled ?st) _ _ =>
        assert (Hst : transientEnabled st = true)
          by (rewrite <- Hlive; apply transientEnabled_eq;
              [reflexivity | apply Tall]);
        cbn [post read]; rewrite Hst
    end.
  all: apply post_bind; cbn [post read from_option];
    match goal with
    | |- post (forEach (map Some ?ps ++ [None]) _ ?st) _ _ =>
        destruct (show_then_throw_loop ps st) as (g' & c' & -> & T')
    end.
  all: simpl in T';
    pose proof (tidied_trans _ _ _ _ _ _ _ Tall T') as Tend;
    simpl in Tend.
  all: unfold restore_cut_short; simpl; repeat split; try assumption;
    try reflexivity; try apply Tend.
Qed.

(** Escape while transient drawing is on: the transients are removed and
    the hidden items and the dragged nodes are shown, then
    [restoreHiddenItems], called without positions, reads [.id] of
    [undefined]; the handler ends in a [TypeError] before [clearState],
    with the press and the snapshot still in place. *)
Theorem escape_throws_when_transient (s : DragNode) (event : IG6GraphEvent) :
  ev_key event = "Escape" \/ ev_key event = "Esc" ->
  transientEnabled s = true ->
  exists s',
    onKeydown event s = TypeError s' /\
    originPositions s' = originPositions s /\
    pointerDown s' = pointerDown s /\ dragging s' = dragging s /\
    nodes (graph s') = nodes (graph s) /\
    ((KRect, DELEGATE_SHAPE_ID) ∉ transients (graph s')) /\
    (forall t, t ∈ transientTargets s (originPositions s) ->
       t ∉ transients (graph s')) /\
    hiddenEdges s' = [] /\ hiddenRelatedNodes s' = [] /\
    hiddenNearEdges s' = [] /\ hiddenComboTreeItems s' = [] /\
    (forall i, i ∈ hiddenIds s ++ map p_id (originPositions s) ->
       getItemVisible (graph s') i = true).
Proof.
  intros Hkey Hlive.
  unfold onKeydown. rewrite (eqb_escape _ Hkey).
  set (s1 := set_graph (drawTransient KRect DELEGATE_SHAPE_ID TRemove (graph s)) s).
  pose proof (tidied_remove KRect DELEGATE_SHAPE_ID (graph s)) as T1.
  destruct (clearTransientItems_clears (originPositions s) s1) as (g2 & H2 & T2).
  assert (Hlive2 : transientEnabled (set_graph g2 s1) = true)
    by (rewrite <- Hlive; apply transientEnabled_eq; [reflexivity | apply T2]).
  pose proof (restoreHiddenItems_throws _ Hlive2) as H3.
  destruct (restoreHiddenItems None (set_graph g2 s1)) as [|s3] eqn:E3;
    [contradiction|].
  destruct H3 as (Ho & Hps & Hpd & Hdr & He & Hn & Hne & Hc & T3). simpl in *.
  destruct T1 as (_ & N1 & M1 & A1 & _ & D1 & _).
  destruct T2 as (R2 & N2 & M2 & A2 & _ & D2 & _).
  destruct T3 as (R3 & N3 & M3 & A3 & _ & _ & V3).
  simpl in *.
  exists s3. split.
  { erewrite bind_ok by reflexivity.
    erewrite bind_ok by reflexivity.
    erewrite bind_ok by exact H2.
    unfold mbind, M_bind. rewrite E3. reflexivity. }
  repeat split; try assumption.
  - congruence.
  - apply A3, A2, D1. left.
  - intros t Ht. apply A3, D2, Ht.
  - intros i Hi. unfold getItemVisible, includes.
    rewrite bool_decide_eq_false_2; [reflexivity | apply V3, Hi].
Qed.

(** Escape in delegate mode, at any point of any gesture: the handler
    completes, removes the rectangle, shows what was hidden and clears
    the snapshot; the nodes, which no frame has moved, are left where
    they are and no position update is issued. *)
Theorem escape_in_delegate_mode_moves_nothing (o : DragNodeOptions) (g : Graph)
    (inputs : list Input) (event : IG6GraphEvent) :
  let s := run inputs (new_DragNode o g) in
  ev_key event = "Escape" \/ ev_key event = "Esc" ->
  enableDelegate (options s) = true ->
  exists s',
    onKeydown event s = Ok tt s' /\
    nodes (graph s') = nodes (graph s) /\
    List.filter is_emit (log (graph s')) = List.filter is_emit (log (graph s)) /\
    ((KRect, DELEGATE_SHAPE_ID) ∉ transients (graph s')) /\
    (forall i, i ∈ hiddenIds s -> getItemVisible (graph s') i = true) /\
    originPositions s' = [].
Proof.
  intros s Hkey Hdel.
  destruct (well_formed_run o g inputs) as [Ho _]. fold s in Ho.
  assert (Htr : enableTransient (options s) = false)
    by (rewrite Ho in *; apply (constructor_delegate o Hdel)).
  assert (Hlive : transientEnabled s = false)
    by (unfold transientEnabled; rewrite Htr; reflexivity).
  clearbody s.
  unfold onKeydown. rewrite (eqb_escape _ Hkey).
  set (s1 := set_graph (drawTransient KRect DELEGATE_SHAPE_ID TRemove (graph s)) s).
  pose proof (tidied_remove KRect DELEGATE_SHAPE_ID (graph s)) as T1.
  destruct (clearTransientItems_clears (originPositions s) s1) as (g2 & H2 & T2).
  assert (Hlive2 : transientEnabled (set_graph g2 s1) = false)
    by (rewrite <- Hlive; apply transientEnabled_eq; [reflexivity | apply T2]).
  pose proof (restoreHiddenItems_restores _ Hlive2) as H3.
  destruct (restoreHiddenItems None (set_graph g2 s1)) as [[] s3|] eqn:E3;
    [|contradiction].
  destruct H3 as (Ho3 & Hps & He & Hn & Hne & Hc & T3). simpl in *.
  assert (Hlive3 : transientEnabled s3 = false)
    by (rewrite <- Hlive; apply transientEnabled_eq;
        [exact Ho3 | destruct T1, T2, T3; simpl in *; congruence]).
  eexists. split.
  { erewrite bind_ok by reflexivity.
    erewrite bind_ok by reflexivity.
    erewrite bind_ok by exact H2.
    erewrite bind_ok by exact E3.
    erewrite bind_ok by reflexivity.
    erewrite bind_ok by reflexivity.
    rewrite Hlive3, Ho3. simpl. rewrite Hdel. reflexivity. }
  simpl.
  destruct T1 as (_ & N1 & M1 & A1 & _ & D1 & _).
  destruct T2 as (R2 & N2 & M2 & A2 & _ & D2 & _).
  destruct T3 as (R3 & N3 & M3 & A3 & _ & _ & V3).
  simpl in *.
  repeat split.
  - congruence.
  - congruence.
  - apply A3, A2, D1. left.
  - intros i Hi. unfold getItemVisible, includes.
    rewrite bool_decide_eq_false_2; [reflexivity | apply V3, Hi].
Qed.

(** ** Live frames *)

(** A frame of a live drag without throttle, at any point of any
    gesture: with transient drawing and the delegate off and
    [throttledMoveNodes] being [moveNodes] itself, a move past the
    threshold writes the snapshot plus the pointer delta to the real
    nodes at once, with no 0.01 added, passing [!updateComboStructure]
    as [upsertAncestors], and hands out no completion callback. *)
Theorem live_frame_tracks_the_pointer (o : DragNodeOptions) (g : Graph)
    (inputs : list Input) (event : IG6GraphEvent) (pd : Point) :
  let s := run inputs (new_DragNode o g) in
  pointerDown s = Some pd -> passes_threshold pd event ->
  dragging s = true -> originPositions s <> [] ->
  transientEnabled s = false -> enableDelegate (options s) = false ->
  throttledMoveNodes s = Direct ->
  exists s',
    onPointerMove event s = Ok tt s' /\
    log (graph s')
    = log (graph s)
      ++ [UpdateNodePosition (tracked event s)
            (Some (negb (updateComboStructure (options s))))] /\
    (forall p, p ∈ originPositions s ->
       nodes (graph s') !! p_id p
       = move_to (mkPoint (p_x p + (px (ev_canvas event) - originX s))
                    (p_y p + (py (ev_canvas event) - originY s)))
         <$> nodes (graph s) !! p_id p) /\
    (forall i, i ∉ map p_id (originPositions s) ->
       nodes (graph s') !! i = nodes (graph s) !! i) /\
    originPositions s' = originPositions s /\
    pendingCommits s' = pendingCommits s.
Proof.
  intros s Hpd Hth Hdrag Hps Hlive Hdel Hthr.
  destruct (well_formed_run o g inputs) as [_ Hcoh]. fold s in Hcoh.
  clearbody s.
  exists (set_graph
            (updateNodePosition (tracked event s)
               (Some (negb (updateComboStructure (options s)))) (graph s)) s).
  split.
  { unfold onPointerMove.
    erewrite bind_ok by reflexivity. rewrite Hpd.
    unfold passes_threshold in Hth. cbv zeta. rewrite Hth.
    erewrite bind_ok by reflexivity. rewrite Hlive.
    erewrite bind_ok by reflexivity. rewrite Hdrag.
    erewrite bind_ok by reflexivity.
    erewrite bind_ok by reflexivity. rewrite Hdrag.
    erewrite bind_ok by reflexivity.
    erewrite bind_ok by reflexivity.
    erewrite bind_ok by reflexivity. rewrite Hdrag.
    destruct (originPositions s) as [|p0 ps0] eqn:Eps; [contradiction|].
    cbn [length bool_decide orb negb].
    rewrite bool_decide_eq_false_2 by discriminate. cbn [orb negb].
    erewrite bind_ok by reflexivity.
    erewrite bind_ok by reflexivity.
    erewrite bind_ok by reflexivity. rewrite Hdel.
    erewrite bind_ok by reflexivity. rewrite Hlive.
    unfold callThrottledMoveNodes.
    erewrite bind_ok by reflexivity. rewrite Hthr.
    unfold runMoveNodes, moveNodes. cbn [a_transient a_deltaX a_deltaY a_upsertAncestors].
    erewrite bind_ok by reflexivity.
    erewrite bind_ok by reflexivity.
    unfold tracked. rewrite Eps. reflexivity. }
  simpl. repeat split.
  - intros p Hp. unfold tracked.
    apply (place_snapshot
             (fun q => mkPoint (p_x q + (px (ev_canvas event) - originX s))
                         (p_y q + (py (ev_canvas event) - originY s))));
      [|exact Hp].
    intros q Hq Hid. destruct (Hcoh q p Hq Hp Hid) as [-> ->]. reflexivity.
  - intros i Hi. apply place_other. unfold tracked.
    rewrite <- list_fmap_compose. exact Hi.
Qed.

(** ** A release without a drag *)

Lemma handlersFor_pointerup (opts : Options) :
  handlersFor opts "node:pointerup" = [HPointerUp].
Proof. unfold handlersFor, getEvents. destruct (updateComboStructure opts); reflexivity. Qed.

Lemma clearTransientItems_idle (s : DragNode) :
  hiddenEdges s = [] -> hiddenNearEdges s = [] -> hiddenComboTreeItems s = [] ->
  clearTransientItems [] s = Ok tt s.
Proof.
  intros He Hne Hc. unfold clearTransientItems.
  erewrite bind_ok by reflexivity. rewrite He.
  erewrite bind_ok by reflexivity.
  erewrite bind_ok by reflexivity. rewrite Hne.
  erewrite bind_ok by reflexivity.
  erewrite bind_ok by reflexivity. rewrite Hc.
  reflexivity.
Qed.

Lemma restoreHiddenItems_idle (s : DragNode) :
  originPositions s = [] ->
  hiddenEdges s = [] -> hiddenRelatedNodes s = [] ->
  hiddenNearEdges s = [] -> hiddenComboTreeItems s = [] ->
  restoreHiddenItems (Some []) s = Ok tt s.
Proof.
  intros Hps He Hn Hne Hc. unfold restoreHiddenItems.
  erewrite bind_ok by reflexivity. rewrite He.
  erewrite bind_ok by reflexivity.
  erewrite bind_ok by reflexivity. rewrite Hn.
  erewrite bind_ok by reflexivity.
  erewrite bind_ok by reflexivity. rewrite Hne.
  erewrite bind_ok by reflexivity.
  erewrite bind_ok by reflexivity. rewrite Hc.
  erewrite bind_ok by reflexivity.
  erewrite bind_ok by reflexivity.
  destruct (transientEnabled s); [|reflexivity].
  erewrite bind_ok by reflexivity. rewrite Hps. reflexivity.
Qed.

Lemma step_pointerup (event : IG6GraphEvent) (s : DragNode) :
  step (Dispatch "node:pointerup" event) s = onPointerUp event s.
Proof.
  unfold step. erewrite bind_ok by reflexivity. rewrite handlersFor_pointerup.
  cbn [forEach handle]. unfold mbind, M_bind.
  destruct (onPointerUp event s) as [[] s'|]; reflexivity.
Qed.

Lemma commitCallback_idle (captured : bool) (s : DragNode) :
  originPositions s = [] ->
  hiddenEdges s = [] -> hiddenRelatedNodes s = [] ->
  hiddenNearEdges s = [] -> hiddenComboTreeItems s = [] ->
  exists s',
    commitCallback captured [] s = Ok tt s' /\
    log (graph s')
    = log (graph s)
      ++ (if enableDelegate (options s)
          then [DrawTransient KRect DELEGATE_SHAPE_ID TRemove] else [])
      ++ (if String.eqb (eventName (options s)) EmptyString
          then [] else [Emit (eventName (options s)) []]) /\
    nodes (graph s') = nodes (graph s) /\
    pendingCommits s' = pendingCommits s.
Proof.
  intros Hps He Hn Hne Hc. unfold commitCallback.
  assert (Hclear : (if captured then clearTransientItems [] else mret tt) s = Ok tt s)
    by (destruct captured;
        [apply clearTransientItems_idle; assumption | reflexivity]).
  erewrite bind_ok by exact Hclear.
  erewrite bind_ok by reflexivity.
  destruct (enableDelegate (options s)) eqn:Hdel;
    destruct (String.eqb (eventName (options s)) EmptyString) eqn:Hname.
  all: eexists; split;
    [ unfold clearDelegate;
      erewrite bind_ok by reflexivity;
      erewrite bind_ok by (apply restoreHiddenItems_idle; assumption);
      cbn [negb];
      erewrite bind_ok by reflexivity;
      reflexivity
    | cbn [set_originPositions set_graph graph log nodes pendingCommits emit
           record with_store drawTransient map];
      rewrite ?app_nil_r, <- ?app_assoc; repeat split; reflexivity ].
Qed.

(** A pointer-up with no drag under way is not ignored: it issues an
    empty position update, and when its completion callback runs the
    delegate rectangle is removed in delegate mode and the completion
    event, when one is named, is emitted with no item id.  No node is
    touched. *)
Theorem release_without_a_drag_still_completes (s : DragNode)
    (event : IG6GraphEvent) :
  originPositions s = [] ->
  hiddenEdges s = [] -> hiddenRelatedNodes s = [] ->
  hiddenNearEdges s = [] -> hiddenComboTreeItems s = [] ->
  pendingCommits s = [] ->
  let s' := run [Dispatch "node:pointerup" event; Settle] s in
  log (graph s') = idle_release_log s /\
  nodes (graph s') = nodes (graph s) /\
  pendingCommits s' = [].
Proof.
  intros Hps He Hn Hne Hc Hpc s'. subst s'.
  unfold run. rewrite step_pointerup, onPointerUp_eq.
  cbn [final]. rewrite Hpc. unfold committed. rewrite Hps. cbn [map app].
  unfold step, onSettle.
  erewrite bind_ok by reflexivity.
  cbn [pendingCommits set_pendingCommits].
  erewrite bind_ok by reflexivity.
  match goal with
  | |- context [commitCallback ?c [] ?st] =>
      destruct (commitCallback_idle c st) as (s' & -> & Hl & Hnodes & Hp);
        [assumption .. |]
  end.
  cbn [final]. rewrite Hl, Hnodes, Hp. unfold idle_release_log.
  cbn [set_pendingCommits set_graph graph options log nodes pendingCommits
       updateNodePosition record with_store place fold_left].
  rewrite <- !app_assoc. repeat split; reflexivity.
Qed.

(** ** Transient frames *)

Section TransientFrames.

Variable store : gmap string ModelData.

Local Abbreviation untouched :=
  (keeps (nodes_untouched store) (nodes_untouched store)).

Local Ltac frame :=
  unfold nodes_untouched, transientEnabled, pending_transient in *; simpl in *;
  intuition (auto; congruence).

Local Ltac norm :=
  idtac;
  match goal with
  | H : nodes_untouched _ ?s |- context [transientEnabled ?s] =>
      rewrite (proj1 H)
  | |- keeps _ _ (if false then _ else _) => cbv iota
  | |- keeps _ _ (if true then _ else _) => cbv iota
  | |- keeps _ _ (if negb true && _ then _ else _) => cbn [negb andb]
  | |- keeps _ _ (if _ && true then _ else _) => rewrite andb_true_r
  end.

Local Ltac by_steps := keeps_with norm; try solve [intros; frame].

Lemma untouched_originPositionsOf ids : untouched (originPositionsOf ids).
Proof.
  induction ids as [|i r IH]; simpl; [by_steps|].
  apply keeps_bind; [unfold originPosition, warn; by_steps|].
  intros p. apply keeps_bind; [exact IH|]. intros ps. by_steps.
Qed.

Lemma untouched_getComboTreeItems sel : untouched (getComboTreeItems sel).
Proof.
  intros s H. unfold getComboTreeItems.
  destruct (updateComboStructure (options s)); [exact H|].
  destruct (collectAncestors (graph s) sel); exact H.
Qed.

Lemma untouched_moveNodes dx dy u : untouched (moveNodes dx dy true u None).
Proof. unfold moveNodes. by_steps. Qed.

Local Hint Resolve untouched_originPositionsOf untouched_getComboTreeItems
  untouched_moveNodes : keeps.

Lemma untouched_callThrottledMoveNodes now dx dy u :
  untouched (callThrottledMoveNodes now (mkArgs dx dy true u)).
Proof.
  unfold callThrottledMoveNodes, runMoveNodes.
  cbn [a_deltaX a_deltaY a_transient a_upsertAncestors]. by_steps.
Qed.

Lemma untouched_onThrottleTimer now : untouched (onThrottleTimer now).
Proof.
  intros s H. unfold onThrottleTimer. apply post_bind. cbn [post read].
  destruct (throttledMoveNodes s) as [| |wait previous [] [a|]] eqn:Hf;
    try exact H.
  assert (Ha : a_transient a = true) by (destruct H as (_ & _ & Hp); rewrite Hf in Hp; exact Hp).
  apply post_bind. cbn [post modify].
  unfold runMoveNodes. rewrite Ha.
  apply untouched_moveNodes. frame.
Qed.

Local Hint Resolve untouched_callThrottledMoveNodes untouched_onThrottleTimer
  : keeps.

Lemma untouched_step (i : Input) :
  before_release i = true -> untouched (step i).
Proof.
  destruct i as [name event| |now|]; simpl; try discriminate; intros Hi.
  - apply bool_decide_eq_true in Hi.
    assert (Hh : forall opts,
               handlersFor opts name = [HPointerDown] \/
               handlersFor opts name = [HPointerMove] \/
               handlersFor opts name = [HKeydown]).
    { intros opts. unfold handlersFor, getEvents.
      repeat (apply elem_of_cons in Hi as [-> | Hi];
              [destruct (updateComboStructure opts); auto|]).
      inversion Hi. }
    apply keeps_read_bind. intros s0 _.
    destruct (Hh (options s0)) as [-> | [-> | ->]]; cbn [forEach handle];
      (apply keeps_bind; [|intros; apply keeps_ret]).
    + unfold onPointerDown. by_steps.
    + unfold onPointerMove, beginDrag, updateNearEdges, cacheShapeIds,
        moveDelegate.
      by_steps.
    + unfold onKeydown, clearDelegate, clearTransientItems, restoreHiddenItems,
        showCached, clearState.
      by_steps.
  - apply untouched_onThrottleTimer.
Qed.

Lemma untouched_run (inputs : list Input) (s : DragNode) :
  Forall (fun i => before_release i = true) inputs ->
  nodes_untouched store s -> nodes_untouched store (run inputs s).
Proof.
  revert s. induction inputs as [|i r IH]; intros s Hall H; simpl; [exact H|].
  apply Forall_cons in Hall as [Hi Hr].
  apply IH; [exact Hr|]. pose proof (untouched_step i Hi s H) as Hs.
  destruct (step i s); exact Hs.
Qed.

End TransientFrames.

(** With transient drawing on, no press, move, key or trailing call of
    the throttle writes to a node of the store: until the release the
    real nodes stay where they are. *)
Theorem transient_drag_leaves_the_nodes_until_release (o : DragNodeOptions)
    (g : Graph) (inputs : list Input) :
  transientEnabled (new_DragNode o g) = true ->
  Forall (fun i => before_release i = true) inputs ->
  nodes (graph (run inputs (new_DragNode o g))) = nodes g.
Proof.
  intros Ht Hall.
  apply (untouched_run (nodes g) inputs (new_DragNode o g) Hall).
  repeat split. exact Ht.
Qed.

(** ** The completion event *)

Section EventName.

Variable o : DragNodeOptions.
Variable g0 : Graph.

Local Abbreviation configured :=
  (keeps (emits_as_configured o g0) (emits_as_configured o g0)).

Local Ltac named :=
  lazymatch goal with
  | |- named_event _ (Emit _ _) =>
      split; [congruence
             | apply String.eqb_neq, negb_true_iff; congruence]
  | |- _ => exact I
  end.

Local Ltac frame :=
  unfold emits_as_configured in *; simpl in *;
  repeat match goal with
         | H : _ /\ _ |- _ => destruct H
         end;
  split;
  [ congruence
  | first [ assumption
          | eapply log_extends_snoc; [reflexivity | named | eassumption] ] ].

Local Ltac by_steps := keeps_auto; try solve [intros; frame].

Lemma configured_originPositionsOf ids : configured (originPositionsOf ids).
Proof.
  induction ids as [|i r IH]; simpl; [by_steps|].
  apply keeps_bind; [unfold originPosition, warn; by_steps|].
  intros p. apply keeps_bind; [exact IH|]. intros ps. by_steps.
Qed.

Lemma configured_getComboTreeItems sel : configured (getComboTreeItems sel).
Proof.
  intros s H. unfold getComboTreeItems.
  destruct (updateComboStructure (options s)); [exact H|].
  destruct (collectAncestors (graph s) sel); exact H.
Qed.

Local Hint Resolve configured_originPositionsOf configured_getComboTreeItems
  : keeps.

Lemma configured_onPointerMove ev : configured (onPointerMove ev).
Proof.
  unfold onPointerMove, beginDrag, updateNearEdges, cacheShapeIds, moveDelegate,
    callThrottledMoveNodes, runMoveNodes, moveNodes.
  by_steps.
Qed.

Lemma configured_onPointerUp ev : configured (onPointerUp ev).
Proof. unfold onPointerUp, moveNodes. by_steps. Qed.

Lemma configured_commitCallback c ps : configured (commitCallback c ps).
Proof.
  unfold commitCallback, clearTransientItems, clearDelegate, restoreHiddenItems,
    showCached, clearState.
  by_steps.
Qed.

Local Hint Resolve configured_onPointerMove configured_onPointerUp
  configured_commitCallback : keeps.

Lemma configured_step i : configured (step i).
Proof.
  destruct i; unfold step, handle, onDocumentMouseup, onSettle, onClick,
    onPointerDown, onKeydown, onDropNode, onDropCombo, onDropCanvas,
    onThrottleTimer, runMoveNodes, moveNodes, clearDelegate,
    clearTransientItems, restoreHiddenItems, showCached, clearState.
  all: by_steps.
Qed.

Lemma configured_run (inputs : list Input) :
  emits_as_configured o g0 (run inputs (new_DragNode o g0)).
Proof.
  assert (G : forall s, emits_as_configured o g0 s ->
                        emits_as_configured o g0 (run inputs s)).
  { induction inputs as [|i r IH]; intros s H; simpl; [exact H|].
    apply IH. pose proof (configured_step i s H) as Hs.
    destruct (step i s); exact Hs. }
  apply G. split; [reflexivity | apply log_extends_refl].
Qed.

End EventName.

(** Over any sequence of inputs the only event the behaviour emits is
    the one named by [eventName]; with the default empty name it emits
    nothing at all. *)
Theorem only_the_configured_event_is_emitted (o : DragNodeOptions) (g : Graph)
    (inputs : list Input) :
  let s := run inputs (new_DragNode o g) in
  log_extends (named_event (eventName (constructor_options o))) g (graph s) /\
  (eventName (constructor_options o) = EmptyString ->
   List.filter is_emit (log (graph s)) = List.filter is_emit (log g)).
Proof.
  intros s. destruct (configured_run o g inputs) as [_ H]. fold s in H.
  split; [exact H|]. intros Hname.
  destruct H as (suffix & -> & Hall).
  rewrite List.filter_app.
  replace (List.filter is_emit suffix) with (@nil Effect);
    [rewrite app_nil_r; reflexivity|].
  induction Hall as [|e l He _ IH]; [reflexivity|].
  simpl. destruct e; simpl; try exact IH.
  destruct He as [-> Hne]. contradiction.
Qed.

(** ** Presses that [shouldBegin] refuses *)

Section NeverArmed.

Variable g0 : Graph.

Local Abbreviation refused := (keeps (never_armed g0) (never_armed g0)).

Local Ltac frame :=
  unfold never_armed, place, reparent in *; simpl in *;
  repeat match goal with
         | H : _ /\ _ |- _ => destruct H
         end;
  repeat split; auto; try congruence;
  try (apply Forall_app; split; [assumption | repeat constructor]).

Local Ltac norm :=
  idtac;
  match goal with
  | H : never_armed _ ?s |- context [shouldBegin (options ?s) ?e] =>
      rewrite (proj1 H e)
  | H : never_armed _ ?s |- context [pointerDown ?s] =>
      rewrite (proj1 (proj2 H))
  | H : never_armed _ ?s |- context [originPositions ?s] =>
      rewrite (proj1 (proj2 (proj2 (proj2 H))))
  | H : never_armed _ ?s |- context [hiddenEdges ?s] =>
      rewrite (proj1 (proj2 (proj2 (proj2 (proj2 H)))))
  | H : never_armed _ ?s |- context [hiddenRelatedNodes ?s] =>
      rewrite (proj1 (proj2 (proj2 (proj2 (proj2 (proj2 H))))))
  | H : never_armed _ ?s |- context [hiddenNearEdges ?s] =>
      rewrite (proj1 (proj2 (proj2 (proj2 (proj2 (proj2 (proj2 H)))))))
  | H : never_armed _ ?s |- context [hiddenComboTreeItems ?s] =>
      rewrite (proj1 (proj2 (proj2 (proj2 (proj2 (proj2 (proj2 (proj2 H))))))))
  | H : _ ∈ [] |- _ => inversion H
  | H : _ ∈ [_] |- _ => apply list_elem_of_singleton in H; subst
  | H : _ ∈ _ |- _ => progress simpl in H
  | |- keeps _ _ (if negb false then _ else _) => cbn [negb]
  | |- keeps _ _ (if true then _ else _) => cbv iota
  | |- keeps _ _ (match None with _ => _ end) => cbv iota
  | |- keeps _ _ (match nodesToUpdate _ _ [] with _ => _ end) =>
      cbn [nodesToUpdate]
  | |- keeps _ _ (match Some _ with _ => _ end) => cbv iota
  end.

Local Ltac by_steps := keeps_with norm; try solve [intros; frame].

Lemma refused_moveNodes dx dy t u cb : refused (moveNodes dx dy t u cb).
Proof. unfold moveNodes. by_steps. Qed.

Local Hint Resolve refused_moveNodes : keeps.

Lemma refused_onPointerUp ev : refused (onPointerUp ev).
Proof. unfold onPointerUp. by_steps. Qed.

Lemma refused_clearTransientItems : refused (clearTransientItems []).
Proof. unfold clearTransientItems. by_steps. Qed.

Lemma refused_restoreHiddenItems positions :
  positions = None \/ positions = Some [] ->
  refused (restoreHiddenItems positions).
Proof.
  intros [-> | ->]; unfold restoreHiddenItems, showCached; by_steps.
Qed.

Local Hint Resolve refused_onPointerUp refused_clearTransientItems : keeps.

Lemma refused_commitCallback c : refused (commitCallback c []).
Proof.
  unfold commitCallback, clearDelegate, clearState.
  keeps_with ltac:(first [ apply refused_restoreHiddenItems; right; reflexivity
                         | norm ]);
    try solve [intros; frame].
Qed.

Lemma refused_onSettle : refused onSettle.
Proof.
  intros s H. unfold onSettle. apply post_bind. cbn [post read].
  destruct (pendingCommits s) as [|[c ps] rest] eqn:Hp; [exact H|].
  assert (Hps : ps = [] /\ Forall (fun c => snd c = []) rest).
  { destruct H as (_ & _ & _ & _ & _ & _ & _ & _ & Hall & _).
    rewrite Hp in Hall. apply Forall_cons in Hall. exact Hall. }
  destruct Hps as [-> Hrest].
  apply post_bind. cbn [post modify].
  apply refused_commitCallback. frame.
Qed.

Lemma refused_onKeydown ev : refused (onKeydown ev).
Proof.
  unfold onKeydown, clearDelegate, clearTransientItems, clearState.
  keeps_with ltac:(first [ apply refused_restoreHiddenItems; left; reflexivity
                         | norm ]);
    try solve [intros; frame].
Qed.

Local Hint Resolve refused_onSettle refused_onKeydown : keeps.

Lemma refused_step i : refused (step i).
Proof.
  destruct i; unfold step, handle, onDocumentMouseup, onClick, onPointerDown,
    onPointerMove, onDropNode, onDropCombo, onDropCanvas, onThrottleTimer,
    runMoveNodes, clearState.
  all: by_steps.
Qed.

Lemma refused_run (inputs : list Input) (s : DragNode) :
  never_armed g0 s -> never_armed g0 (run inputs s).
Proof.
  revert s. induction inputs as [|i r IH]; intros s H; simpl; [exact H|].
  apply IH. pose proof (refused_step i s H) as Hs.
  destruct (step i s); exact Hs.
Qed.

End NeverArmed.

(** When [shouldBegin] refuses every press, no sequence of inputs
    starts a drag: nothing is ever pressed, dragged or snapshotted, no
    node is moved and no item is hidden or shown. *)
Theorem refused_press_starts_nothing (o : DragNodeOptions) (g : Graph)
    (inputs : list Input) :
  (forall ev, shouldBegin (constructor_options o) ev = false) ->
  let s := run inputs (new_DragNode o g) in
  pointerDown s = None /\ dragging s = false /\ originPositions s = [] /\
  nodes (graph s) = nodes g /\
  hiddenItems (graph s) = hiddenItems g /\
  visibleShapeIds (graph s) = visibleShapeIds g.
Proof.
  intros Hrefuse s.
  assert (H : never_armed g s).
  { apply refused_run. repeat split; auto. }
  destruct H as (_ & H1 & H2 & H3 & _ & _ & _ & _ & _ & H4 & H5 & H6).
  repeat split; assumption.
Qed.

(** ** Drops on a node and on the canvas *)

(** A drop on a node: every dragged node the store holds gets the parent
    the drop target stands for, through a data update for each whose
    parent differed, and only after that the positions are committed as
    a pointer-up does; the other nodes keep their parent and the snapshot
    stays in place until the completion callback runs. *)
Theorem drop_on_node_adopts_then_commits (s : DragNode) (event : IG6GraphEvent) :
  let c := dropParent s event in
  exists s',
    onDropNode event s = Ok tt s' /\
    (forall p, p ∈ originPositions s -> is_Some (nodes (graph s) !! p_id p) ->
       parent_of (graph s') (p_id p) = Some c) /\
    (forall i, i ∉ map p_id (originPositions s) ->
       parent_of (graph s') i = parent_of (graph s) i) /\
    originPositions s' = originPositions s /\
    exists updates,
      log (graph s')
      = log (graph s) ++ updates
        ++ [UpdateNodePosition (committed event s) (Some true)] /\
      Forall (fun e => is_updateData e = true) updates /\
      (forall p, p ∈ originPositions s -> is_Some (nodes (graph s) !! p_id p) ->
         parent_of (graph s) (p_id p) <> Some c ->
         UpdateData [(p_id p, c)] ∈ updates).
Proof.
  intros c.
  destruct (adopt_loop c (originPositions s) s)
    as (g1 & H1 & A1 & B1 & D1 & O1 & u1 & L1 & F1 & U1).
  eexists. split.
  { unfold onDropNode.
    erewrite bind_ok by reflexivity.
    erewrite bind_ok by reflexivity.
    erewrite bind_ok by exact H1.
    apply onPointerUp_eq. }
  cbn [graph set_pendingCommits set_graph originPositions set_selectedNodeIds
       set_dragging set_pointerDown].
  assert (Hin : forall p, p ∈ originPositions s ->
                      p_id p ∈ map p_id (originPositions s))
    by (intros p Hp; apply list_elem_of_fmap; exists p; split;
        [reflexivity | exact Hp]).
  repeat split.
  - intros p Hp Hs. rewrite parent_of_updateNodePosition. apply B1; auto.
  - intros i Hi. rewrite parent_of_updateNodePosition. apply O1, Hi.
  - exists u1. repeat split.
    + cbn [log updateNodePosition record with_store]. rewrite L1.
      rewrite <- app_assoc. reflexivity.
    + exact F1.
    + intros p Hp Hs Hne. apply U1; auto.
Qed.

Lemma dropParent_cons_passed_over (s : DragNode) (event : IG6GraphEvent)
    (h : option ID) (hits : list (option ID)) :
  passed_over s h ->
  dropParent s (mkEvent (ev_canvas event) (ev_itemId event) (ev_key event)
                  (h :: hits) (ev_now event))
  = dropParent s (mkEvent (ev_canvas event) (ev_itemId event) (ev_key event)
                    hits (ev_now event)).
Proof.
  intros Hh. unfold dropParent. cbn [ev_hit omap list_omap].
  destruct h as [j|]; [|reflexivity].
  unfold includes. case_bool_decide as Hj; [reflexivity|].
  destruct Hh as [Hin | [Hn Hc]]; [contradiction|].
  cbn [List.find]. unfold getComboData, getNodeData. rewrite Hn, Hc.
  cbn [fmap option_fmap option_map].
  rewrite !bool_decide_eq_false_2 by (intros [? ?]; discriminate).
  reflexivity.
Qed.

(** How the drop handlers resolve their target: the hits that are no
    item, that are dragged themselves or that the graph does not know
    are passed over, and the topmost remaining node or combo decides.  A
    node stands for its own parent, a combo for itself; when every hit
    is passed over the target is the canvas. *)
Theorem drop_target_is_the_topmost_eligible_hit (s : DragNode)
    (event : IG6GraphEvent) (above below : list (option ID)) (i : ID) :
  Forall (passed_over s) above ->
  (ev_hit event = above ++ Some i :: below ->
   i ∉ map p_id (originPositions s) ->
   is_Some (nodes (graph s) !! i) \/ is_Some (combos (graph s) !! i) ->
   dropParent s event
   = match nodes (graph s) !! i with
     | Some d => d_parentId d
     | None => Some i
     end) /\
  (ev_hit event = above -> dropParent s event = None).
Proof.
  intros Habove.
  destruct event as [cv it k hits now]. cbn [ev_hit].
  split.
  - intros -> Hi Hknown.
    induction Habove as [|h above Hh _ IH].
    + unfold dropParent. cbn [ev_hit app omap list_omap].
      unfold includes. rewrite bool_decide_eq_false_2 by exact Hi.
      cbn [List.find]. unfold getComboData, getNodeData.
      destruct (nodes (graph s) !! i) as [d|] eqn:Hn;
        destruct (combos (graph s) !! i) as [d'|] eqn:Hc;
        cbn [fmap option_fmap option_map].
      * rewrite (bool_decide_eq_true_2 (is_Some (Some (mkNode i d')))) by eauto.
        cbn [orb]. rewrite Hn. reflexivity.
      * rewrite (bool_decide_eq_true_2 (is_Some (Some (mkNode i d)))) by eauto.
        rewrite orb_true_r. rewrite Hn. reflexivity.
      * rewrite (bool_decide_eq_true_2 (is_Some (Some (mkNode i d')))) by eauto.
        cbn [orb]. rewrite Hn. reflexivity.
      * destruct Hknown as [[? ?] | [? ?]]; discriminate.
    + rewrite <- IH.
      apply (dropParent_cons_passed_over s (mkEvent cv it k [] now) h
               (above ++ Some i :: below) Hh).
  - intros ->.
    induction Habove as [|h above Hh _ IH]; [reflexivity|].
    rewrite <- IH.
    apply (dropParent_cons_passed_over s (mkEvent cv it k [] now) h above Hh).
Qed.

Lemma reparent_other (changes : list (ID * option ID)) (i : ID) :
  i ∉ map fst changes ->
  forall m : gmap string ModelData, reparent changes m !! i = m !! i.
Proof.
  induction changes as [|c r IH]; intros Hi m; [reflexivity|].
  simpl in *. rewrite IH by (intros H; apply Hi; right; exact H).
  apply lookup_alter_ne. intros Hc. apply Hi. rewrite Hc. left.
Qed.

Lemma reparent_same (changes : list (ID * option ID)) (i : ID) (v : option ID) :
  (forall c, c ∈ changes -> fst c = i -> snd c = v) ->
  i ∈ map fst changes ->
  forall m : gmap string ModelData,
    reparent changes m !! i = set_parent v <$> m !! i.
Proof.
  induction changes as [|c r IH]; intros Hv Hi m.
  - inversion Hi.
  - simpl in *.
    assert (Hr : forall c', c' ∈ r -> fst c' = i -> snd c' = v)
      by (intros c' Hc'; apply Hv; right; exact Hc').
    destruct (decide (i ∈ map fst r)) as [Hin | Hout].
    + rewrite (IH Hr Hin). destruct (decide (fst c = i)) as [Hc | Hc].
      * rewrite Hc, lookup_alter_eq, (Hv c) by (auto; left).
        destruct (m !! i); reflexivity.
      * rewrite lookup_alter_ne by exact Hc. reflexivity.
    + rewrite (reparent_other r i Hout).
      apply elem_of_cons in Hi as [Hi | Hi]; [|contradiction].
      rewrite <- Hi, lookup_alter_eq, (Hv c) by (auto; left). reflexivity.
Qed.

Lemma canvasParent_update (c origin : option ID) :
  canvasParent c origin = default origin (canvasUpdate c origin).
Proof.
  unfold canvasParent, canvasUpdate.
  destruct (truthy c && negb (bool_decide (origin = c))); [reflexivity|].
  destruct (negb (truthy origin)); reflexivity.
Qed.

Lemma nodesToUpdate_present (g : Graph) (c : option ID) (ps : list Position) :
  (forall p, p ∈ ps -> is_Some (nodes g !! p_id p)) ->
  exists l,
    nodesToUpdate g c ps = Some l /\
    (forall x, x ∈ l ->
       exists d, nodes g !! fst x = Some d /\ fst x ∈ map p_id ps /\
                 canvasUpdate c (d_parentId d) = Some (snd x)) /\
    (forall p d v, p ∈ ps -> nodes g !! p_id p = Some d ->
       canvasUpdate c (d_parentId d) = Some v -> (p_id p, v) ∈ l).
Proof.
  induction ps as [|p ps IH]; intros Hall.
  - exists []. repeat split.
    + intros x Hx. inversion Hx.
    + intros p d v Hp. inversion Hp.
  - destruct IH as (l & Hl & Hfrom & Hto);
      [intros q Hq; apply Hall; right; exact Hq|].
    destruct (Hall p) as [d Hd]; [left|].
    cbn [nodesToUpdate]. unfold getNodeData at 1. rewrite Hd.
    cbn [fmap option_fmap option_map n_data]. rewrite Hl.
    eexists. split; [reflexivity|].
    assert (Hmine :
      forall x,
        x ∈ (if truthy c && negb (bool_decide (d_parentId d = c))
             then [(p_id p, c)]
             else if negb (truthy (d_parentId d)) then []
                  else [(p_id p, None)]) <->
        fst x = p_id p /\ canvasUpdate c (d_parentId d) = Some (snd x)).
    { intros [i v]. unfold canvasUpdate. cbn [fst snd].
      destruct (truthy c && negb (bool_decide (d_parentId d = c)));
        [|destruct (negb (truthy (d_parentId d)))].
      - rewrite list_elem_of_singleton. split.
        + intros [= -> ->]. auto.
        + intros [-> [= ->]]. reflexivity.
      - split; [intros H; inversion H | intros [_ H]; discriminate].
      - rewrite list_elem_of_singleton. split.
        + intros [= -> ->]. auto.
        + intros [-> [= <-]]. reflexivity. }
    split.
    + intros x [Hx | Hx]%elem_of_app.
      * apply Hmine in Hx as [Hi Hv]. exists d. rewrite Hi.
        split; [exact Hd|]. split; [left | exact Hv].
      * destruct (Hfrom x Hx) as (d' & ? & ? & ?).
        exists d'. split; [assumption|]. split; [right|]; assumption.
    + intros q d' v [-> | Hq]%elem_of_cons Hd' Hv; apply elem_of_app.
      * left. apply Hmine. rewrite Hd in Hd'. injection Hd' as <-. auto.
      * right. eapply Hto; eassumption.
Qed.

(** A drop on the canvas when the store holds every dragged node: the
    positions are committed as a pointer-up does, then one data update at
    most is issued for all the nodes, and the snapshot is cleared.  A
    dragged node gets the parent the drop target stands for when that is
    a different one; otherwise it loses its parent, also when the target
    stands for the parent it already has; the other nodes keep theirs. *)
Theorem drop_on_canvas_reparents_in_one_update (s : DragNode)
    (event : IG6GraphEvent) :
  (forall p, p ∈ originPositions s -> is_Some (nodes (graph s) !! p_id p)) ->
  let c := dropParent s event in
  exists s',
    onDropCanvas event s = Ok tt s' /\
    originPositions s' = [] /\
    (forall p d, p ∈ originPositions s -> nodes (graph s) !! p_id p = Some d ->
       parent_of (graph s') (p_id p) = Some (canvasParent c (d_parentId d))) /\
    (forall i, i ∉ map p_id (originPositions s) ->
       parent_of (graph s') i = parent_of (graph s) i) /\
    exists batch,
      log (graph s')
      = log (graph s) ++ UpdateNodePosition (committed event s) (Some true) :: batch /\
      (batch = [] \/ exists l, batch = [UpdateData l]).
Proof.
  intros Hall c.
  set (g1 := updateNodePosition (committed event s) (Some true) (graph s)).
  set (s1 := set_pendingCommits
               (pendingCommits s ++ [(transientEnabled s, originPositions s)])
               (set_graph g1
                  (set_selectedNodeIds []
                     (set_dragging false (set_pointerDown None s))))).
  assert (Hparent : forall i, parent_of g1 i = parent_of (graph s) i)
    by (intros i; apply parent_of_updateNodePosition).
  assert (Hsome : forall i, is_Some (nodes g1 !! i) <-> is_Some (nodes (graph s) !! i))
    by (intros i; apply is_Some_updateNodePosition).
  destruct (nodesToUpdate_present g1 c (originPositions s))
    as (l & Hl & Hfrom & Hto);
    [intros p Hp; apply Hsome, Hall, Hp|].
  set (g2 := if negb (bool_decide (length l = 0%nat)) then updateData l g1 else g1).
  assert (Hnodes2 : nodes g2 = reparent l (nodes g1)).
  { subst g2. case_bool_decide as Hlen; [|reflexivity].
    destruct l; [reflexivity | discriminate]. }
  assert (Hrun : onDropCanvas event s
                 = Ok tt (set_originPositions [] (set_graph g2 s1))).
  { unfold onDropCanvas.
    erewrite bind_ok by reflexivity.
    erewrite bind_ok by apply onPointerUp_eq.
    erewrite bind_ok by reflexivity.
    erewrite bind_ok by reflexivity.
    change (graph (set_pendingCommits _ _)) with g1.
    change (originPositions (set_pendingCommits _ _)) with (originPositions s).
    fold c. rewrite Hl. subst g2.
    destruct (negb (bool_decide (length l = 0%nat)));
      erewrite bind_ok by reflexivity; [reflexivity|].
    cbn [clearState modify]. destruct s; reflexivity. }
  exists (set_originPositions [] (set_graph g2 s1)).
  split; [exact Hrun|]. split; [reflexivity|].
  change (graph (set_originPositions [] (set_graph g2 s1))) with g2.
  assert (Hothers : forall i, i ∉ map fst l ->
                       parent_of g2 i = parent_of (graph s) i).
  { intros i Hi. unfold parent_of at 1. rewrite Hnodes2, (reparent_other l i Hi).
    apply Hparent. }
  split; [|split].
  - intros p d Hp Hd.
    assert (Hd1 : exists d1, nodes g1 !! p_id p = Some d1 /\
                             d_parentId d1 = d_parentId d).
    { pose proof (Hparent (p_id p)) as Hpar. unfold parent_of in Hpar.
      rewrite Hd in Hpar.
      destruct (nodes g1 !! p_id p) as [d1|]; [|discriminate].
      exists d1. split; [reflexivity|]. injection Hpar as ->. reflexivity. }
    destruct Hd1 as (d1 & Hd1 & Hsame).
    rewrite canvasParent_update.
    destruct (canvasUpdate c (d_parentId d)) as [v|] eqn:Hv.
    + unfold parent_of. rewrite Hnodes2.
      rewrite (reparent_same l (p_id p) v).
      * rewrite Hd1. reflexivity.
      * intros x Hx Hi. destruct (Hfrom x Hx) as (d' & Hd' & _ & Hv').
        rewrite Hi, Hd1 in Hd'. injection Hd' as <-.
        rewrite Hsame, Hv in Hv'. injection Hv' as ->. reflexivity.
      * apply list_elem_of_fmap. exists (p_id p, v). split; [reflexivity|].
        apply (Hto p d1 v Hp Hd1). rewrite Hsame. exact Hv.
    + rewrite Hothers.
      * unfold parent_of. rewrite Hd. reflexivity.
      * intros (x & Hi & Hx)%list_elem_of_fmap.
        destruct (Hfrom x Hx) as (d' & Hd' & _ & Hv').
        rewrite <- Hi, Hd1 in Hd'. injection Hd' as <-.
        rewrite Hsame, Hv in Hv'. discriminate.
  - intros i Hi. apply Hothers.
    intros (x & Hx1 & Hx)%list_elem_of_fmap.
    destruct (Hfrom x Hx) as (_ & _ & Hin & _). apply Hi. rewrite Hx1. exact Hin.
  - subst g2. destruct (negb (bool_decide (length l = 0%nat))).
    + exists [UpdateData l]. split; [|right; eauto].
      cbn [log updateData record with_store]. subst g1.
      cbn [log updateNodePosition record with_store].
      rewrite <- app_assoc. reflexivity.
    + exists []. split; [|left; reflexivity].
      subst g1. cbn [log updateNodePosition record with_store]. reflexivity.
Qed.

(** ** What the first frame collects *)

(** The hidden related nodes are neighbours of selected nodes and never
    selected nodes themselves. *)
Theorem related_nodes_exclude_the_selection (g : Graph) (sel : list ID)
    (n : NodeModel) :
  n ∈ getRelatedNodes g sel ->
  (n_id n ∉ sel) /\ exists i, i ∈ sel /\ n ∈ getNeighborNodesData g i.
Proof.
  unfold getRelatedNodes.
  intros (i & Hi & Hn)%list_elem_of_In%in_flat_map.
  apply List.filter_In in Hn as [Hn Hsel].
  split.
  - unfold includes in Hsel. apply negb_true_iff, bool_decide_eq_false in Hsel.
    exact Hsel.
  - exists i. split; apply list_elem_of_In; assumption.
Qed.

Lemma uniq_subset {A : Type} (key : A -> ID) (l : list A) (x : A) :
  x ∈ uniq key l -> x ∈ l.
Proof.
  induction l as [|a r IH]; intros Hx; [exact Hx|].
  cbn [uniq] in Hx. apply elem_of_cons in Hx as [-> | Hx]; [left|].
  right. apply IH. apply list_elem_of_In in Hx.
  apply List.filter_In in Hx as [Hx _]. apply list_elem_of_In, Hx.
Qed.

Lemma ancestorChain_combos (g : Graph) (fuel : nat) (parentId : option ID)
    (x : NodeModel) :
  x ∈ ancestorChain g fuel parentId ->
  combos g !! n_id x = Some (n_data x).
Proof.
  revert parentId. induction fuel as [|fuel IH]; intros parentId Hx;
    [inversion Hx|].
  cbn [ancestorChain] in Hx.
  destruct (truthy parentId); [|inversion Hx].
  unfold getComboData in Hx.
  destruct (combos g !! default EmptyString parentId) as [d|] eqn:Hd;
    cbn [fmap option_fmap option_map] in Hx; [|inversion Hx].
  apply elem_of_cons in Hx as [-> | Hx]; [exact Hd|].
  eapply IH, Hx.
Qed.

Lemma collectAncestors_present (g : Graph) (ids : list ID) :
  (forall i, i ∈ ids -> is_Some (nodes g !! i)) ->
  exists l,
    collectAncestors g ids = Some l /\
    (forall x, x ∈ l -> combos g !! n_id x = Some (n_data x)) /\
    ((forall i d, i ∈ ids -> nodes g !! i = Some d -> truthy (d_parentId d) = false) ->
     l = []).
Proof.
  induction ids as [|i r IH]; intros Hall.
  - exists []. repeat split. intros x Hx. inversion Hx.
  - destruct IH as (l & Hl & Hcombos & Hnil);
      [intros j Hj; apply Hall; right; exact Hj|].
    destruct (Hall i) as [d Hd]; [left|].
    cbn [collectAncestors]. unfold getNodeData at 1. rewrite Hd.
    cbn [fmap option_fmap option_map n_data]. rewrite Hl.
    eexists. split; [reflexivity|]. split.
    + intros x [Hx | Hx]%elem_of_app; [|apply Hcombos, Hx].
      destruct (truthy (d_parentId d)); [|inversion Hx].
      eapply ancestorChain_combos, Hx.
    + intros Hroot. rewrite (Hroot i d) by (auto; left).
      rewrite Hnil; [reflexivity|].
      intros j d' Hj. apply Hroot. right. exact Hj.
Qed.

Lemma collectAncestors_missing (g : Graph) (ids : list ID) (i : ID) :
  i ∈ ids -> nodes g !! i = None -> collectAncestors g ids = None.
Proof.
  induction ids as [|j r IH]; intros Hi Hnone; [inversion Hi|].
  cbn [collectAncestors]. unfold getNodeData at 1.
  destruct (nodes g !! j) as [d|] eqn:Hd;
    cbn [fmap option_fmap option_map]; [|reflexivity].
  apply elem_of_cons in Hi as [-> | Hi]; [congruence|].
  rewrite (IH Hi Hnone). reflexivity.
Qed.

(** With [updateComboStructure] off, [getComboTreeItems] needs every
    selected id to be a node of the store: it throws as soon as one is
    not.  Otherwise it returns visible combos of the store only, and none
    when no selected node has a parent. *)
Theorem combo_tree_items_need_every_selected_node (s : DragNode)
    (sel : list ID) :
  updateComboStructure (options s) = false ->
  ((forall i, i ∈ sel -> is_Some (nodes (graph s) !! i)) ->
   exists items,
     getComboTreeItems sel s = Ok items s /\
     (forall item, item ∈ items ->
        getItemVisible (graph s) (n_id item) = true /\
        combos (graph s) !! n_id item = Some (n_data item)) /\
     ((forall i d, i ∈ sel -> nodes (graph s) !! i = Some d ->
         truthy (d_parentId d) = false) -> items = [])) /\
  (forall i, i ∈ sel -> nodes (graph s) !! i = None ->
     getComboTreeItems sel s = TypeError s).
Proof.
  intros Hu. unfold getComboTreeItems. rewrite Hu. split.
  - intros Hall.
    destruct (collectAncestors_present (graph s) sel Hall) as (l & -> & Hc & Hnil).
    eexists. split; [reflexivity|]. split.
    + intros item Hitem. apply list_elem_of_In, List.filter_In in Hitem as [Hin Hv].
      split; [exact Hv|]. apply Hc. eapply uniq_subset, list_elem_of_In, Hin.
    + intros Hroot. rewrite (Hnil Hroot). reflexivity.
  - intros i Hi Hnone. rewrite (collectAncestors_missing _ _ i Hi Hnone).
    reflexivity.
Qed.

Lemma originPositionsOf_ids (ids : list ID) (s : DragNode) :
  post (originPositionsOf ids s)
    (fun ps s' =>
       (exists g', s' = set_graph g' s /\ nodes g' = nodes (graph s)) /\
       map p_id ps
       = List.filter (fun i => bool_decide (is_Some (nodes (graph s) !! i))) ids /\
       snapshot_of (nodes (graph s)) ps)
    (fun _ => False).
Proof.
  revert s. induction ids as [|i r IH]; intros s.
  - simpl. split; [|split; [reflexivity | intros p Hp; inversion Hp]].
    exists (graph s). split; [destruct s; reflexivity | reflexivity].
  - cbn [originPositionsOf List.filter]. apply post_bind. unfold originPosition.
    apply post_bind; cbn [post read]. apply post_bind; cbn [post read].
    unfold getNodeData.
    destruct (nodes (graph s) !! i) as [d|] eqn:Hd;
      cbn [fmap option_fmap option_map n_data].
    + rewrite bool_decide_eq_true_2 by eauto.
      destruct (if enableDelegate (options s) then getRenderBBox (graph s) i else None);
        cbn [post mret M_ret]; apply post_bind;
        (eapply post_mono; [apply IH | | auto]);
        intros ps s' ((g' & Hs' & Hg') & Hids & Hsnap);
        cbn [post mret M_ret option_list app];
        (split; [exists g'; auto|]);
        (split; [simpl; rewrite Hids; reflexivity|]);
        intros p [-> | Hp]%elem_of_cons; auto;
        exists d; cbn [p_id p_x p_y]; auto.
    + rewrite bool_decide_eq_false_2 by (intros [? ?]; discriminate).
      apply post_bind. cbn [post call modify]. cbn [post mret M_ret].
      apply post_bind.
      eapply post_mono; [apply IH | | auto].
      intros ps s' ((g' & Hs' & Hg') & Hids & Hsnap).
      cbn [post mret M_ret option_list app].
      cbn [graph set_graph nodes warn record with_store] in *.
      split; [|split; assumption].
      exists g'. split; [|exact Hg'].
      rewrite Hs'. destruct s; reflexivity.
Qed.

Section FirstFrame.

Variable sel : list ID.
Variable ps : list Position.
Variable store : gmap string ModelData.

Local Abbreviation begun :=
  (keeps (drag_begun sel ps store) (drag_begun sel ps store)).

Lemma begun_getComboTreeItems ids : begun (getComboTreeItems ids).
Proof.
  intros s H. unfold getComboTreeItems.
  destruct (updateComboStructure (options s)); [exact H|].
  destruct (collectAncestors (graph s) ids); exact H.
Qed.

End FirstFrame.

(** The first frame of a drag, however it ends: the drag is on, the
    selection is the selected nodes or the node under the pointer, the
    snapshot lists, in order, the selected ids the store holds, each with
    the coordinates of its node, and no node has been written. *)
Theorem first_frame_snapshots_the_selection (s : DragNode)
    (event : IG6GraphEvent) (transient : bool) :
  let s' := final (beginDrag event transient s) in
  dragging s' = true /\
  selectedNodeIds s' = dragSelection s event /\
  map p_id (originPositions s')
  = List.filter (fun i => bool_decide (is_Some (nodes (graph s) !! i)))
      (dragSelection s event) /\
  snapshot_of (nodes (graph s)) (originPositions s') /\
  nodes (graph s') = nodes (graph s).
Proof.
  intros s'. subst s'.
  enough (P : post (beginDrag event transient s)
                (fun _ s' =>
                   drag_begun (dragSelection s event) (originPositions s')
                     (nodes (graph s)) s' /\
                   map p_id (originPositions s')
                   = List.filter
                       (fun i => bool_decide (is_Some (nodes (graph s) !! i)))
                       (dragSelection s event) /\
                   snapshot_of (nodes (graph s)) (originPositions s'))
                (fun s' =>
                   drag_begun (dragSelection s event) (originPositions s')
                     (nodes (graph s)) s' /\
                   map p_id (originPositions s')
                   = List.filter
                       (fun i => bool_decide (is_Some (nodes (graph s) !! i)))
                       (dragSelection s event) /\
                   snapshot_of (nodes (graph s)) (originPositions s'))).
  { destruct (beginDrag event transient s) as [[] s'|s'];
      destruct P as ((H1 & _ & H2 & H3) & H4 & H5); repeat split; assumption. }
  unfold beginDrag.
  apply post_bind; cbn [post modify].
  apply post_bind; cbn [post modify].
  apply post_bind; cbn [post read].
  set (sa := set_selectedNodeIds _ _).
  assert (Hsel : exists sb,
             (if truthy (ev_itemId event)
                 && negb (includes (selectedNodeIds sa)
                            (default EmptyString (ev_itemId event)))
              then modify (set_selectedNodeIds [default EmptyString (ev_itemId event)])
              else mret tt) sa = Ok tt sb /\
             selectedNodeIds sb = dragSelection s event /\
             sb = set_selectedNodeIds (dragSelection s event) (set_dragging true s)).
  { subst sa. unfold dragSelection.
    cbn [selectedNodeIds set_selectedNodeIds graph options set_dragging].
    destruct (ev_itemId event) as [i|]; simpl.
    - destruct (negb (String.eqb i EmptyString)
                && negb (includes (findIdByState (graph s) (selectedState (options s))) i));
        eexists; (split; [reflexivity|]); split; reflexivity.
    - eexists. split; [reflexivity|]. split; reflexivity. }
  destruct Hsel as (sb & Hrun & Hselb & Hsb).
  apply post_bind. rewrite Hrun. cbn [post].
  apply post_bind; cbn [post read]. rewrite Hselb.
  apply post_bind.
  eapply post_mono; [apply (originPositionsOf_ids (dragSelection s event) sb) | | contradiction].
  intros ps sc ((g' & Hsc & Hg') & Hids & Hsnap).
  assert (Hnodes : nodes (graph sb) = nodes (graph s)) by (rewrite Hsb; reflexivity).
  rewrite Hnodes in Hids, Hsnap, Hg'.
  apply post_bind; cbn [post modify].
  match goal with
  | |- post (?k ?st) _ _ =>
      assert (Hst : drag_begun (dragSelection s event) ps (nodes (graph s)) st)
  end.
  { rewrite Hsc, Hsb. repeat split. exact Hg'. }
  match goal with
  | |- post (?k ?st) _ _ =>
      assert (K : keeps (drag_begun (dragSelection s event) ps (nodes (graph s)))
                    (drag_begun (dragSelection s event) ps (nodes (graph s))) k)
  end.
  { unfold cacheShapeIds.
    keeps_with fail;
      try solve [intros; unfold drag_begun in *; simpl in *;
                 intuition (auto; congruence)].
    all: apply begun_getComboTreeItems. }
  pose proof (K _ Hst) as HK.
  eapply post_mono; [exact HK | |].
  - intros u x H. cbv beta in H. pose proof H as (_ & Hps' & _). rewrite Hps'.
    repeat split; assumption || apply H.
  - intros x H. cbv beta in H. pose proof H as (_ & Hps' & _). rewrite Hps'.
    repeat split; assumption || apply H.
Qed.

(** ** A move that arrives after the release *)

Lemma onClick_eq (event : IG6GraphEvent) (s : DragNode) :
  onClick event s
  = Ok tt
      (set_originPositions []
         (set_pendingCommits
            (pendingCommits s ++ [(transientEnabled s, originPositions s)])
            (set_graph
               (updateNodePosition (committed event s) (Some true) (graph s))
               (set_selectedNodeIds []
                  (set_dragging false (set_pointerDown None s)))))).
Proof. unfold onClick. erewrite bind_ok by apply onPointerUp_eq. reflexivity. Qed.

Lemma move_to_move_to (a b : Point) (o : option ModelData) :
  move_to b <$> (move_to a <$> o) = move_to b <$> o.
Proof. destruct o; reflexivity. Qed.

(** [onPointerUp] leaves the snapshot in place for its completion
    callback, [onClick] clears it at once.  So, at any point of any
    gesture, a live [moveNodes] call that arrives after a pointer-up and
    before the callback, as the trailing call of the throttle does,
    writes its own positions over the committed ones, while after a click
    it writes to no node. *)
Theorem late_move_overrides_a_pointer_up_but_not_a_click
    (o : DragNodeOptions) (g : Graph) (inputs : list Input)
    (event : IG6GraphEvent) (deltaX deltaY : Q) (upsertAncestors : bool) :
  let s := run inputs (new_DragNode o g) in
  let released := final (onPointerUp event s) in
  let clicked := final (onClick event s) in
  let late := moveNodes deltaX deltaY false upsertAncestors None in
  originPositions released = originPositions s /\
  (forall p, p ∈ originPositions s ->
     nodes (graph (final (late released))) !! p_id p
     = move_to (mkPoint (p_x p + deltaX) (p_y p + deltaY))
       <$> nodes (graph s) !! p_id p) /\
  originPositions clicked = [] /\
  nodes (graph (final (late clicked))) = nodes (graph clicked).
Proof.
  intros s released clicked late.
  destruct (well_formed_run o g inputs) as [_ Hcoh]. fold s in Hcoh.
  clearbody s. subst released clicked late.
  rewrite onPointerUp_eq, onClick_eq. cbn [final].
  split; [reflexivity|]. split; [|split; reflexivity].
  intros p Hp. unfold moveNodes.
  erewrite bind_ok by reflexivity. cbv iota.
  erewrite bind_ok by reflexivity.
  cbn [final mret M_ret graph set_graph set_pendingCommits originPositions
       set_selectedNodeIds set_dragging set_pointerDown nodes
       updateNodePosition record with_store].
  unfold committed.
  rewrite (place_snapshot
             (fun q => mkPoint (p_x q + deltaX) (p_y q + deltaY))
             (originPositions s) p)
    by (try exact Hp; intros q Hq Hid;
        destruct (Hcoh q p Hq Hp Hid) as [-> ->]; reflexivity).
  rewrite (place_snapshot
             (fun q => mkPoint (p_x q + (px (ev_canvas event) - originX s + hundredth))
                         (p_y q + (py (ev_canvas event) - originY s + hundredth)))
             (originPositions s) p)
    by (try exact Hp; intros q Hq Hid;
        destruct (Hcoh q p Hq Hp Hid) as [-> ->]; reflexivity).
  apply move_to_move_to.
Qed.

(** ** The delegate rectangle without a bounding box *)

Lemma Math_min_NaN (l : list (option Q)) : None ∈ l -> Math_min l = NaN.
Proof.
  induction l as [|x r IH]; intros H; [inversion H|].
  apply elem_of_cons in H as [<- | H]; [reflexivity|].
  cbn [Math_min foldr]. fold (Math_min r). rewrite (IH H).
  destruct x; reflexivity.
Qed.

Lemma Math_max_NaN (l : list (option Q)) : None ∈ l -> Math_max l = NaN.
Proof.
  induction l as [|x r IH]; intros H; [inversion H|].
  apply elem_of_cons in H as [<- | H]; [reflexivity|].
  cbn [Math_max foldr]. fold (Math_max r). rewrite (IH H).
  destruct x; reflexivity.
Qed.

(** The delegate rectangle when the runtime had no bounding box for one
    of the dragged nodes: [minX] and the like are [undefined] in its
    snapshot entry, so [x], [y], [width] and [height] of the rectangle
    are all [NaN], whatever boxes the other nodes have. *)
Theorem delegate_rectangle_is_NaN_without_a_box (s : DragNode)
    (deltaX deltaY : Q) (p : Position) :
  p ∈ originPositions s ->
  p_minX p = None -> p_maxX p = None -> p_minY p = None -> p_maxY p = None ->
  exists s',
    moveDelegate deltaX deltaY s = Ok tt s' /\
    last (log (graph s'))
    = Some (DrawTransient KRect DELEGATE_SHAPE_ID
              (TStyle (spread [("x", SNum NaN); ("y", SNum NaN);
                               ("width", SNum NaN); ("height", SNum NaN)]
                         (delegateStyle (options s))))) /\
    nodes (graph s') = nodes (graph s).
Proof.
  intros Hp H1 H2 H3 H4.
  assert (Hin : forall f : Position -> option Q,
             f p = None -> None ∈ map f (originPositions s)).
  { intros f Hf. apply list_elem_of_fmap. exists p. split; [symmetry; exact Hf | exact Hp]. }
  unfold moveDelegate.
  erewrite bind_ok by reflexivity.
  erewrite bind_ok by reflexivity.
  cbv zeta.
  rewrite (Math_min_NaN _ (Hin p_minX H1)), (Math_min_NaN _ (Hin p_minY H3)),
    (Math_max_NaN _ (Hin p_maxX H2)), (Math_max_NaN _ (Hin p_maxY H4)).
  eexists. split; [reflexivity|].
  cbn [graph set_graph log drawTransient record with_store nodes].
  rewrite last_snoc. split; reflexivity.
Qed.

(** ** What restoring shows *)

Lemma showCached_shows {A} (key : A -> ID) (l : list A) (s : DragNode) :
  NoDup (map key l) ->
  exists g c,
    forEach l (fun a => showCached (key a)) s
    = Ok tt (set_hiddenShapeCache c (set_graph g s)) /\
    log g = log (graph s)
            ++ map (fun a => ShowItem (key a) (hiddenShapeCache s !! key a)) l /\
    rendererType g = rendererType (graph s) /\
    (forall i, i ∉ map key l -> c !! i = hiddenShapeCache s !! i) /\
    (forall i, i ∈ map key l -> c !! i = None).
Proof.
  revert s. induction l as [|a l IH]; intros s Hnd.
  - exists (graph s), (hiddenShapeCache s).
    split; [destruct s; reflexivity|]. split; [symmetry; apply app_nil_r|].
    split; [reflexivity|]. split; [reflexivity|]. intros i Hi. inversion Hi.
  - cbn [map] in Hnd. apply NoDup_cons in Hnd as [Ha Hnd].
    set (s1 := set_hiddenShapeCache (delete (key a) (hiddenShapeCache s))
                 (set_graph (showItem (key a) (hiddenShapeCache s !! key a) (graph s)) s)).
    destruct (IH s1 Hnd) as (g & c & Heq & Hlog & Hr & Hout & Hin).
    exists g, c. split.
    { match goal with
      | |- forEach (_ :: _) ?f s = _ =>
          change (forEach l f s1 = Ok tt (set_hiddenShapeCache c (set_graph g s)))
      end.
      rewrite Heq. reflexivity. }
    split.
    { rewrite Hlog. cbn [s1 graph set_graph set_hiddenShapeCache log showItem
                         record with_store hiddenShapeCache map].
      rewrite <- app_assoc. cbn [app]. do 2 f_equal.
      apply map_ext_in. intros b Hb.
      rewrite lookup_delete_ne; [reflexivity|].
      intros Heqk. apply Ha. rewrite Heqk.
      apply list_elem_of_fmap. exists b. split; [reflexivity|].
      apply list_elem_of_In, Hb. }
    split; [rewrite Hr; reflexivity|]. split.
    + intros i Hi. rewrite Hout by (intros H; apply Hi; right; exact H).
      cbn [s1 hiddenShapeCache set_hiddenShapeCache].
      apply lookup_delete_ne. intros Heqk. apply Hi. rewrite <- Heqk. left.
    + intros i Hi. destruct (decide (i ∈ map key l)) as [Hl | Hl];
        [apply Hin, Hl|].
      rewrite Hout by exact Hl.
      apply elem_of_cons in Hi as [-> | Hi]; [|contradiction].
      cbn [s1 hiddenShapeCache set_hiddenShapeCache]. apply lookup_delete_eq.
Qed.

Lemma showDefault_shows (l : list EdgeModel) (s : DragNode) :
  exists g c,
    forEach l (fun edge =>
      call (showItem (e_id edge) None);;
      modify (fun s => set_hiddenShapeCache (delete (e_id edge) (hiddenShapeCache s)) s)) s
    = Ok tt (set_hiddenShapeCache c (set_graph g s)) /\
    log g = log (graph s) ++ map (fun e => ShowItem (e_id e) None) l /\
    rendererType g = rendererType (graph s) /\
    (forall i, i ∉ map e_id l -> c !! i = hiddenShapeCache s !! i) /\
    (forall i, i ∈ map e_id l -> c !! i = None).
Proof.
  revert s. induction l as [|a l IH]; intros s.
  - exists (graph s), (hiddenShapeCache s).
    split; [destruct s; reflexivity|]. split; [symmetry; apply app_nil_r|].
    split; [reflexivity|]. split; [reflexivity|]. intros i Hi. inversion Hi.
  - set (s1 := set_hiddenShapeCache (delete (e_id a) (hiddenShapeCache s))
                 (set_graph (showItem (e_id a) None (graph s)) s)).
    destruct (IH s1) as (g & c & Heq & Hlog & Hr & Hout & Hin).
    exists g, c. split.
    { match goal with
      | |- forEach (_ :: _) ?f s = _ =>
          change (forEach l f s1 = Ok tt (set_hiddenShapeCache c (set_graph g s)))
      end.
      rewrite Heq. reflexivity. }
    split.
    { rewrite Hlog. cbn [s1 graph set_graph set_hiddenShapeCache log showItem
                         record with_store map].
      rewrite <- app_assoc. reflexivity. }
    split; [rewrite Hr; reflexivity|]. split.
    + intros i Hi. rewrite Hout by (intros H; apply Hi; right; exact H).
      cbn [s1 hiddenShapeCache set_hiddenShapeCache].
      apply lookup_delete_ne. intros Heqk. apply Hi. rewrite <- Heqk. left.
    + intros i Hi. destruct (decide (i ∈ map e_id l)) as [Hl | Hl];
        [apply Hin, Hl|].
      rewrite Hout by exact Hl.
      apply elem_of_cons in Hi as [-> | Hi]; [|contradiction].
      cbn [s1 hiddenShapeCache set_hiddenShapeCache]. apply lookup_delete_eq.
Qed.

Lemma shown_by_nothing (s : DragNode) : shown_by [] [] s s.
Proof.
  split; [reflexivity|]. split; [symmetry; apply app_nil_r|].
  split; [reflexivity|]. intros i Hi. inversion Hi.
Qed.

Lemma shown_by_loop (ids : list ID) (shows : list Effect) (s s' : DragNode)
    (g : Graph) (c : gmap string (list string)) :
  graph s' = g -> hiddenShapeCache s' = c -> options s' = options s ->
  log g = log (graph s) ++ shows ->
  rendererType g = rendererType (graph s) ->
  (forall i, i ∉ ids -> c !! i = hiddenShapeCache s !! i) ->
  (forall i, i ∈ ids -> c !! i = None) ->
  shown_by ids shows s s'.
Proof.
  intros Hg Hc Ho Hl Hr Hout Hin. unfold shown_by, transientEnabled.
  rewrite Hg, Hc, Ho, Hr. auto.
Qed.

Lemma shown_by_trans (ids1 ids2 : list ID) (shows1 shows2 : list Effect)
    (s1 s2 s3 : DragNode) :
  shown_by ids1 shows1 s1 s2 -> shown_by ids2 shows2 s2 s3 ->
  shown_by (ids1 ++ ids2) (shows1 ++ shows2) s1 s3.
Proof.
  intros (T1 & L1 & O1 & I1) (T2 & L2 & O2 & I2). repeat split.
  - congruence.
  - rewrite L2, L1, app_assoc. reflexivity.
  - intros i Hi. rewrite O2, O1; [reflexivity | |];
      intros H; apply Hi, elem_of_app; auto.
  - intros i [Hi | Hi]%elem_of_app.
    + destruct (decide (i ∈ ids2)) as [H2 | H2]; [apply I2, H2|].
      rewrite O2 by exact H2. apply I1, Hi.
    + apply I2, Hi.
Qed.

Lemma restore_hiddenEdges (s : DragNode) :
  NoDup (map e_id (hiddenEdges s)) ->
  exists s',
    (if negb (bool_decide (length (hiddenEdges s) = 0%nat)) then
       forEach (hiddenEdges s) (fun edge => showCached (e_id edge));;
       modify (set_hiddenEdges [])
     else mret tt) s = Ok tt s' /\
    shown_by (map e_id (hiddenEdges s))
      (map (fun e => ShowItem (e_id e) (hiddenShapeCache s !! e_id e)) (hiddenEdges s))
      s s' /\
    hiddenEdges s' = [] /\
    hiddenRelatedNodes s' = hiddenRelatedNodes s /\
    hiddenNearEdges s' = hiddenNearEdges s /\
    hiddenComboTreeItems s' = hiddenComboTreeItems s.
Proof.
  intros Hnd. case_bool_decide as Hlen; cbn [negb].
  - destruct (hiddenEdges s) eqn:He; [|discriminate].
    exists s. split; [reflexivity|]. split; [apply shown_by_nothing|]. auto.
  - destruct (showCached_shows e_id (hiddenEdges s) s Hnd)
      as (g & c & Heq & Hl & Hr & Hout & Hin).
    eexists. split; [erewrite bind_ok by exact Heq; reflexivity|].
    split; [eapply shown_by_loop; eauto; reflexivity|].
    repeat split.
Qed.

Lemma restore_hiddenRelatedNodes (s : DragNode) :
  NoDup (map n_id (hiddenRelatedNodes s)) ->
  exists s',
    (if negb (bool_decide (length (hiddenRelatedNodes s) = 0%nat)) then
       forEach (hiddenRelatedNodes s) (fun node => showCached (n_id node));;
       modify (set_hiddenRelatedNodes [])
     else mret tt) s = Ok tt s' /\
    shown_by (map n_id (hiddenRelatedNodes s))
      (map (fun n => ShowItem (n_id n) (hiddenShapeCache s !! n_id n))
         (hiddenRelatedNodes s))
      s s' /\
    hiddenEdges s' = hiddenEdges s /\
    hiddenRelatedNodes s' = [] /\
    hiddenNearEdges s' = hiddenNearEdges s /\
    hiddenComboTreeItems s' = hiddenComboTreeItems s.
Proof.
  intros Hnd. case_bool_decide as Hlen; cbn [negb].
  - destruct (hiddenRelatedNodes s) eqn:He; [|discriminate].
    exists s. split; [reflexivity|]. split; [apply shown_by_nothing|]. auto.
  - destruct (showCached_shows n_id (hiddenRelatedNodes s) s Hnd)
      as (g & c & Heq & Hl & Hr & Hout & Hin).
    eexists. split; [erewrite bind_ok by exact Heq; reflexivity|].
    split; [eapply shown_by_loop; eauto; reflexivity|].
    repeat split.
Qed.

Lemma restore_hiddenNearEdges (s : DragNode) :
  exists s',
    (if negb (bool_decide (length (hiddenNearEdges s) = 0%nat)) then
       forEach (hiddenNearEdges s) (fun edge =>
         call (showItem (e_id edge) None);;
         modify (fun s => set_hiddenShapeCache
                            (delete (e_id edge) (hiddenShapeCache s)) s));;
       modify (set_hiddenNearEdges [])
     else mret tt) s = Ok tt s' /\
    shown_by (map e_id (hiddenNearEdges s))
      (map (fun e => ShowItem (e_id e) None) (hiddenNearEdges s)) s s' /\
    hiddenEdges s' = hiddenEdges s /\
    hiddenRelatedNodes s' = hiddenRelatedNodes s /\
    hiddenNearEdges s' = [] /\
    hiddenComboTreeItems s' = hiddenComboTreeItems s.
Proof.
  case_bool_decide as Hlen; cbn [negb].
  - destruct (hiddenNearEdges s) eqn:He; [|discriminate].
    exists s. split; [reflexivity|]. split; [apply shown_by_nothing|]. auto.
  - destruct (showDefault_shows (hiddenNearEdges s) s)
      as (g & c & Heq & Hl & Hr & Hout & Hin).
    eexists. split; [erewrite bind_ok by exact Heq; reflexivity|].
    split; [eapply shown_by_loop; eauto; reflexivity|].
    repeat split.
Qed.

Lemma restore_hiddenComboTreeItems (s : DragNode) :
  NoDup (map n_id (hiddenComboTreeItems s)) ->
  exists s',
    (if negb (bool_decide (length (hiddenComboTreeItems s) = 0%nat)) then
       forEach (hiddenComboTreeItems s) (fun item => showCached (n_id item));;
       modify (set_hiddenComboTreeItems [])
     else mret tt) s = Ok tt s' /\
    shown_by (map n_id (hiddenComboTreeItems s))
      (map (fun n => ShowItem (n_id n) (hiddenShapeCache s !! n_id n))
         (hiddenComboTreeItems s))
      s s' /\
    hiddenEdges s' = hiddenEdges s /\
    hiddenRelatedNodes s' = hiddenRelatedNodes s /\
    hiddenNearEdges s' = hiddenNearEdges s /\
    hiddenComboTreeItems s' = [].
Proof.
  intros Hnd. case_bool_decide as Hlen; cbn [negb].
  - destruct (hiddenComboTreeItems s) eqn:He; [|discriminate].
    exists s. split; [reflexivity|]. split; [apply shown_by_nothing|]. auto.
  - destruct (showCached_shows n_id (hiddenComboTreeItems s) s Hnd)
      as (g & c & Heq & Hl & Hr & Hout & Hin).
    eexists. split; [erewrite bind_ok by exact Heq; reflexivity|].
    split; [eapply shown_by_loop; eauto; reflexivity|].
    repeat split.
Qed.

Lemma map_show_ext {A} (key : A -> ID) (l : list A)
    (c c' : gmap string (list string)) :
  (forall a, a ∈ l -> c' !! key a = c !! key a) ->
  map (fun a => ShowItem (key a) (c' !! key a)) l
  = map (fun a => ShowItem (key a) (c !! key a)) l.
Proof.
  intros H. apply map_ext_in. intros a Ha. rewrite H; [reflexivity|].
  apply list_elem_of_In, Ha.
Qed.

(** [restoreHiddenItems] with transient drawing off, when no id is held
    hidden twice: it completes, and what it issues is one show for each
    held item, in the order of the four lists: with the shape ids cached
    for it for a related edge, a related node or a combo-tree item,
    without shape ids for a near edge.  The four lists are emptied and
    the cache entries of the shown items removed. *)
Theorem restore_shows_each_held_item_once (s : DragNode)
    (positions : option (list Position)) :
  transientEnabled s = false ->
  NoDup (hiddenIds s) ->
  exists s',
    restoreHiddenItems positions s = Ok tt s' /\
    log (graph s') = log (graph s) ++ restoredShows s /\
    hiddenEdges s' = [] /\ hiddenRelatedNodes s' = [] /\
    hiddenNearEdges s' = [] /\ hiddenComboTreeItems s' = [] /\
    (forall i, i ∈ hiddenIds s -> hiddenShapeCache s' !! i = None) /\
    (forall i, i ∉ hiddenIds s ->
       hiddenShapeCache s' !! i = hiddenShapeCache s !! i).
Proof.
  intros Hlive Hnd. unfold hiddenIds in Hnd.
  apply NoDup_app in Hnd as (Hnd1 & Hd1 & Hnd).
  apply NoDup_app in Hnd as (Hnd2 & Hd2 & Hnd).
  apply NoDup_app in Hnd as (Hnd3 & Hd3 & Hnd4).
  destruct (restore_hiddenEdges s Hnd1) as (s1 & R1 & S1 & E1 & N1 & NE1 & C1).
  destruct (restore_hiddenRelatedNodes s1) as (s2 & R2 & S2 & E2 & N2 & NE2 & C2);
    [rewrite N1; exact Hnd2|].
  destruct (restore_hiddenNearEdges s2) as (s3 & R3 & S3 & E3 & N3 & NE3 & C3).
  destruct (restore_hiddenComboTreeItems s3) as (s4 & R4 & S4 & E4 & N4 & NE4 & C4);
    [rewrite C3, C2, C1; exact Hnd4|].
  rewrite N1 in S2. rewrite NE2, NE1 in S3. rewrite C3, C2, C1 in S4.
  pose proof (shown_by_trans _ _ _ _ _ _ _ S1
                (shown_by_trans _ _ _ _ _ _ _ S2
                   (shown_by_trans _ _ _ _ _ _ _ S3 S4))) as (T & L & O & I).
  fold (hiddenIds s) in O, I.
  exists s4. split.
  { unfold restoreHiddenItems.
    erewrite bind_ok by reflexivity.
    erewrite bind_ok by exact R1.
    erewrite bind_ok by reflexivity.
    erewrite bind_ok by exact R2.
    erewrite bind_ok by reflexivity.
    erewrite bind_ok by exact R3.
    erewrite bind_ok by reflexivity.
    erewrite bind_ok by exact R4.
    erewrite bind_ok by reflexivity.
    rewrite T, Hlive. reflexivity. }
  split.
  { rewrite L. unfold restoredShows.
    rewrite (map_show_ext n_id (hiddenRelatedNodes s) (hiddenShapeCache s)
               (hiddenShapeCache s1)).
    2:{ intros n Hn. apply S1.
        intros Hin. apply (Hd1 _ Hin). apply elem_of_app. left.
        apply list_elem_of_fmap. exists n. auto. }
    rewrite (map_show_ext n_id (hiddenComboTreeItems s) (hiddenShapeCache s)
               (hiddenShapeCache s3)).
    2:{ intros n Hn.
        destruct S1 as (_ & _ & O1 & _), S2 as (_ & _ & O2 & _),
          S3 as (_ & _ & O3 & _).
        assert (Hin : n_id n ∈ map n_id (hiddenComboTreeItems s))
          by (apply list_elem_of_fmap; exists n; auto).
        rewrite O3, O2, O1; [reflexivity | | |].
        + intros H. apply (Hd1 _ H). apply elem_of_app. right.
          apply elem_of_app. right. exact Hin.
        + intros H. apply (Hd2 _ H). apply elem_of_app. right. exact Hin.
        + intros H. apply (Hd3 _ H). exact Hin. }
    reflexivity. }
  split; [congruence|]. split; [congruence|]. split; [congruence|].
  split; [exact C4|]. split; assumption.
Qed.

(** ** The threshold of a move *)

Lemma handlersFor_pointermove (opts : Options) :
  handlersFor opts "pointermove" = [HPointerMove].
Proof. unfold handlersFor, getEvents. destruct (updateComboStructure opts); reflexivity. Qed.

(** A [pointermove] is dropped unless something is pressed and the
    pointer is a unit or more away from the press point on one axis at
    least.  That holds while a drag is under way as well: a frame whose
    pointer comes back next to the press point changes nothing. *)
Theorem moves_next_to_the_press_point_are_dropped (s : DragNode)
    (event : IG6GraphEvent) :
  (pointerDown s = None \/
   exists pd, pointerDown s = Some pd /\
     (Qabs (px pd - px (ev_canvas event)) < 1)%Q /\
     (Qabs (py pd - py (ev_canvas event)) < 1)%Q) ->
  step (Dispatch "pointermove" event) s = Ok tt s.
Proof.
  intros H. unfold step.
  erewrite bind_ok by reflexivity. rewrite handlersFor_pointermove.
  cbn [forEach handle].
  enough (Hmove : onPointerMove event s = Ok tt s)
    by (erewrite bind_ok by exact Hmove; reflexivity).
  unfold onPointerMove. erewrite bind_ok by reflexivity.
  destruct H as [-> | (pd & -> & Hx & Hy)]; [reflexivity|].
  cbv zeta. unfold Qltb.
  assert (Hb : forall a : Q, (a < 1)%Q -> negb (Qle_bool 1 a) = true).
  { intros a Ha. apply negb_true_iff. destruct (Qle_bool 1 a) eqn:Hle; [|reflexivity].
    apply Qle_bool_iff in Hle. exfalso. apply (Qlt_not_le _ _ Ha Hle). }
  rewrite (Hb _ Hx), (Hb _ Hy). reflexivity.
Qed.

(** ** What the first frame hides *)

(** Every related edge is an edge of a selected node or of one of the
    nodes and combos under the given combo-tree items. *)
Theorem related_edges_touch_the_selection (g : Graph) (sel : list ID)
    (relatedCombo : list NodeModel) (e : EdgeModel) :
  e ∈ getRelatedEdges g sel relatedCombo ->
  exists i, i ∈ sel ++ graphComboTreeDfs g relatedCombo /\
            e ∈ getRelatedEdgesData g i.
Proof.
  unfold getRelatedEdges.
  intros (i & Hi & He)%uniq_subset%list_elem_of_In%in_flat_map.
  exists i. split; apply list_elem_of_In; assumption.
Qed.

Lemma set_graph_same (s : DragNode) : set_graph (graph s) s = s.
Proof. destruct s; reflexivity. Qed.

Lemma warned_warned (n m : nat) (g : Graph) :
  warned n (warned m g) = warned (n + m) g.
Proof. unfold warned. symmetry. apply Nat.iter_add. Qed.

Lemma originPosition_warns (i : ID) (s : DragNode) :
  exists p n, originPosition i s = Ok p (set_graph (warned n (graph s)) s).
Proof.
  unfold originPosition.
  erewrite bind_ok by reflexivity. erewrite bind_ok by reflexivity.
  destruct (getNodeData (graph s) i) as [m|].
  - destruct (if enableDelegate (options s) then getRenderBBox (graph s) i else None);
      eexists; exists 0%nat; change (warned 0 (graph s)) with (graph s);
      rewrite set_graph_same; reflexivity.
  - exists None, 1%nat. reflexivity.
Qed.

Lemma originPositionsOf_warns (ids : list ID) (s : DragNode) :
  exists ps n,
    originPositionsOf ids s = Ok ps (set_graph (warned n (graph s)) s).
Proof.
  revert s. induction ids as [|i r IH]; intros s.
  - exists [], 0%nat. change (warned 0 (graph s)) with (graph s).
    rewrite set_graph_same. reflexivity.
  - cbn [originPositionsOf].
    destruct (originPosition_warns i s) as (p & n & Hp).
    destruct (IH (set_graph (warned n (graph s)) s)) as (ps & m & Hr).
    exists (option_list p ++ ps), (m + n)%nat.
    erewrite bind_ok by exact Hp.
    erewrite bind_ok by exact Hr.
    cbn [mret M_ret graph set_graph]. rewrite warned_warned. reflexivity.
Qed.

Lemma warned_data (n : nat) (g : Graph) :
  nodes (warned n g) = nodes g /\
  visibleShapeIds (warned n g) = visibleShapeIds g /\
  hiddenItems (warned n g) = hiddenItems g /\
  getRelatedEdgesData (warned n g) = getRelatedEdgesData g /\
  getNeighborNodesData (warned n g) = getNeighborNodesData g /\
  graphComboTreeDfs (warned n g) = graphComboTreeDfs g.
Proof.
  induction n as [|n IH]; [repeat split|].
  unfold warned in *. cbn [Nat.iter nat_rect] in *.
  destruct IH as (H1 & H2 & H3 & H4 & H5 & H6).
  repeat split; assumption.
Qed.

Lemma bind_assoc_ok {A B C : Type} (m : M A) (k : A -> M B) (k' : B -> M C)
    s a s' :
  m s = Ok a s' -> ((m ≫= k) ≫= k') s = (k a ≫= k') s'.
Proof. intros H. unfold mbind, M_bind. rewrite H. reflexivity. Qed.

Lemma cacheShapeIds_eq (ids : list ID) (s : DragNode) :
  cacheShapeIds ids s
  = Ok tt
      (set_hiddenShapeCache
         (foldl (fun c i => <[i := getItemVisibleShapeIds (graph s) i]> c)
            (hiddenShapeCache s) ids) s).
Proof.
  unfold cacheShapeIds. revert s. induction ids as [|i r IH]; intros s.
  - destruct s; reflexivity.
  - cbn [forEach foldl]. erewrite bind_ok by reflexivity. rewrite IH. reflexivity.
Qed.

Lemma foldl_insert_lookup (f : ID -> list string) (ids : list ID) (i : ID) :
  forall c : gmap string (list string),
    foldl (fun c j => <[j := f j]> c) c ids !! i
    = if decide (i ∈ ids) then Some (f i) else c !! i.
Proof.
  induction ids as [|j r IH]; intros c; [reflexivity|].
  cbn [foldl]. rewrite IH.
  destruct (decide (i ∈ r)) as [Hr | Hr].
  - rewrite decide_True by (right; exact Hr). reflexivity.
  - destruct (decide (i = j)) as [-> | Hij].
    + rewrite decide_True by left. apply lookup_insert_eq.
    + rewrite decide_False
        by (intros [? | ?]%elem_of_cons; contradiction).
      apply lookup_insert_ne. congruence.
Qed.

Lemma hideItem_visibleShapeIds (ids : list ID) (k : bool) (g : Graph) (i : ID) :
  i ∉ ids -> visibleShapeIds (hideItem ids k g) !! i = visibleShapeIds g !! i.
Proof.
  intros Hi. cbn [hideItem record with_store visibleShapeIds].
  induction ids as [|j r IH]; [reflexivity|].
  cbn [foldr]. rewrite lookup_insert_ne.
  - apply IH. intros H. apply Hi. right. exact H.
  - intros ->. apply Hi. left.
Qed.

Lemma getComboTreeItems_completes (sel : list ID) (s : DragNode) :
  updateComboStructure (options s) = true \/
  (forall i, i ∈ sel -> is_Some (nodes (graph s) !! i)) ->
  exists items, getComboTreeItems sel s = Ok items s.
Proof.
  intros [Hu | Hall]; unfold getComboTreeItems.
  - rewrite Hu. eauto.
  - destruct (updateComboStructure (options s)); [eauto|].
    destruct (collectAncestors_present (graph s) sel Hall) as (l & -> & _).
    eauto.
Qed.

(** The first frame of a drag that hides the related edges, when
    [getComboTreeItems] does not throw: it completes, holds the related
    edges and nodes of the selection, and every item it holds is hidden;
    when no id is held twice, the cache has for each held item the shape
    ids that were visible before the frame. *)
Theorem first_frame_caches_what_it_hides (s : DragNode) (event : IG6GraphEvent) :
  hideRelatedEdges (options s) = true ->
  (updateComboStructure (options s) = true \/
   forall i, i ∈ dragSelection s event -> is_Some (nodes (graph s) !! i)) ->
  exists s',
    beginDrag event false s = Ok tt s' /\
    hiddenEdges s'
    = getRelatedEdges (graph s) (dragSelection s event) (hiddenComboTreeItems s') /\
    hiddenRelatedNodes s' = getRelatedNodes (graph s) (dragSelection s event) /\
    let held :=
      map e_id (hiddenEdges s') ++ map n_id (hiddenRelatedNodes s')
      ++ map n_id (hiddenComboTreeItems s') in
    (forall i, i ∈ held -> getItemVisible (graph s') i = false) /\
    (NoDup held ->
     forall i, i ∈ held ->
       hiddenShapeCache s' !! i = Some (getItemVisibleShapeIds (graph s) i)).
Proof.
  intros Hhide Hok.
  set (sel := dragSelection s event) in *.
  set (sb := set_selectedNodeIds sel (set_dragging true s)).
  assert (Hrun :
    (if truthy (ev_itemId event)
        && negb (includes
                   (findIdByState (graph s) (selectedState (options s)))
                   (default EmptyString (ev_itemId event)))
     then modify (set_selectedNodeIds [default EmptyString (ev_itemId event)])
     else mret tt)
      (set_selectedNodeIds
         (findIdByState (graph s) (selectedState (options s)))
         (set_dragging true s))
    = Ok tt sb).
  { subst sb sel. unfold dragSelection.
    destruct (ev_itemId event) as [i|]; simpl; [|reflexivity].
    destruct (negb (String.eqb i EmptyString)
              && negb (includes (findIdByState (graph s) (selectedState (options s))) i));
      reflexivity. }
  destruct (originPositionsOf_warns sel sb) as (ps & n & Hps).
  set (gc := warned n (graph s)) in *.
  change (graph sb) with (graph s) in Hps. fold gc in Hps.
  destruct (warned_data n (graph s)) as (Wn & Wv & Wh & We & Wnb & Wdfs).
  fold gc in Wn, Wv, Wh, We, Wnb, Wdfs.
  set (sc := set_originPositions ps (set_graph gc sb)).
  destruct (getComboTreeItems_completes sel sc) as (items & Hitems).
  { destruct Hok as [Hu | Hall]; [left; exact Hu | right].
    intros i Hi. change (nodes (graph sc)) with (nodes gc). rewrite Wn. auto. }
  set (es := getRelatedEdges gc sel items).
  set (ns := getRelatedNodes gc sel).
  eexists. split.
  { unfold beginDrag.
    erewrite bind_ok by reflexivity.
    erewrite bind_ok by reflexivity.
    erewrite bind_ok by reflexivity.
    erewrite bind_ok by exact Hrun.
    erewrite bind_ok by reflexivity.
    change (selectedNodeIds sb) with sel.
    erewrite bind_ok by exact Hps.
    erewrite bind_ok by reflexivity.
    erewrite bind_ok by reflexivity.
    change (options (set_originPositions ps (set_graph gc sb))) with (options s).
    rewrite Hhide. cbn [negb andb].
    fold sc.
    erewrite bind_assoc_ok by exact Hitems.
    erewrite bind_assoc_ok by reflexivity.
    erewrite bind_assoc_ok by reflexivity.
    erewrite bind_assoc_ok by reflexivity.
    erewrite bind_assoc_ok by reflexivity.
    erewrite bind_assoc_ok by apply cacheShapeIds_eq.
    erewrite bind_assoc_ok by reflexivity.
    erewrite bind_assoc_ok by reflexivity.
    erewrite bind_assoc_ok by apply cacheShapeIds_eq.
    erewrite bind_assoc_ok by reflexivity.
    erewrite bind_assoc_ok by reflexivity.
    erewrite bind_assoc_ok by apply cacheShapeIds_eq.
    erewrite bind_ok by reflexivity.
    erewrite bind_ok by reflexivity.
    erewrite bind_ok
      by (match goal with
          | |- (if ?c then modify (set_throttledMoveNodes ?a)
                else modify (set_throttledMoveNodes ?b)) ?st = _ =>
              instantiate (1 := set_throttledMoveNodes (if c then a else b) st);
              destruct c; reflexivity
          end).
    reflexivity. }
  cbn [hiddenEdges hiddenRelatedNodes hiddenComboTreeItems hiddenShapeCache
       graph options set_origin set_throttledMoveNodes set_graph
       set_hiddenShapeCache set_hiddenRelatedNodes set_hiddenEdges
       set_hiddenComboTreeItems set_originPositions set_selectedNodeIds
       set_dragging sc sb].
  fold es ns.
  set (eids := map e_id es). set (nids := map n_id ns).
  set (cids := map n_id items).
  split; [unfold es, getRelatedEdges; rewrite Wdfs, We; reflexivity|].
  split; [unfold ns, getRelatedNodes; rewrite Wnb; reflexivity|].
  split.
  - intros i Hi. unfold getItemVisible, includes.
    rewrite bool_decide_eq_true_2; [reflexivity|].
    cbn [hiddenItems frontItem hideItem record with_store].
    apply elem_of_app in Hi as [Hi | Hi];
      [|apply elem_of_app in Hi as [Hi | Hi]].
    + apply elem_of_app. right. apply elem_of_app. right.
      apply elem_of_app. left. exact Hi.
    + apply elem_of_app. right. apply elem_of_app. left. exact Hi.
    + apply elem_of_app. left. exact Hi.
  - intros Hnd i Hi.
    apply NoDup_app in Hnd as (_ & Hd1 & Hnd).
    apply NoDup_app in Hnd as (_ & Hd2 & _).
    assert (Hvis : forall g', visibleShapeIds g' !! i = visibleShapeIds (graph s) !! i ->
                          getItemVisibleShapeIds g' i
                          = getItemVisibleShapeIds (graph s) i)
      by (intros g' Hg'; unfold getItemVisibleShapeIds; rewrite Hg'; reflexivity).
    rewrite !foldl_insert_lookup.
    destruct (decide (i ∈ cids)) as [Hc | Hc].
    { f_equal. apply Hvis.
      rewrite !hideItem_visibleShapeIds; [rewrite Wv; reflexivity | |].
      - intros He. apply (Hd1 i He). apply elem_of_app. right. exact Hc.
      - intros Hn. apply (Hd2 i Hn). exact Hc. }
    destruct (decide (i ∈ nids)) as [Hn | Hn].
    { f_equal. apply Hvis.
      rewrite hideItem_visibleShapeIds; [rewrite Wv; reflexivity|].
      intros He. apply (Hd1 i He). apply elem_of_app. left. exact Hn. }
    destruct (decide (i ∈ eids)) as [He | He].
    { f_equal. apply Hvis. rewrite Wv. reflexivity. }
    exfalso.
    apply elem_of_app in Hi as [Hi | Hi]; [contradiction|].
    apply elem_of_app in Hi as [Hi | Hi]; contradiction.
Qed.

(** ** Near edges *)

Lemma tidy_loop {A} (targets : A -> list (ItemKind * ID)) (keys : A -> list ID)
    (body : A -> M unit) (l : list A) :
  (forall a s, exists g,
      body a s = Ok tt (set_graph g s) /\
      tidied (targets a) (keys a) (graph s) g) ->
  forall s, exists g,
    forEach l body s = Ok tt (set_graph g s) /\
    tidied (flat_map targets l) (flat_map keys l) (graph s) g.
Proof.
  intros Hbody. induction l as [|a l IH]; intros s.
  - exists (graph s). split; [rewrite set_graph_same; reflexivity | apply tidied_refl].
  - destruct (Hbody a s) as (g1 & H1 & T1).
    destruct (IH (set_graph g1 s)) as (g2 & H2 & T2).
    exists g2. split.
    + cbn [forEach]. erewrite bind_ok by exact H1. exact H2.
    + apply (tidied_trans _ _ _ _ _ g1); assumption.
Qed.

Lemma draw_loop (l : list EdgeModel) (cfg : TransientCfg) (s : DragNode) :
  exists g,
    forEach l (fun edge => call (drawTransient KEdge (e_id edge) cfg)) s
    = Ok tt (set_graph g s) /\
    nodes g = nodes (graph s) /\ hiddenItems g = hiddenItems (graph s).
Proof.
  revert s. induction l as [|a l IH]; intros s.
  - exists (graph s). split; [rewrite set_graph_same; reflexivity | auto].
  - destruct (IH (set_graph (drawTransient KEdge (e_id a) cfg (graph s)) s))
      as (g & Hg & Hn & Hh).
    exists g. split; [|split; assumption].
    cbn [forEach]. erewrite bind_ok by reflexivity. exact Hg.
Qed.

(** [updateNearEdges]: nothing happens unless a selected node is
    flagged.  Otherwise it completes without writing to a node: the edges
    held as near become the cache, the near edges of the flagged nodes
    that are not held as related edges become the held ones and are
    hidden, and an edge that was held and is no longer near is visible
    again. *)
Theorem near_edges_follow_the_flagged_nodes (s : DragNode) :
  (flaggedNodes s = [] -> updateNearEdges s = Ok tt s) /\
  (flaggedNodes s <> [] ->
   exists s',
     updateNearEdges s = Ok tt s' /\
     hiddenNearEdgesCache s' = hiddenNearEdges s /\
     hiddenNearEdges s' = nearEdges s /\
     hiddenEdges s' = hiddenEdges s /\
     nodes (graph s') = nodes (graph s) /\
     (forall e, e ∈ nearEdges s ->
        (e_id e ∉ map e_id (hiddenEdges s)) /\
        getItemVisible (graph s') (e_id e) = false) /\
     (forall e, e ∈ hiddenNearEdges s -> e_id e ∉ map e_id (nearEdges s) ->
        getItemVisible (graph s') (e_id e) = true)).
Proof.
  unfold updateNearEdges.
  erewrite bind_ok by reflexivity. erewrite bind_ok by reflexivity.
  fold (flaggedNodes s).
  split.
  - intros ->. reflexivity.
  - intros Hflag.
    rewrite (bool_decide_eq_false_2 (length (flaggedNodes s) = 0%nat))
      by (destruct (flaggedNodes s); [contradiction | discriminate]).
    cbn [negb].
    erewrite bind_ok by reflexivity.
    erewrite bind_ok by reflexivity.
    erewrite bind_ok by reflexivity.
    erewrite bind_ok by reflexivity.
    erewrite bind_ok by reflexivity.
    cbn [hiddenNearEdges hiddenNearEdgesCache set_hiddenNearEdges
         set_hiddenNearEdgesCache graph].
    fold (nearEdges s).
    set (st := set_hiddenNearEdges (nearEdges s)
                 (set_hiddenNearEdgesCache (hiddenNearEdges s) s)).
    set (nearIds := map e_id (nearEdges s)).
    destruct (tidy_loop
                (fun edge : EdgeModel =>
                   if negb (includes nearIds (e_id edge))
                   then [(KEdge, e_id edge)] else [])
                (fun edge : EdgeModel =>
                   if negb (includes nearIds (e_id edge))
                   then [e_id edge] else [])
                (fun edge : EdgeModel =>
                   if negb (includes nearIds (e_id edge)) then
                     call (drawTransient KEdge (e_id edge) TRemove);;
                     call (showItem (e_id edge) None)
                   else mret tt)
                (hiddenNearEdges s)) with (s := st) as (g1 & H1 & T1).
    { intros a s0. destruct (negb (includes nearIds (e_id a))).
      - eexists. split; [reflexivity|].
        eapply (tidied_trans [_] [] [] [_]); [apply tidied_remove | apply tidied_show].
      - exists (graph s0). split; [rewrite set_graph_same; reflexivity | apply tidied_refl]. }
    erewrite bind_ok by exact H1.
    destruct T1 as (_ & N1 & _ & _ & V1 & _ & K1).
    assert (Hnear : forall e, e ∈ nearEdges s -> e_id e ∉ map e_id (hiddenEdges s)).
    { intros e He. unfold nearEdges in He.
      apply list_elem_of_In, List.filter_In in He as [_ He].
      apply negb_true_iff, bool_decide_eq_false in He. exact He. }
    assert (Hdropped : forall e, e ∈ hiddenNearEdges s -> e_id e ∉ nearIds ->
                                 e_id e ∉ hiddenItems g1).
    { intros e He Hout. apply K1. apply list_elem_of_In, in_flat_map.
      exists e. split; [apply list_elem_of_In, He|].
      unfold includes. rewrite bool_decide_eq_false_2 by exact Hout. left. reflexivity. }
    case_bool_decide as Hlen; cbn [negb].
    + assert (Hnil : nearEdges s = [])
        by (destruct (nearEdges s); [reflexivity | discriminate]).
      eexists. split; [reflexivity|].
      cbn [hiddenNearEdgesCache hiddenNearEdges hiddenEdges graph set_graph st
           set_hiddenNearEdges set_hiddenNearEdgesCache].
      repeat split; try assumption.
      * apply Hnear, H.
      * rewrite Hnil in H. inversion H.
      * intros e He Hout. unfold getItemVisible, includes.
        rewrite bool_decide_eq_false_2; [reflexivity | apply Hdropped; assumption].
    + destruct (draw_loop (nearEdges s) TVisible (set_graph g1 st))
        as (g2 & H2 & N2 & V2).
      erewrite bind_ok by exact H2.
      erewrite bind_ok by apply cacheShapeIds_eq.
      eexists. split; [reflexivity|].
      cbn [hiddenNearEdgesCache hiddenNearEdges hiddenEdges graph set_graph st
           set_hiddenNearEdges set_hiddenNearEdgesCache set_hiddenShapeCache
           nodes hiddenItems hideItem record with_store] in *.
      repeat split; try congruence.
      * apply Hnear, H.
      * unfold getItemVisible, includes.
        cbn [hiddenItems hideItem record with_store].
        rewrite bool_decide_eq_true_2; [reflexivity|].
        apply elem_of_app. left. apply list_elem_of_fmap. exists e. auto.
      * intros e He Hout. unfold getItemVisible, includes.
        cbn [hiddenItems hideItem record with_store].
        rewrite bool_decide_eq_false_2; [reflexivity|].
        intros [Hin | Hin]%elem_of_app; [contradiction|].
        rewrite V2 in Hin. apply (Hdropped e He Hout Hin).
Qed.

(** ** The further properties at the demo *)

Lemma escape_throws_when_transient_witness :
  let s := run Demo.start_dragging_a
             (new_DragNode Demo.transient_options Demo.demo_graph) in
  exists s',
    onKeydown Demo.escape s = TypeError s' /\
    originPositions s' = originPositions s /\
    getItemVisible (graph s') "a" = true.
Proof.
  intros s.
  assert (Eids : hiddenIds s ++ map p_id (originPositions s)
                 = ["a2b"; "a2c"; "b"; "c"; "a"])
    by (vm_compute; reflexivity).
  destruct (escape_throws_when_transient s Demo.escape)
    as (s' & H1 & H2 & _ & _ & _ & _ & _ & _ & _ & _ & _ & H3).
  - left. reflexivity.
  - vm_compute. reflexivity.
  - exists s'. split; [exact H1|]. split; [exact H2|].
    apply H3. rewrite Eids. do 4 right. left.
Defined.

Lemma escape_in_delegate_mode_moves_nothing_witness :
  let s := run Demo.start_dragging_a
             (new_DragNode Demo.delegate_options Demo.demo_graph) in
  exists s',
    onKeydown Demo.escape s = Ok tt s' /\
    nodes (graph s') = nodes (graph s) /\
    originPositions s' = [].
Proof.
  intros s.
  destruct (escape_in_delegate_mode_moves_nothing Demo.delegate_options
              Demo.demo_graph Demo.start_dragging_a Demo.escape)
    as (s' & H1 & H2 & _ & _ & _ & H3).
  - left. reflexivity.
  - vm_compute. reflexivity.
  - fold s in H1, H2. exists s'. split; [exact H1|]. split; [exact H2 | exact H3].
Defined.

Lemma live_frame_tracks_the_pointer_witness :
  let s := run Demo.start_dragging_a
             (new_DragNode Demo.live_options Demo.demo_graph) in
  exists s',
    onPointerMove (Demo.pointer 252 70 (Some "a") 1030) s = Ok tt s' /\
    nodes (graph s') !! "a"
    = move_to (mkPoint (200 + (252 - originX s)) (100 + (70 - originY s)))
      <$> nodes (graph s) !! "a".
Proof.
  intros s.
  assert (Eps : originPositions s = [mkPosition "a" 200 100 None None None None])
    by (vm_compute; reflexivity).
  destruct (live_frame_tracks_the_pointer Demo.live_options Demo.demo_graph
              Demo.start_dragging_a (Demo.pointer 252 70 (Some "a") 1030)
              (mkPoint 200 100))
    as (s' & H1 & _ & H2 & _).
  - vm_compute. reflexivity.
  - vm_compute. reflexivity.
  - vm_compute. reflexivity.
  - fold s. rewrite Eps. discriminate.
  - vm_compute. reflexivity.
  - vm_compute. reflexivity.
  - vm_compute. reflexivity.
  - fold s in H1, H2. exists s'. split; [exact H1|].
    apply (H2 (mkPosition "a" 200 100 None None None None)).
    rewrite Eps. apply list_elem_of_singleton. reflexivity.
Defined.

Lemma release_without_a_drag_still_completes_witness :
  let s := new_DragNode Demo.live_options Demo.demo_graph in
  log (graph (run [Dispatch "node:pointerup" (Demo.pointer 200 100 (Some "a") 1000);
                   Settle] s))
  = [UpdateNodePosition [] (Some true); Emit "dragend" []].
Proof.
  intros s.
  destruct (release_without_a_drag_still_completes s
              (Demo.pointer 200 100 (Some "a") 1000)
              eq_refl eq_refl eq_refl eq_refl eq_refl eq_refl) as (H & _).
  exact H.
Defined.

Lemma transient_drag_leaves_the_nodes_until_release_witness :
  nodes (graph (run Demo.start_dragging_a
                  (new_DragNode Demo.transient_options Demo.demo_graph)))
  = nodes Demo.demo_graph.
Proof.
  apply (transient_drag_leaves_the_nodes_until_release Demo.transient_options
           Demo.demo_graph Demo.start_dragging_a).
  - reflexivity.
  - repeat constructor.
Defined.

Lemma only_the_configured_event_is_emitted_witness :
  List.filter is_emit
    (log (graph (run Demo.drag_a
                   (new_DragNode Demo.resize_only_options Demo.demo_graph))))
  = [].
Proof.
  destruct (only_the_configured_event_is_emitted Demo.resize_only_options
              Demo.demo_graph Demo.drag_a) as [_ H].
  apply H. reflexivity.
Defined.

Lemma refused_press_starts_nothing_witness :
  let s := run Demo.drag_a (new_DragNode Cases.refusing_options Demo.demo_graph) in
  pointerDown s = None /\ dragging s = false /\ originPositions s = [] /\
  nodes (graph s) = nodes Demo.demo_graph /\
  hiddenItems (graph s) = [] /\
  visibleShapeIds (graph s) = visibleShapeIds Demo.demo_graph.
Proof.
  apply (refused_press_starts_nothing Cases.refusing_options Demo.demo_graph
           Demo.drag_a).
  intros ev. reflexivity.
Defined.

Lemma drop_on_node_adopts_then_commits_witness :
  let s := run Demo.start_dragging_a
             (new_DragNode Demo.live_options Cases.nested_graph) in
  exists s',
    onDropNode (Cases.drop [Some "a"; Some "b"]) s = Ok tt s' /\
    parent_of (graph s') "a" = Some (Some "c1").
Proof.
  intros s.
  assert (Eps : originPositions s = [mkPosition "a" 200 100 None None None None])
    by (vm_compute; reflexivity).
  assert (Ec : dropParent s (Cases.drop [Some "a"; Some "b"]) = Some "c1")
    by (vm_compute; reflexivity).
  assert (Ea : is_Some (nodes (graph s) !! "a")) by (vm_compute; eauto).
  destruct (drop_on_node_adopts_then_commits s (Cases.drop [Some "a"; Some "b"]))
    as (s' & H1 & H2 & _).
  exists s'. split; [exact H1|]. rewrite <- Ec.
  apply (H2 (mkPosition "a" 200 100 None None None None)).
  - rewrite Eps. apply list_elem_of_singleton. reflexivity.
  - exact Ea.
Defined.

Lemma drop_target_is_the_topmost_eligible_hit_witness :
  let s := run Demo.start_dragging_a
             (new_DragNode Demo.live_options Cases.nested_graph) in
  dropParent s (Cases.drop [Some "a"; None; Some "ghost"; Some "b"; Some "c"])
  = Some "c1".
Proof.
  intros s.
  assert (Eps : originPositions s = [mkPosition "a" 200 100 None None None None])
    by (vm_compute; reflexivity).
  assert (Eb : nodes (graph s) !! "b" = Some (mkData 100 200 (Some "c1") false false))
    by (vm_compute; reflexivity).
  assert (Eg : nodes (graph s) !! "ghost" = None /\ combos (graph s) !! "ghost" = None)
    by (vm_compute; split; reflexivity).
  destruct (drop_target_is_the_topmost_eligible_hit s
              (Cases.drop [Some "a"; None; Some "ghost"; Some "b"; Some "c"])
              [Some "a"; None; Some "ghost"] [Some "c"] "b") as [H _].
  - apply Forall_cons. split; [left; rewrite Eps; left|].
    apply Forall_cons. split; [exact I|].
    apply Forall_cons. split; [right; exact Eg | apply Forall_nil_2].
  - rewrite H, ?Eb; try reflexivity.
    + rewrite Eps. intros Hin%list_elem_of_singleton. discriminate.
    + left. rewrite Eb. eauto.
Defined.

Lemma drop_on_canvas_reparents_in_one_update_witness :
  let s := run Cases.start_dragging_b
             (new_DragNode Demo.live_options Cases.nested_graph) in
  exists s',
    onDropCanvas (Cases.drop []) s = Ok tt s' /\
    parent_of (graph s) "b" = Some (Some "c1") /\
    parent_of (graph s') "b" = Some None.
Proof.
  intros s.
  assert (Eps : originPositions s = [mkPosition "b" 100 200 None None None None])
    by (vm_compute; reflexivity).
  assert (Ec : dropParent s (Cases.drop []) = None) by (vm_compute; reflexivity).
  assert (Eb : exists d, nodes (graph s) !! "b" = Some d /\ d_parentId d = Some "c1")
    by (vm_compute; eauto).
  destruct Eb as (d & Eb & Ed).
  destruct (drop_on_canvas_reparents_in_one_update s (Cases.drop []))
    as (s' & H1 & _ & H2 & _).
  - rewrite Eps. intros p ->%list_elem_of_singleton. cbn [p_id]. rewrite Eb. eauto.
  - exists s'. split; [exact H1|]. split.
    + unfold parent_of. rewrite Eb. cbn. rewrite Ed. reflexivity.
    + assert (Hin : mkPosition "b" 100 200 None None None None ∈ originPositions s)
        by (rewrite Eps; apply list_elem_of_singleton; reflexivity).
      pose proof (H2 _ d Hin Eb) as Hp. cbn [p_id] in Hp.
      rewrite Hp, Ec, Ed. reflexivity.
Defined.

Lemma related_nodes_exclude_the_selection_witness :
  ("b" ∉ ["a"]) /\
  exists i, i ∈ ["a"] /\
    mkNode "b" (Demo.plain 100 200) ∈ getNeighborNodesData Demo.demo_graph i.
Proof.
  apply (related_nodes_exclude_the_selection Demo.demo_graph ["a"]
           (mkNode "b" (Demo.plain 100 200))).
  vm_compute. left.
Defined.

Lemma combo_tree_items_need_every_selected_node_witness :
  let s := new_DragNode Demo.resize_only_options Demo.demo_graph in
  getComboTreeItems ["a"; "a2b"] s = TypeError s.
Proof.
  intros s.
  destruct (combo_tree_items_need_every_selected_node s ["a"; "a2b"]) as [_ H].
  - reflexivity.
  - apply (H "a2b"); [right; left | reflexivity].
Defined.

Lemma late_move_overrides_a_pointer_up_but_not_a_click_witness :
  let s := run Demo.start_dragging_a
             (new_DragNode Demo.live_options Demo.demo_graph) in
  let up := Demo.pointer 252 70 (Some "a") 1030 in
  nodes (graph (final (moveNodes 28 (-10) false false None
                         (final (onPointerUp up s))))) !! "a"
  = move_to (mkPoint (200 + 28) (100 + -10)) <$> nodes (graph s) !! "a".
Proof.
  intros s up.
  assert (Eps : originPositions s = [mkPosition "a" 200 100 None None None None])
    by (vm_compute; reflexivity).
  destruct (late_move_overrides_a_pointer_up_but_not_a_click Demo.live_options
              Demo.demo_graph Demo.start_dragging_a up 28 (-10) false)
    as (_ & H & _).
  fold s in H.
  apply (H (mkPosition "a" 200 100 None None None None)).
  rewrite Eps. apply list_elem_of_singleton. reflexivity.
Defined.

Lemma restore_shows_each_held_item_once_witness :
  let s := run Demo.start_dragging_a
             (new_DragNode Demo.hiding_options Demo.demo_graph) in
  exists s',
    restoreHiddenItems None s = Ok tt s' /\
    log (graph s')
    = log (graph s)
      ++ [ShowItem "a2b" (Some ["keyShape"]); ShowItem "a2c" (Some ["keyShape"]);
          ShowItem "b" (Some ["keyShape"]); ShowItem "c" (Some ["keyShape"])].
Proof.
  intros s.
  assert (Eids : hiddenIds s = ["a2b"; "a2c"; "b"; "c"])
    by (vm_compute; reflexivity).
  assert (Eshows : restoredShows s
                   = [ShowItem "a2b" (Some ["keyShape"]);
                      ShowItem "a2c" (Some ["keyShape"]);
                      ShowItem "b" (Some ["keyShape"]);
                      ShowItem "c" (Some ["keyShape"])])
    by (vm_compute; reflexivity).
  destruct (restore_shows_each_held_item_once s None) as (s' & H1 & H2 & _).
  - vm_compute. reflexivity.
  - rewrite Eids. apply (bool_decide_unpack _). vm_compute. exact I.
  - exists s'. split; [exact H1|]. rewrite H2, Eshows. reflexivity.
Defined.

Lemma delegate_rectangle_is_NaN_without_a_box_witness :
  let s := run Demo.start_dragging_a
             (new_DragNode Demo.delegate_options Cases.boxless_graph) in
  exists s',
    moveDelegate 50 (-30) s = Ok tt s' /\
    last (log (graph s'))
    = Some (DrawTransient KRect DELEGATE_SHAPE_ID
              (TStyle (spread [("x", SNum NaN); ("y", SNum NaN);
                               ("width", SNum NaN); ("height", SNum NaN)]
                         (delegateStyle (options s))))).
Proof.
  intros s.
  assert (Eps : originPositions s = [mkPosition "a" 200 100 None None None None])
    by (vm_compute; reflexivity).
  destruct (delegate_rectangle_is_NaN_without_a_box s 50 (-30)
              (mkPosition "a" 200 100 None None None None))
    as (s' & H1 & H2 & _); try reflexivity.
  - rewrite Eps. apply list_elem_of_singleton. reflexivity.
  - exists s'. split; [exact H1 | exact H2].
Defined.

Lemma moves_next_to_the_press_point_are_dropped_witness :
  let s := run Demo.start_dragging_a
             (new_DragNode Demo.live_options Demo.demo_graph) in
  step (Dispatch "pointermove" (Demo.pointer (401 # 2) (201 # 2) (Some "a") 1030)) s
  = Ok tt s.
Proof.
  intros s.
  apply (moves_next_to_the_press_point_are_dropped s).
  right. exists (mkPoint 200 100). split; [vm_compute; reflexivity|].
  split; reflexivity.
Defined.

Lemma related_edges_touch_the_selection_witness :
  exists i, i ∈ ["a"] ++ graphComboTreeDfs Demo.demo_graph [] /\
            Demo.a2b ∈ getRelatedEdgesData Demo.demo_graph i.
Proof.
  apply (related_edges_touch_the_selection Demo.demo_graph ["a"] [] Demo.a2b).
  vm_compute. left.
Defined.

Lemma first_frame_caches_what_it_hides_witness :
  let s := run [Dispatch "node:pointerdown" (Demo.pointer 200 100 (Some "a") 1000)]
             (new_DragNode Demo.hiding_options Demo.demo_graph) in
  exists s',
    beginDrag (Demo.pointer 202 100 (Some "a") 1010) false s = Ok tt s' /\
    getItemVisible (graph s') "a2b" = false /\
    hiddenShapeCache s' !! "a2b" = Some ["keyShape"].
Proof.
  intros s.
  destruct (first_frame_caches_what_it_hides s (Demo.pointer 202 100 (Some "a") 1010))
    as (s' & H1 & H2 & H3 & H4 & H5).
  - reflexivity.
  - left. reflexivity.
  - assert (Ee : hiddenEdges s' = [Demo.a2b; Demo.a2c])
      by (rewrite H2; vm_compute; reflexivity).
    assert (En : hiddenRelatedNodes s'
                 = [mkNode "b" (Demo.plain 100 200); mkNode "c" (Demo.plain 300 200)])
      by (rewrite H3; vm_compute; reflexivity).
    assert (Ec : hiddenComboTreeItems s' = [])
      by (vm_compute in H1; injection H1 as <-; reflexivity).
    rewrite Ee, En, Ec in H4, H5. cbn [map app e_id n_id Demo.a2b Demo.a2c] in H4, H5.
    exists s'. split; [exact H1|]. split.
    + apply H4. left.
    + assert (Hnd : NoDup ["a2b"; "a2c"; "b"; "c"])
        by (apply (bool_decide_unpack _); vm_compute; exact I).
      rewrite (H5 Hnd "a2b") by left.
      vm_compute. reflexivity.
Defined.

Lemma near_edges_follow_the_flagged_nodes_witness :
  let s := run Demo.start_dragging_a
             (new_DragNode Demo.transient_options Demo.crowded_graph) in
  exists s',
    updateNearEdges s = Ok tt s' /\
    hiddenNearEdges s' = [Demo.b2c] /\
    getItemVisible (graph s') "b2c" = false.
Proof.
  intros s.
  assert (En : nearEdges s = [Demo.b2c]) by (vm_compute; reflexivity).
  destruct (near_edges_follow_the_flagged_nodes s) as [_ H].
  destruct H as (s' & H1 & _ & H2 & _ & _ & H3 & _).
  - vm_compute. discriminate.
  - exists s'. split; [exact H1|]. rewrite H2, En. split; [reflexivity|].
    apply (H3 Demo.b2c). rewrite En. left.
Defined.
